(** * Gesture recognition and input fusion: a shallow embedding

    This development embeds the input layer of the escape-room game
    ([utils/constants.py], [utils/filters.py], [input_manager.py] and the
    [AccelerometerReader] of [direction_detection_v2.py]) and proves the
    properties of its detectors.

    Conventions of the embedding.

    - Numbers.  Clock values and, in the main development, sensor values
      are rationals ([Q]) with the boolean tests [Qgtb], [Qltb],
      [Qle_bool].  The statements proved over this reading depend on the
      comparisons the code makes, on its control flow and on the smoothing
      being monotone.  Where a statement depends on what the floating-point
      operations return (the smoothing of [update()] in C1, [ema_filter] in
      C8, the sums of [calibrate] in C9), the code is embedded a second
      time in module [F64], over binary64 floats with the primitive
      operations of [PrimFloat].
    - A blocking detector is a [while] loop around [self.update()].  One
      iteration consumes one [Tick]: the values the devices and the
      monotonic clock hand to that iteration.  A run over a finite list of
      ticks ends [Returned], [Raised], or is still [Blocked] in the loop
      when the list is used up.
    - Exceptions raised by a device read are values of [exn]; the code has
      no handler in [update], so they travel through the [result] type.
    - Caller-supplied hint callbacks and the optional display of progress
      do not influence a detector's return value and are left out, except
      for the display callback of [navigate_choice], whose calls are
      recorded in a trace. *)

From Stdlib Require Import QArith Qabs Qround Qpower Lqa ZArith Lia List String Ascii.
From Stdlib Require Import Floats.
From stdpp Require Import gmap strings.
Import ListNotations.

#[local] Set Warnings "-inexact-float".

Local Open Scope Q_scope.

(** ** Rational helpers *)

(** [a > b] and [a < b], as boolean tests. *)
Definition Qgtb (a b : Q) : bool := negb (Qle_bool a b).
Definition Qltb (a b : Q) : bool := negb (Qle_bool b a).

(** Python's [int(f)]: truncation toward zero. *)
Definition py_int (q : Q) : Z := Z.quot (Qnum q) (Zpos (Qden q)).

(** Truthiness of an optional numeric argument: [None], [0] and [0.0] are
    falsy. *)
Definition truthy (t : option Q) : bool :=
  match t with
  | None => false
  | Some q => negb (Qeq_bool q 0)
  end.

(** The value of a truthy timeout ([0] stands in where the test
    [timeout_s and ...] has already short-circuited). *)
Definition timeout_value (t : option Q) : Q :=
  match t with
  | None => 0
  | Some q => q
  end.

(** ** Exceptions and results *)

Inductive exn : Type := OSError | IndexError | ZeroDivisionError.

Inductive result (A : Type) : Type :=
| Ok (a : A)
| Exc (e : exn).
Arguments Ok {A} a.
Arguments Exc {A} e.

#[global] Instance result_ret : MRet result := fun A a => Ok a.
#[global] Instance result_bind : MBind result := fun A B k m =>
  match m with
  | Ok a => k a
  | Exc e => Exc e
  end.

(** ** utils/constants.py *)

Definition ACCEL_EMA_ALPHA : Q := 0.3.
Definition MOTION_THRESHOLD : Q := 0.30.
Definition TILT_THRESHOLD : Q := 1.2.
Definition DOUBLE_TAP_WINDOW : Q := 0.4.

(** ** The accelerometer as a device

    [accelerometer.acceleration] either yields a triple or raises (a failed
    bus transfer).  A device used outside a tick loop is the sequence of
    its successive reads. *)

Definition reading : Type := option (Q * Q * Q).
Definition accelerometer : Type := nat -> reading.

(** ** utils/filters.py *)

Module AccelerometerFilter.

(** [ema_filter(raw, filtered, alpha)] *)
Definition ema_filter (raw filtered alpha : Q) : Q :=
  alpha * raw + (1 - alpha) * filtered.

(** The [for _ in range(samples)] loop of [calibrate]: [n] iterations left,
    the next read is number [k], the running sums are [sums]. *)
Fixpoint calibrate_loop (acc : accelerometer) (k n : nat) (sums : Q * Q * Q)
  : result (Q * Q * Q) :=
  match n with
  | O => Ok sums
  | S n' =>
      match acc k with
      | None => Exc OSError
      | Some (x, y, z) =>
          let '(sum_x, sum_y, sum_z) := sums in
          calibrate_loop acc (S k) n' (sum_x + x, sum_y + y, sum_z + z)
      end
  end.

(** Default of the [samples] parameter. *)
Definition calibrate_samples_default : Z := 100.

(** [calibrate(accelerometer, samples, delay)]; [range] of a non-positive
    integer is empty, and dividing by [samples = 0] raises. *)
Definition calibrate (acc : accelerometer) (samples : Z) : result (Q * Q * Q) :=
  '(sum_x, sum_y, sum_z) ← calibrate_loop acc 0 (Z.to_nat samples) (0, 0, 0);
  if (samples =? 0)%Z then Exc ZeroDivisionError
  else Ok (sum_x / inject_Z samples, sum_y / inject_Z samples, sum_z / inject_Z samples).

End AccelerometerFilter.

Import AccelerometerFilter.

(** Sum of a list of rationals and the arithmetic mean of its elements. *)
Definition Qsum (l : list Q) : Q := fold_right Qplus 0 l.
Definition mean (l : list Q) : Q := Qsum l / inject_Z (Z.of_nat (length l)).

(** The first [n] readings of a device, when they all succeed. *)
Fixpoint readings (acc : accelerometer) (k n : nat) : option (list (Q * Q * Q)) :=
  match n with
  | O => Some []
  | S n' =>
      match acc k, readings acc (S k) n' with
      | Some r, Some rs => Some (r :: rs)
      | _, _ => None
      end
  end.

(** ** direction_detection_v2.py: AccelerometerReader *)

Record AccelerometerReader : Type := mkReader {
  rd_alpha : Q;
  rd_confirm_samples : nat;
  rd_threshold : Q;
  x_filt : Q;
  y_filt : Q;
  z_filt : Q;
  _direction : string;
  _count : nat
}.

(** [AccelerometerReader.update()] on the next read of the sensor. *)
Definition reader_update (r : AccelerometerReader) (rd : reading)
  : result (AccelerometerReader * option string) :=
  match rd with
  | None => Exc OSError
  | Some (x_raw, y_raw, z_raw) =>
      let xf := rd_alpha r * x_raw + (1 - rd_alpha r) * x_filt r in
      let yf := rd_alpha r * y_raw + (1 - rd_alpha r) * y_filt r in
      let zf := rd_alpha r * z_raw + (1 - rd_alpha r) * z_filt r in
      let abs_x := Qabs xf in
      let abs_y := Qabs yf in
      let abs_z := Qabs zf in
      let '(dominant, value) :=
        if Qle_bool abs_y abs_x && Qle_bool abs_z abs_x then ("X"%string, xf)
        else if Qle_bool abs_x abs_y && Qle_bool abs_z abs_y then ("Y"%string, yf)
        else ("Z"%string, zf) in
      let new_direction :=
        if Qgtb value (rd_threshold r) then ("+" ++ dominant)%string
        else if Qltb value (- rd_threshold r) then ("-" ++ dominant)%string
        else "NONE"%string in
      let '(dir, cnt) :=
        if String.eqb new_direction (_direction r)
           && negb (String.eqb new_direction "NONE")
        then (_direction r, S (_count r))
        else (new_direction, 1%nat) in
      let r' := {| rd_alpha := rd_alpha r; rd_confirm_samples := rd_confirm_samples r;
                   rd_threshold := rd_threshold r;
                   x_filt := xf; y_filt := yf; z_filt := zf;
                   _direction := dir; _count := cnt |} in
      if negb (String.eqb dir "NONE") && (rd_confirm_samples r <=? cnt)%nat
      then Ok (r', Some dir)
      else Ok (r', None)
  end.

(** ** input_manager.py: state, ticks and the loop skeleton *)

(** The mutable fields of [InputManager].  The debouncers and the encoder
    are devices: what they report after an [update()] is part of the
    [Tick]. *)
Record InputManager : Type := mkInputManager {
  x_filtered : Q;
  y_filtered : Q;
  z_filtered : Q;
  baseline_x : Q;
  baseline_y : Q;
  baseline_z : Q;
  last_tap_time : option Q;
  directions_detected : gset string;
  _accel_reader : option AccelerometerReader
}.

(** What one loop iteration observes, in program order.  Each clock field
    is the value of [time.monotonic()] at one place of the iteration; a
    detector only looks at the places it has. *)
Record Tick : Type := mkTick {
  t_loop : Q;                 (* in a [while (now - start) < d] condition, before [update()] *)
  acceleration : reading;     (* [self.accelerometer.acceleration] inside [update()] *)
  left_value : bool;          (* [self.left_button.value]: [true] is released (pull-up) *)
  left_fell : bool;           (* [self.left_button.fell] *)
  right_value : bool;
  right_fell : bool;
  encoder_fell : bool;        (* [self.encoder_button.fell] *)
  tap : bool;                 (* [self.accelerometer.events["tap"]] *)
  t_now : Q;                  (* first clock read after [update()] *)
  t_left : Q;                 (* clock read after a left press in [navigate_choice] *)
  t_right : Q;                (* clock read after a right press in [navigate_choice] *)
  t_count : Q;                (* clock read for the countdown in [navigate_choice] *)
  t_timeout : Q               (* clock read of the timeout check *)
}.

(** The clock never runs backwards: within an iteration, from one iteration
    to the next, and since [start_time]. *)
Fixpoint clock_monotone (start : Q) (ticks : list Tick) : Prop :=
  match ticks with
  | [] => True
  | t :: ts =>
      start <= t_loop t /\ t_loop t <= t_now t /\ t_now t <= t_left t /\
      t_left t <= t_right t /\ t_right t <= t_count t /\ t_count t <= t_timeout t /\
      clock_monotone (t_timeout t) ts
  end.

(** How one iteration of a loop ends. *)
Inductive Outcome (S R : Type) : Type :=
| Continue (s : S)
| Return (s : S) (r : R)
| Raise (e : exn).
Arguments Continue {S R} s.
Arguments Return {S R} s r.
Arguments Raise {S R} e.

(** How a run over finitely many ticks ends. *)
Inductive Run (S R : Type) : Type :=
| Blocked (s : S)
| Returned (s : S) (r : R)
| Raised (e : exn).
Arguments Blocked {S R} s.
Arguments Returned {S R} s r.
Arguments Raised {S R} e.

(** [while True: body] *)
Fixpoint run_loop {S R : Type} (body : S -> Tick -> Outcome S R)
  (s : S) (ticks : list Tick) : Run S R :=
  match ticks with
  | [] => Blocked s
  | t :: ts =>
      match body s t with
      | Continue s' => run_loop body s' ts
      | Return s' r => Returned s' r
      | Raise e => Raised e
      end
  end.

(** The value a run returned, if it did. *)
Definition returned {S R : Type} (r : Run S R) : option R :=
  match r with
  | Returned _ v => Some v
  | _ => None
  end.

(** An exception met while computing an iteration's outcome ends it. *)
Definition escape {S R : Type} (m : result (Outcome S R)) : Outcome S R :=
  match m with
  | Ok o => o
  | Exc e => Raise e
  end.

(** [self.update()] followed by the rest of the iteration: an exception of
    [update] leaves the loop and the call. *)
Definition after_update {S R : Type} (r : result InputManager)
  (rest : InputManager -> Outcome S R) : Outcome S R :=
  match r with
  | Ok im' => rest im'
  | Exc e => Raise e
  end.

(** [update()]: the debouncers refresh (their values are in the tick) and
    the accelerometer is read and smoothed. *)
Definition update (im : InputManager) (t : Tick) : result InputManager :=
  match acceleration t with
  | None => Exc OSError
  | Some (x_raw, y_raw, z_raw) =>
      Ok {| x_filtered := ema_filter x_raw (x_filtered im) ACCEL_EMA_ALPHA;
            y_filtered := ema_filter y_raw (y_filtered im) ACCEL_EMA_ALPHA;
            z_filtered := ema_filter z_raw (z_filtered im) ACCEL_EMA_ALPHA;
            baseline_x := baseline_x im;
            baseline_y := baseline_y im;
            baseline_z := baseline_z im;
            last_tap_time := last_tap_time im;
            directions_detected := directions_detected im;
            _accel_reader := _accel_reader im |}
  end.

(** The timeout check shared by the detectors:
    [if timeout_s and (time.monotonic() - start_time) > timeout_s]. *)
Definition timed_out (timeout_s : option Q) (start_time : Q) (t : Tick) : bool :=
  truthy timeout_s && Qgtb (t_timeout t - start_time) (timeout_value timeout_s).

(** [str.lower()] on ASCII strings. *)
Definition lower_ascii (c : ascii) : ascii :=
  let n := nat_of_ascii c in
  if (65 <=? n)%nat && (n <=? 90)%nat then ascii_of_nat (n + 32) else c.

Fixpoint lower (s : string) : string :=
  match s with
  | EmptyString => EmptyString
  | String c s' => String (lower_ascii c) (lower s')
  end.

(** [set(a.lower() for a in axes)] *)
Definition axes_set_of (axes : list string) : gset string :=
  list_to_set (map lower axes).

(** ** both_buttons_held *)

Definition both_buttons_held_body (duration_s start_time : Q)
  (im : InputManager) (t : Tick) : Outcome InputManager bool :=
  if Qltb (t_loop t - start_time) duration_s then
    after_update (update im t) (fun im' =>
      if left_value t || right_value t then Return im' false
      else Continue im')
  else Return im true.

Definition both_buttons_held (duration_s start_time : Q)
  (im : InputManager) (ticks : list Tick) : Run InputManager bool :=
  run_loop (both_buttons_held_body duration_s start_time) im ticks.

(** ** detect_movement *)

Definition CONFIRM_THRESHOLD : nat := 5.

(** The locals of [detect_movement] that live across iterations. *)
Record MoveState : Type := mkMoveState {
  mv_im : InputManager;
  confirm_count : gmap string nat;
  detected : gset string
}.

(** One of the three per-axis blocks under [if required is not None]. *)
Definition confirm_axis (a : string) (diff : Q) (required : gset string)
  (st : gmap string nat * gset string) : gmap string nat * gset string :=
  let '(cc, det) := st in
  if bool_decide (a ∈ required) then
    if Qgtb diff MOTION_THRESHOLD then
      let cc' := <[a := S (cc !!! a)]> cc in
      if (CONFIRM_THRESHOLD <=? cc' !!! a)%nat
         && Qgtb diff (MOTION_THRESHOLD * 1.2)
         && negb (bool_decide (a ∈ det))
      then (cc', det ∪ {[a]})
      else (cc', det)
    else (<[a := O]> cc, det)
  else (cc, det).

(** [|filtered - baseline|] per axis, after the tick's [update()]. *)
Definition diffs (im : InputManager) : Q * Q * Q :=
  (Qabs (x_filtered im - baseline_x im),
   Qabs (y_filtered im - baseline_y im),
   Qabs (z_filtered im - baseline_z im)).

(** The three blocks in program order. *)
Definition confirm_tick (required : gset string) (d : Q * Q * Q)
  (st : gmap string nat * gset string) : gmap string nat * gset string :=
  let '(x_diff, y_diff, z_diff) := d in
  confirm_axis "z" z_diff required
    (confirm_axis "y" y_diff required
       (confirm_axis "x" x_diff required st)).

(** [required]: [None] unless [require_axes] is a non-empty list. *)
Definition required_of (require_axes : option (list string)) : option (gset string) :=
  match require_axes with
  | None => None
  | Some [] => None
  | Some l => Some (axes_set_of l)
  end.

(** The iteration of [detect_movement] after its [update()]. *)
Definition detect_movement_checks (timeout_s : option Q)
  (required : option (gset string)) (start_time : Q)
  (s : MoveState) (t : Tick) (im' : InputManager) : Outcome MoveState bool :=
  let '(x_diff, y_diff, z_diff) := diffs im' in
  match required with
  | Some req =>
      let '(cc, det) :=
        confirm_tick req (x_diff, y_diff, z_diff) (confirm_count s, detected s) in
      let s' := {| mv_im := im'; confirm_count := cc; detected := det |} in
      if bool_decide (req ⊆ det) then Return s' true
      else if timed_out timeout_s start_time t then Return s' false
      else Continue s'
  | None =>
      let s' := {| mv_im := im'; confirm_count := confirm_count s;
                   detected := detected s |} in
      if Qgtb x_diff MOTION_THRESHOLD || Qgtb y_diff MOTION_THRESHOLD
         || Qgtb z_diff MOTION_THRESHOLD
      then Return s' true
      else if timed_out timeout_s start_time t then Return s' false
      else Continue s'
  end.

Definition detect_movement_body (timeout_s : option Q)
  (required : option (gset string)) (start_time : Q)
  (s : MoveState) (t : Tick) : Outcome MoveState bool :=
  after_update (update (mv_im s) t)
    (detect_movement_checks timeout_s required start_time s t).

Definition confirm_count_init : gmap string nat :=
  <["z" := O]> (<["y" := O]> (<["x" := O]> ∅)).

Definition detect_movement (timeout_s : option Q)
  (require_axes : option (list string)) (start_time : Q)
  (im : InputManager) (ticks : list Tick) : Run MoveState bool :=
  run_loop (detect_movement_body timeout_s (required_of require_axes) start_time)
    {| mv_im := im; confirm_count := confirm_count_init; detected := ∅ |} ticks.

(** ** detect_tilt_forward *)

Definition detect_tilt_forward_body (timeout_s : option Q) (start_time : Q)
  (im : InputManager) (t : Tick) : Outcome InputManager bool :=
  after_update (update im t) (fun im' =>
    if Qgtb (y_filtered im') TILT_THRESHOLD then Return im' true
    else if timed_out timeout_s start_time t then Return im' false
    else Continue im').

Definition detect_tilt_forward (timeout_s : option Q) (start_time : Q)
  (im : InputManager) (ticks : list Tick) : Run InputManager bool :=
  run_loop (detect_tilt_forward_body timeout_s start_time) im ticks.

(** ** detect_all_six_directions *)

Definition set_directions (im : InputManager) (d : gset string) : InputManager :=
  {| x_filtered := x_filtered im; y_filtered := y_filtered im;
     z_filtered := z_filtered im;
     baseline_x := baseline_x im; baseline_y := baseline_y im;
     baseline_z := baseline_z im;
     last_tap_time := last_tap_time im;
     directions_detected := d;
     _accel_reader := _accel_reader im |}.

(** [if cond: s.add(tok)] *)
Definition add_if (cond : bool) (tok : string) (s : gset string) : gset string :=
  if cond then s ∪ {[tok]} else s.

(** The six polarity tests of one iteration, on the state left by
    [update()]. *)
Definition crossings (axes_set : gset string) (im : InputManager)
  (d : gset string) : gset string :=
  let d1 :=
    if bool_decide ("x" ∈ axes_set) then
      add_if (Qltb (x_filtered im) (- TILT_THRESHOLD)) "-X"
        (add_if (Qgtb (x_filtered im) TILT_THRESHOLD) "+X" d)
    else d in
  let d2 :=
    if bool_decide ("y" ∈ axes_set) then
      add_if (Qltb (y_filtered im) (- TILT_THRESHOLD)) "-Y"
        (add_if (Qgtb (y_filtered im) TILT_THRESHOLD) "+Y" d1)
    else d1 in
  if bool_decide ("z" ∈ axes_set) then
    add_if (Qltb (z_filtered im - baseline_z im) (- TILT_THRESHOLD)) "-Z"
      (add_if (Qgtb (z_filtered im - baseline_z im) TILT_THRESHOLD) "+Z" d2)
  else d2.

(** The iteration of [detect_all_six_directions] after its [update()]. *)
Definition detect_all_six_directions_checks (timeout_s : option Q)
  (axes_set : gset string) (required_count : nat) (start_time : Q)
  (t : Tick) (im' : InputManager) : Outcome InputManager bool :=
  let im'' := set_directions im' (crossings axes_set im' (directions_detected im')) in
  if (required_count <=? size (directions_detected im''))%nat
  then Return im'' true
  else if timed_out timeout_s start_time t then Return im'' false
  else Continue im''.

Definition detect_all_six_directions_body (timeout_s : option Q)
  (axes_set : gset string) (required_count : nat) (start_time : Q)
  (im : InputManager) (t : Tick) : Outcome InputManager bool :=
  after_update (update im t)
    (detect_all_six_directions_checks timeout_s axes_set required_count start_time t).

(** Default of the [axes] parameter. *)
Definition axes_default : list string := ["x"; "y"; "z"]%string.

Definition detect_all_six_directions (timeout_s : option Q) (axes : list string)
  (start_time : Q) (im : InputManager) (ticks : list Tick)
  : Run InputManager bool :=
  let axes_set := axes_set_of axes in
  let required_count := (size axes_set * 2)%nat in
  run_loop (detect_all_six_directions_body timeout_s axes_set required_count start_time)
    (set_directions im ∅) ticks.

(** ** detect_double_tap *)

Definition set_last_tap (im : InputManager) (l : option Q) : InputManager :=
  {| x_filtered := x_filtered im; y_filtered := y_filtered im;
     z_filtered := z_filtered im;
     baseline_x := baseline_x im; baseline_y := baseline_y im;
     baseline_z := baseline_z im;
     last_tap_time := l;
     directions_detected := directions_detected im;
     _accel_reader := _accel_reader im |}.

(** [last is not None and (now - last) <= window] *)
Definition within_window (last : option Q) (now window : Q) : bool :=
  match last with
  | None => false
  | Some l => Qle_bool (now - l) window
  end.

Definition detect_double_tap_body (timeout_s : option Q) (start_time : Q)
  (im : InputManager) (t : Tick) : Outcome InputManager bool :=
  after_update (update im t) (fun im' =>
    if tap t && within_window (last_tap_time im') (t_now t) DOUBLE_TAP_WINDOW
    then Return (set_last_tap im' None) true
    else
      let im'' := if tap t then set_last_tap im' (Some (t_now t)) else im' in
      if timed_out timeout_s start_time t then Return im'' false
      else Continue im'').

Definition detect_double_tap (timeout_s : option Q) (start_time : Q)
  (im : InputManager) (ticks : list Tick) : Run InputManager bool :=
  run_loop (detect_double_tap_body timeout_s start_time) (set_last_tap im None) ticks.

(** ** detect_double_click_button *)

Definition DOUBLE_CLICK_WINDOW : Q := 0.5.

Record ClickState : Type := mkClickState {
  ck_im : InputManager;
  last_left_click : option Q;
  last_right_click : option Q
}.

(** The iteration of [detect_double_click_button] after its [update()]. *)
Definition detect_double_click_button_checks (timeout_s : option Q) (start_time : Q)
  (s : ClickState) (t : Tick) (im' : InputManager) : Outcome ClickState bool :=
  let now := t_now t in
  if left_fell t && within_window (last_left_click s) now DOUBLE_CLICK_WINDOW
  then Return {| ck_im := im'; last_left_click := last_left_click s;
                 last_right_click := last_right_click s |} true
  else
    let ll := if left_fell t then Some now else last_left_click s in
    if right_fell t && within_window (last_right_click s) now DOUBLE_CLICK_WINDOW
    then Return {| ck_im := im'; last_left_click := ll;
                   last_right_click := last_right_click s |} true
    else
      let lr := if right_fell t then Some now else last_right_click s in
      let s' := {| ck_im := im'; last_left_click := ll; last_right_click := lr |} in
      if timed_out timeout_s start_time t then Return s' false
      else Continue s'.

Definition detect_double_click_button_body (timeout_s : option Q) (start_time : Q)
  (s : ClickState) (t : Tick) : Outcome ClickState bool :=
  after_update (update (ck_im s) t)
    (detect_double_click_button_checks timeout_s start_time s t).

Definition detect_double_click_button (timeout_s : option Q) (start_time : Q)
  (im : InputManager) (ticks : list Tick) : Run ClickState bool :=
  run_loop (detect_double_click_button_body timeout_s start_time)
    {| ck_im := im; last_left_click := None; last_right_click := None |} ticks.

(** ** navigate_choice *)

(** [choices[i]] with Python's negative indices. *)
Definition choice_at (choices : list string) (i : Z) : result string :=
  let n := Z.of_nat (length choices) in
  let j := if (i <? 0)%Z then (i + n)%Z else i in
  if (0 <=? j)%Z && (j <? n)%Z then
    match nth_error choices (Z.to_nat j) with
    | Some c => Ok c
    | None => Exc IndexError
    end
  else Exc IndexError.

(** [a % n] on integers: the result has the sign of [n]. *)
Definition py_mod (a n : Z) : result Z :=
  if (n =? 0)%Z then Exc ZeroDivisionError else Ok (a mod n)%Z.

(** The locals of [navigate_choice]; [shown] is the trace of
    [display_callback(choice_text, countdown)] calls, oldest first. *)
Record NavState : Type := mkNavState {
  nv_im : InputManager;
  current_index : Z;
  last_countdown : Q;
  shown : list (string * Q)
}.

(** [remaining = int(timeout_s - (time.monotonic() - start_time))] *)
Definition remaining_at (timeout_s start_time now : Q) : Z :=
  py_int (timeout_s - (now - start_time)).

(** A press of a navigation button: move the index by [delta] and redraw. *)
Definition press (choices : list string) (timeout_s start_time now : Q)
  (delta : Z) (idx : Z) (sh : list (string * Q)) : result (Z * list (string * Q)) :=
  idx' ← py_mod (idx + delta) (Z.of_nat (length choices));
  c ← choice_at choices idx';
  mret (idx', sh ++ [(c, inject_Z (remaining_at timeout_s start_time now))]).

(** The iteration of [navigate_choice] after its [update()]. *)
Definition navigate_choice_checks (choices : list string) (timeout_s start_time : Q)
  (s : NavState) (t : Tick) (im' : InputManager) : Outcome NavState Z :=
  escape (
    '(i1, sh1) ← (if left_fell t
                  then press choices timeout_s start_time (t_left t) (-1) (current_index s) (shown s)
                  else mret (current_index s, shown s));
    '(i2, sh2) ← (if right_fell t
                  then press choices timeout_s start_time (t_right t) 1 i1 sh1
                  else mret (i1, sh1));
    if encoder_fell t
    then mret (Return {| nv_im := im'; current_index := i2;
                         last_countdown := last_countdown s; shown := sh2 |} i2)
    else
      let remaining := inject_Z (remaining_at timeout_s start_time (t_count t)) in
      '(lc, sh3) ← (if Qltb remaining (last_countdown s)
                    then c ← choice_at choices i2; mret (remaining, sh2 ++ [(c, remaining)])
                    else mret (last_countdown s, sh2));
      let s' := {| nv_im := im'; current_index := i2; last_countdown := lc; shown := sh3 |} in
      if Qgtb (t_timeout t - start_time) timeout_s then mret (Return s' (-1)%Z)
      else mret (Continue s')).

Definition navigate_choice_body (choices : list string) (timeout_s start_time : Q)
  (s : NavState) (t : Tick) : Outcome NavState Z :=
  after_update (update (nv_im s) t)
    (navigate_choice_checks choices timeout_s start_time s t).

Definition navigate_choice (choices : list string) (timeout_s start_time : Q)
  (im : InputManager) (ticks : list Tick) : Run NavState Z :=
  match choice_at choices 0 with
  | Exc e => Raised e
  | Ok c =>
      run_loop (navigate_choice_body choices timeout_s start_time)
        {| nv_im := im; current_index := 0; last_countdown := timeout_s;
           shown := [(c, timeout_s)] |} ticks
  end.

(** ** get_direction *)

Definition set_reader (im : InputManager) (r : option AccelerometerReader)
  : InputManager :=
  {| x_filtered := x_filtered im; y_filtered := y_filtered im;
     z_filtered := z_filtered im;
     baseline_x := baseline_x im; baseline_y := baseline_y im;
     baseline_z := baseline_z im;
     last_tap_time := last_tap_time im;
     directions_detected := directions_detected im;
     _accel_reader := r |}.

(** [get_direction()]: the reader's [update()] under [try ... except
    Exception: return None]. *)
Definition get_direction (im : InputManager) (rd : reading)
  : InputManager * option string :=
  match _accel_reader im with
  | None => (im, None)
  | Some r =>
      match reader_update r rd with
      | Ok (r', d) => (set_reader im (Some r'), d)
      | Exc _ => (im, None)
      end
  end.

(** ** Sample inputs *)

(** A manager at rest: filter and baseline at the origin. *)
Definition im_rest : InputManager :=
  {| x_filtered := 0; y_filtered := 0; z_filtered := 0;
     baseline_x := 0; baseline_y := 0; baseline_z := 0;
     last_tap_time := None; directions_detected := ∅;
     _accel_reader := None |}.

(** An iteration at clock value [now] with the given reading, nothing
    pressed (both levels released) and no edge. *)
Definition tick_at (now : Q) (rd : reading) : Tick :=
  {| t_loop := now; acceleration := rd;
     left_value := true; left_fell := false;
     right_value := true; right_fell := false;
     encoder_fell := false; tap := false;
     t_now := now; t_left := now; t_right := now; t_count := now;
     t_timeout := now |}.

(** The same with button activity: levels [lv], [rv] and edges [lf], [rf],
    [ef]. *)
Definition tick_buttons (now : Q) (lv lf rv rf ef : bool) : Tick :=
  {| t_loop := now; acceleration := Some (0, 0, 0);
     left_value := lv; left_fell := lf;
     right_value := rv; right_fell := rf;
     encoder_fell := ef; tap := false;
     t_now := now; t_left := now; t_right := now; t_count := now;
     t_timeout := now |}.

(** Components of a reading. *)
Definition comp_x (r : Q * Q * Q) : Q := fst (fst r).
Definition comp_y (r : Q * Q * Q) : Q := snd (fst r).
Definition comp_z (r : Q * Q * Q) : Q := snd r.

(** A device that always reads the same triple. *)
Definition steady (r : Q * Q * Q) : accelerometer := fun _ => Some r.

(** ** Predicates used in the statements *)

(** During the hold: the loop condition holds, the read succeeds and both
    debounced levels read pressed. *)
Definition held_tick (duration_s start_time : Q) (t : Tick) : Prop :=
  t_loop t - start_time < duration_s /\
  acceleration t <> None /\
  left_value t = false /\ right_value t = false.

(** The tick [t] with its accelerometer read failing. *)
Definition failed_read (t : Tick) : Tick :=
  {| t_loop := t_loop t; acceleration := None;
     left_value := left_value t; left_fell := left_fell t;
     right_value := right_value t; right_fell := right_fell t;
     encoder_fell := encoder_fell t; tap := tap t;
     t_now := t_now t; t_left := t_left t; t_right := t_right t;
     t_count := t_count t; t_timeout := t_timeout t |}.

(** The four tokens of the axes [x] and [y]. *)
Definition four_directions : gset string :=
  {[ "+X"; "-X"; "+Y"; "-Y" ]}%string.

(** A sample run for [detect_all_six_directions] with [axes=['x','y']]:
    three of the four tilts, then the clock passes a 3 s timeout. *)
Definition three_tilts : list Tick :=
  [tick_at 0.5 (Some (10, 0, 0));
   tick_at 1 (Some (-20, 0, 0));
   tick_at 1.5 (Some (0, 10, 0));
   tick_at 4 (Some (0, 0, 0))].

(** All four tilts of the axes [x] and [y]. *)
Definition four_tilts : list Tick :=
  [tick_at 0.5 (Some (10, 0, 0));
   tick_at 1 (Some (-20, 0, 0));
   tick_at 1.5 (Some (0, 10, 0));
   tick_at 2 (Some (0, -20, 0))].

(** Tick [j] is a click on the same button as the earlier tick [i], at most
    [DOUBLE_CLICK_WINDOW] after it. *)
Definition double_click_at (ticks : list Tick) (i j : nat) : Prop :=
  exists ti tj,
    (i < j)%nat /\ ticks !! i = Some ti /\ ticks !! j = Some tj /\
    ((left_fell ti = true /\ left_fell tj = true) \/
     (right_fell ti = true /\ right_fell tj = true)) /\
    t_now tj - t_now ti <= DOUBLE_CLICK_WINDOW.

(** The clock read after [update()] never decreases along the ticks. *)
Definition now_sorted (ticks : list Tick) : Prop :=
  forall i j ti tj, (i <= j)%nat ->
    ticks !! i = Some ti -> ticks !! j = Some tj -> t_now ti <= t_now tj.

(** The pending click of a button is the clock of an earlier click on that
    button. *)
Definition pending_sound (pre : list Tick) (s : ClickState) : Prop :=
  (forall l, last_left_click s = Some l ->
     exists i ti, pre !! i = Some ti /\ left_fell ti = true /\ t_now ti = l) /\
  (forall l, last_right_click s = Some l ->
     exists i ti, pre !! i = Some ti /\ right_fell ti = true /\ t_now ti = l).

(** Every click seen so far is covered by a pending click at least as
    recent. *)
Definition pending_recent (pre : list Tick) (s : ClickState) : Prop :=
  (forall i ti, pre !! i = Some ti -> left_fell ti = true ->
     exists l, last_left_click s = Some l /\ t_now ti <= l) /\
  (forall i ti, pre !! i = Some ti -> right_fell ti = true ->
     exists l, last_right_click s = Some l /\ t_now ti <= l).

(** A left click at 0.1 s and a right click at 0.2 s. *)
Definition left_then_right : list Tick :=
  [tick_buttons 0.1 false true true false false;
   tick_buttons 0.2 true false false true false].

(** Two left clicks 0.3 s apart. *)
Definition left_twice : list Tick :=
  [tick_buttons 0.1 false true true false false;
   tick_buttons 0.2 true false true false false;
   tick_buttons 0.4 false true true false false].

(** ** The reading of [navigate_choice] used in its statement *)

(** The index after the presses of one iteration: a left press steps down,
    a right press steps up, both modulo the number [n] of choices. *)
Definition index_after (n idx : Z) (t : Tick) : Z :=
  let i1 := if left_fell t then ((idx - 1) mod n)%Z else idx in
  if right_fell t then ((i1 + 1) mod n)%Z else i1.

(** The text of choice [i] (empty when out of range). *)
Definition choice_text (choices : list string) (i : Z) : string :=
  nth (Z.to_nat i) choices ""%string.

(** The countdown is redrawn when no commit happened and the integer
    countdown fell below the last one shown by the countdown branch. *)
Definition countdown_fell (timeout_s start_time : Q) (s : NavState) (t : Tick) : bool :=
  negb (encoder_fell t)
  && Qltb (inject_Z (remaining_at timeout_s start_time (t_count t))) (last_countdown s).

(** The display calls of one iteration: one per press, then one when the
    countdown fell. *)
Definition redraws (choices : list string) (timeout_s start_time : Q)
  (s : NavState) (t : Tick) : list (string * Q) :=
  let n := Z.of_nat (length choices) in
  let i1 := if left_fell t then ((current_index s - 1) mod n)%Z else current_index s in
  let i2 := index_after n (current_index s) t in
  (if left_fell t
   then [(choice_text choices i1, inject_Z (remaining_at timeout_s start_time (t_left t)))]
   else []) ++
  (if right_fell t
   then [(choice_text choices i2, inject_Z (remaining_at timeout_s start_time (t_right t)))]
   else []) ++
  (if countdown_fell timeout_s start_time s t
   then [(choice_text choices i2, inject_Z (remaining_at timeout_s start_time (t_count t)))]
   else []).

(** The state an iteration of [navigate_choice] leaves. *)
Definition nav_next (choices : list string) (timeout_s start_time : Q)
  (s : NavState) (t : Tick) (im' : InputManager) : NavState :=
  {| nv_im := im';
     current_index := index_after (Z.of_nat (length choices)) (current_index s) t;
     last_countdown :=
       if countdown_fell timeout_s start_time s t
       then inject_Z (remaining_at timeout_s start_time (t_count t))
       else last_countdown s;
     shown := shown s ++ redraws choices timeout_s start_time s t |}.

(** The example of the specification: three choices and a 5 s timeout. *)
Definition abc : list string := ["A"; "B"; "C"]%string.

(** One right press, one left press, then the encoder button. *)
Definition right_left_commit : list Tick :=
  [tick_buttons 0.1 true false false true false;
   tick_buttons 0.2 false true true false false;
   tick_buttons 0.3 true false true false true].

(** No input until the clock has passed 5 s. *)
Definition idle_until_timeout : list Tick :=
  [tick_buttons 1 true false true false false;
   tick_buttons 3 true false true false false;
   tick_buttons 5 true false true false false;
   tick_buttons 5.01 true false true false false].

(** ** The reading of the confirmation logic used in its statement *)

(** The three axes with a confirmation block. *)
Definition is_axis (a : string) : Prop :=
  a = "x"%string \/ a = "y"%string \/ a = "z"%string.

(** The diff of axis [a] in a triple of diffs. *)
Definition axis_diff (a : string) (d : Q * Q * Q) : Q :=
  if String.eqb a "x" then comp_x d
  else if String.eqb a "y" then comp_y d
  else comp_z d.

(** The filter state after the [update()] calls of [ticks]. *)
Fixpoint filter_after (im : InputManager) (ticks : list Tick) : result InputManager :=
  match ticks with
  | [] => Ok im
  | t :: ts =>
      match update im t with
      | Ok im' => filter_after im' ts
      | Exc e => Exc e
      end
  end.

(** The diffs [detect_movement] computes, one triple per tick, up to the
    first failing read. *)
Fixpoint diff_trace (im : InputManager) (ticks : list Tick) : list (Q * Q * Q) :=
  match ticks with
  | [] => []
  | t :: ts =>
      match update im t with
      | Ok im' => diffs im' :: diff_trace im' ts
      | Exc _ => []
      end
  end.

(** Counters and confirmed set after the diffs [ds], from a fresh call. *)
Definition confirm_run (req : gset string) (ds : list (Q * Q * Q))
  : gmap string nat * gset string :=
  fold_left (fun st d => confirm_tick req d st) ds (confirm_count_init, ∅).

(** The diff of axis [a] exceeds the per-tick threshold. *)
Definition exceeds (a : string) (d : Q * Q * Q) : Prop :=
  MOTION_THRESHOLD < axis_diff a d.

(** [ds] ends with [m] consecutive ticks above the threshold on axis [a]. *)
Definition streak (a : string) (ds : list (Q * Q * Q)) (m : nat) : Prop :=
  exists pre w, ds = pre ++ w /\ length w = m /\ Forall (exceeds a) w.

(** Five consecutive ticks above the threshold on axis [a], the fifth above
    1.2 times the threshold. *)
Definition confirming_window (a : string) (ds : list (Q * Q * Q)) : Prop :=
  exists pre d1 d2 d3 d4 d5 post,
    ds = pre ++ [d1; d2; d3; d4; d5] ++ post /\
    exceeds a d1 /\ exceeds a d2 /\ exceeds a d3 /\ exceeds a d4 /\ exceeds a d5 /\
    MOTION_THRESHOLD * 1.2 < axis_diff a d5.

(** A shake along x: six ticks with raw x = 2, then rest. *)
Definition shake_x : list Tick :=
  [tick_at 0.02 (Some (2, 0, 0)); tick_at 0.04 (Some (2, 0, 0));
   tick_at 0.06 (Some (2, 0, 0)); tick_at 0.08 (Some (2, 0, 0));
   tick_at 0.10 (Some (2, 0, 0))].

(** ** input_manager.py: the remaining loops *)

(** [wait_for_encoder_press()] *)
Definition wait_for_encoder_press_body (im : InputManager) (t : Tick)
  : Outcome InputManager unit :=
  after_update (update im t) (fun im' =>
    if encoder_fell t then Return im' tt else Continue im').

Definition wait_for_encoder_press (im : InputManager) (ticks : list Tick)
  : Run InputManager unit :=
  run_loop wait_for_encoder_press_body im ticks.

(** [detect_tilt_left(timeout_s)]: the clock is tested in the [while]
    condition, before [update()]. *)
Definition detect_tilt_left_body (timeout_s start_time : Q)
  (im : InputManager) (t : Tick) : Outcome InputManager bool :=
  if Qltb (t_loop t - start_time) timeout_s then
    after_update (update im t) (fun im' =>
      if Qltb (x_filtered im') (- TILT_THRESHOLD) then Return im' true
      else Continue im')
  else Return im false.

Definition detect_tilt_left (timeout_s start_time : Q)
  (im : InputManager) (ticks : list Tick) : Run InputManager bool :=
  run_loop (detect_tilt_left_body timeout_s start_time) im ticks.

(** [detect_tilt_forward_z(timeout_s)] *)
Definition detect_tilt_forward_z_body (timeout_s start_time : Q)
  (im : InputManager) (t : Tick) : Outcome InputManager bool :=
  if Qltb (t_loop t - start_time) timeout_s then
    after_update (update im t) (fun im' =>
      let z_diff := z_filtered im' - baseline_z im' in
      if Qgtb (Qabs z_diff) TILT_THRESHOLD then Return im' true
      else Continue im')
  else Return im false.

Definition detect_tilt_forward_z (timeout_s start_time : Q)
  (im : InputManager) (ticks : list Tick) : Run InputManager bool :=
  run_loop (detect_tilt_forward_z_body timeout_s start_time) im ticks.

(** [stay_still(duration_s)] *)
Definition stay_still_body (duration_s start_time : Q)
  (im : InputManager) (t : Tick) : Outcome InputManager bool :=
  if Qltb (t_loop t - start_time) duration_s then
    after_update (update im t) (fun im' =>
      let '(x_diff, y_diff, z_diff) := diffs im' in
      if Qgtb x_diff MOTION_THRESHOLD || Qgtb y_diff MOTION_THRESHOLD
         || Qgtb z_diff MOTION_THRESHOLD
      then Return im' false
      else Continue im')
  else Return im true.

Definition stay_still (duration_s start_time : Q)
  (im : InputManager) (ticks : list Tick) : Run InputManager bool :=
  run_loop (stay_still_body duration_s start_time) im ticks.

(** ** direction_detection_v2.py: construction and polling of the reader *)

(** [AccelerometerReader.__init__]: the first read seeds the filter. *)
Definition reader_init (alpha : Q) (confirm_samples : nat) (threshold : Q)
  (rd : reading) : result AccelerometerReader :=
  match rd with
  | None => Exc OSError
  | Some (x, y, z) =>
      Ok {| rd_alpha := alpha; rd_confirm_samples := confirm_samples;
            rd_threshold := threshold;
            x_filt := x; y_filt := y; z_filt := z;
            _direction := "NONE"; _count := 0 |}
  end.

(** [get_accel_reader(i2c)] with the defaults of the constructor. *)
Definition get_accel_reader (rd : reading) : result AccelerometerReader :=
  reader_init 0.3 3 1.2 rd.

(** Successive calls of [get_direction()], one per read. *)
Fixpoint poll_direction (im : InputManager) (rds : list reading)
  : InputManager * list (option string) :=
  match rds with
  | [] => (im, [])
  | rd :: rest =>
      let '(im', d) := get_direction im rd in
      let '(im'', ds) := poll_direction im' rest in
      (im'', d :: ds)
  end.

(** Successive [update()] calls of a reader on reads that succeed. *)
Fixpoint reader_run (r : AccelerometerReader) (samples : list (Q * Q * Q))
  : AccelerometerReader * list (option string) :=
  match samples with
  | [] => (r, [])
  | s :: rest =>
      match reader_update r (Some s) with
      | Ok (r', d) => let '(r'', ds) := reader_run r' rest in (r'', d :: ds)
      | Exc _ => (r, [])
      end
  end.

(** ** The reading of the reader used in its statements *)

(** The filtered triple after one more sample. *)
Definition reader_filter (r : AccelerometerReader) (s : Q * Q * Q) : Q * Q * Q :=
  let '(x_raw, y_raw, z_raw) := s in
  (rd_alpha r * x_raw + (1 - rd_alpha r) * x_filt r,
   rd_alpha r * y_raw + (1 - rd_alpha r) * y_filt r,
   rd_alpha r * z_raw + (1 - rd_alpha r) * z_filt r).

(** The dominant axis of a filtered triple and its value: the largest
    magnitude, X before Y before Z on ties. *)
Definition dominant_of (f : Q * Q * Q) : string * Q :=
  let '(xf, yf, zf) := f in
  if Qle_bool (Qabs yf) (Qabs xf) && Qle_bool (Qabs zf) (Qabs xf) then ("X"%string, xf)
  else if Qle_bool (Qabs xf) (Qabs yf) && Qle_bool (Qabs zf) (Qabs yf) then ("Y"%string, yf)
  else ("Z"%string, zf).

(** The direction a filtered triple is classified as. *)
Definition classify (threshold : Q) (f : Q * Q * Q) : string :=
  let '(dominant, value) := dominant_of f in
  if Qgtb value threshold then ("+" ++ dominant)%string
  else if Qltb value (- threshold) then ("-" ++ dominant)%string
  else "NONE"%string.

(** The classification of each sample along a run of the reader. *)
Fixpoint reader_trace (r : AccelerometerReader) (samples : list (Q * Q * Q))
  : list string :=
  match samples with
  | [] => []
  | s :: rest =>
      match reader_update r (Some s) with
      | Ok (r', _) => classify (rd_threshold r) (reader_filter r s) :: reader_trace r' rest
      | Exc _ => []
      end
  end.

(** [l] ends with [m] copies of [d]. *)
Definition ends_with_run (d : string) (l : list string) (m : nat) : Prop :=
  exists pre, l = pre ++ repeat d m.

(** The six direction tokens. *)
Definition six_directions : list string :=
  ["+X"; "-X"; "+Y"; "-Y"; "+Z"; "-Z"]%string.

(** ** Predicates on ticks used in the statements *)

(** Some axis of the filtered state is further than [MOTION_THRESHOLD] from
    its baseline. *)
Definition moved (im : InputManager) : Prop :=
  MOTION_THRESHOLD < Qabs (x_filtered im - baseline_x im) \/
  MOTION_THRESHOLD < Qabs (y_filtered im - baseline_y im) \/
  MOTION_THRESHOLD < Qabs (z_filtered im - baseline_z im).

(** Tick [j] carries a tap at most [DOUBLE_TAP_WINDOW] after the tap of the
    earlier tick [i]. *)
Definition double_tap_at (ticks : list Tick) (i j : nat) : Prop :=
  exists ti tj,
    (i < j)%nat /\ ticks !! i = Some ti /\ ticks !! j = Some tj /\
    tap ti = true /\ tap tj = true /\
    t_now tj - t_now ti <= DOUBLE_TAP_WINDOW.

(** Every tap seen so far is covered by a pending tap at least as recent,
    and the pending tap is the clock of an earlier tap. *)
Definition tap_pending (pre : list Tick) (im : InputManager) : Prop :=
  (forall l, last_tap_time im = Some l ->
     exists i ti, pre !! i = Some ti /\ tap ti = true /\ t_now ti = l) /\
  (now_sorted pre ->
   forall i ti, pre !! i = Some ti -> tap ti = true ->
     exists l, last_tap_time im = Some l /\ t_now ti <= l).

(** The tick's read succeeds and its raw sample satisfies [P]. *)
Definition tick_reads (P : Q * Q * Q -> Prop) (t : Tick) : Prop :=
  exists s, acceleration t = Some s /\ P s.

(** An iteration at clock value [now] on a device at rest, with a tap event
    when [tp] holds and the encoder button pressed when [ef] holds. *)
Definition tick_events (now : Q) (tp ef : bool) : Tick :=
  {| t_loop := now; acceleration := Some (0, 0, 0);
     left_value := true; left_fell := false;
     right_value := true; right_fell := false;
     encoder_fell := ef; tap := tp;
     t_now := now; t_left := now; t_right := now; t_count := now;
     t_timeout := now |}.

(** Two taps 0.3 s apart. *)
Definition tap_twice : list Tick :=
  [tick_events 0.1 true false; tick_events 0.2 false false;
   tick_events 0.4 true false].

(** Right presses minus left presses over a list of iterations. *)
Definition net_presses (ticks : list Tick) : Z :=
  fold_left (fun acc t =>
               (acc + (if right_fell t then 1 else 0)
                    - (if left_fell t then 1 else 0))%Z) ticks 0%Z.

(** Three right presses in a row. *)
Definition three_rights : list Tick :=
  [tick_buttons 0.1 true false false true false;
   tick_buttons 0.2 true false false true false;
   tick_buttons 0.3 true false false true false].

(** ** Inputs and readings used for the reader *)

(** A reader at rest with the constructor's defaults. *)
Definition reader_rest : AccelerometerReader :=
  {| rd_alpha := 0.3; rd_confirm_samples := 3; rd_threshold := 1.2;
     x_filt := 0; y_filt := 0; z_filt := 0;
     _direction := "NONE"; _count := 0 |}.

(** The filtered triple of a reader. *)
Definition reader_filtered (r : AccelerometerReader) : Q * Q * Q :=
  (x_filt r, y_filt r, z_filt r).

(** The reader after a run of successful reads. *)
Definition reader_after (r : AccelerometerReader) (samples : list (Q * Q * Q))
  : AccelerometerReader :=
  fst (reader_run r samples).

(** The reads that succeeded, in order. *)
Definition successes (rds : list reading) : list (Q * Q * Q) :=
  omap id rds.

(** The outputs [ds] of the successful reads put back at their positions,
    with [None] at each failed read. *)
Fixpoint interleave (rds : list reading) (ds : list (option string))
  : list (option string) :=
  match rds with
  | [] => []
  | None :: rest => None :: interleave rest ds
  | Some _ :: rest =>
      match ds with
      | d :: ds' => d :: interleave rest ds'
      | [] => []
      end
  end.

(** A reader that has classified its last two samples as ["+X"]. *)
Definition reader_tilted : AccelerometerReader :=
  {| rd_alpha := 0.3; rd_confirm_samples := 3; rd_threshold := 1.2;
     x_filt := 2; y_filt := 0; z_filt := 0;
     _direction := "+X"; _count := 2 |}.

(** Four samples of a tilt along +X. *)
Definition four_tilts_x : list (Q * Q * Q) :=
  [(2, 0, 0); (2, 0, 0); (2, 0, 0); (2, 0, 0)].

(** Reads of a tilt along +X with two failed reads in between. *)
Definition tilts_with_failures : list reading :=
  [Some (2, 0, 0); None; Some (2, 0, 0); Some (2, 0, 0); None;
   Some (2, 0, 0); Some (2, 0, 0)].

(** The manager at rest, with a reader at rest attached. *)
Definition im_with_reader : InputManager :=
  set_reader im_rest (Some reader_rest).

(** ** Reading used for the return of detect_movement with required axes *)

(** Over [ticks] nothing has ended the call yet: at no tick did the
    confirmed set contain the required set, and no timeout check fired. *)
Definition undecided (timeout_s : option Q) (req : gset string) (start_time : Q)
  (im : InputManager) (ticks : list Tick) : Prop :=
  forall pre t post, ticks = pre ++ t :: post ->
    ~ req ⊆ snd (confirm_run req (diff_trace im (pre ++ [t]))) /\
    timed_out timeout_s start_time t = false.

(** ** Readings used for detect_all_six_directions with any [axes] *)

(** The axes that have a polarity test. *)
Definition xyz : gset string := {[ "x"; "y"; "z" ]}%string.

(** Both tokens of every requested axis that has a polarity test. *)
Definition tokens_of (axes_set : gset string) : gset string :=
  (if bool_decide ("x"%string ∈ axes_set) then {[ "+X"; "-X" ]}%string else ∅) ∪
  (if bool_decide ("y"%string ∈ axes_set) then {[ "+Y"; "-Y" ]}%string else ∅) ∪
  (if bool_decide ("z"%string ∈ axes_set) then {[ "+Z"; "-Z" ]}%string else ∅).

(** Tilts to both sides of all three axes (the baseline of Z is 0). *)
Definition six_tilts : list Tick :=
  [tick_at 0.5 (Some (10, 0, 0));
   tick_at 1 (Some (-20, 0, 0));
   tick_at 1.5 (Some (0, 30, 0));
   tick_at 2 (Some (0, -60, 0));
   tick_at 2.5 (Some (0, 0, 100));
   tick_at 3 (Some (0, 0, -200))].

(** * The filter arithmetic over binary64 floats

    The definitions above read the sensor arithmetic over exact rationals.
    Where a statement depends on what the floating-point operations return
    (the smoothing of [update()], the sums of [calibrate]), the code is
    embedded here over IEEE 754 binary64 values, with the primitive
    operations of [PrimFloat]: each [+], [-], [*], [/] rounds to nearest
    even, and a comparison with a NaN is false, as in Python.  Clock values
    stay rationals: the code only subtracts and compares them. *)

Module F64.

(** The exact value of a finite float (0 for infinities and NaN). *)
Definition to_Q (f : float) : Q :=
  match Prim2SF f with
  | S754_finite s m e =>
      (if s then -1 else 1) * inject_Z (Zpos m) * Qpower 2 e
  | _ => 0
  end.

(** [float(n)] for an [int]: the nearest float. *)
Definition of_Z (z : Z) : float := SF2Prim (binary_normalize prec emax z 0 false).

(** [a > b] on floats. *)
Definition gtb (a b : float) : bool := PrimFloat.ltb b a.

(** ** utils/constants.py *)

Definition ACCEL_EMA_ALPHA : float := 0.3%float.
Definition MOTION_THRESHOLD : float := 0.30%float.

(** ** The accelerometer *)

Definition reading : Type := option (float * float * float).
Definition accelerometer : Type := nat -> reading.

(** ** utils/filters.py *)

(** [ema_filter(raw, filtered, alpha)] *)
Definition ema_filter (raw filtered alpha : float) : float :=
  (alpha * raw + (1 - alpha) * filtered)%float.


(** The [for _ in range(samples)] loop of [calibrate]: [n] iterations left,
    the next read is number [k], the running sums are [sums]. *)
Fixpoint calibrate_loop (acc : accelerometer) (k n : nat)
  (sums : float * float * float) : result (float * float * float) :=
  match n with
  | O => Ok sums
  | S n' =>
      match acc k with
      | None => Exc OSError
      | Some (x, y, z) =>
          let '(sum_x, sum_y, sum_z) := sums in
          calibrate_loop acc (S k) n' (sum_x + x, sum_y + y, sum_z + z)%float
      end
  end.

(** [calibrate(accelerometer, samples, delay)]: the sums start at [0.0];
    dividing by [samples = 0] raises. *)
Definition calibrate (acc : accelerometer) (samples : Z)
  : result (float * float * float) :=
  '(sum_x, sum_y, sum_z) ← calibrate_loop acc 0 (Z.to_nat samples) (0, 0, 0)%float;
  if (samples =? 0)%Z then Exc ZeroDivisionError
  else Ok (sum_x / of_Z samples, sum_y / of_Z samples, sum_z / of_Z samples)%float.

(** ** input_manager.py: the accelerometer fields, [update] and
    [detect_movement] *)

(** The fields of [InputManager] that [update()] and [detect_movement]
    read or write. *)
Record InputManager : Type := mkInputManager {
  x_filtered : float;
  y_filtered : float;
  z_filtered : float;
  baseline_x : float;
  baseline_y : float;
  baseline_z : float
}.

(** What one iteration of [detect_movement] observes: the read inside
    [update()] and the clock of the timeout check. *)
Record Tick : Type := mkTick {
  acceleration : reading;
  t_timeout : Q
}.

(** [while True: body] *)
Fixpoint run_loop {S R : Type} (body : S -> Tick -> Outcome S R)
  (s : S) (ticks : list Tick) : Run S R :=
  match ticks with
  | [] => Blocked s
  | t :: ts =>
      match body s t with
      | Continue s' => run_loop body s' ts
      | Return s' r => Returned s' r
      | Raise e => Raised e
      end
  end.

(** [update()] *)
Definition update (im : InputManager) (t : Tick) : result InputManager :=
  match acceleration t with
  | None => Exc OSError
  | Some (x_raw, y_raw, z_raw) =>
      Ok {| x_filtered := ema_filter x_raw (x_filtered im) ACCEL_EMA_ALPHA;
            y_filtered := ema_filter y_raw (y_filtered im) ACCEL_EMA_ALPHA;
            z_filtered := ema_filter z_raw (z_filtered im) ACCEL_EMA_ALPHA;
            baseline_x := baseline_x im;
            baseline_y := baseline_y im;
            baseline_z := baseline_z im |}
  end.

(** [if timeout_s and (time.monotonic() - start_time) > timeout_s] *)
Definition timed_out (timeout_s : option Q) (start_time : Q) (t : Tick) : bool :=
  truthy timeout_s && Qgtb (t_timeout t - start_time) (timeout_value timeout_s).

(** The locals of [detect_movement] that live across iterations. *)
Record MoveState : Type := mkMoveState {
  mv_im : InputManager;
  confirm_count : gmap string nat;
  detected : gset string
}.

(** One of the three per-axis blocks under [if required is not None]. *)
Definition confirm_axis (a : string) (diff : float) (required : gset string)
  (st : gmap string nat * gset string) : gmap string nat * gset string :=
  let '(cc, det) := st in
  if bool_decide (a ∈ required) then
    if gtb diff MOTION_THRESHOLD then
      let cc' := <[a := S (cc !!! a)]> cc in
      if (CONFIRM_THRESHOLD <=? cc' !!! a)%nat
         && gtb diff (MOTION_THRESHOLD * 1.2)%float
         && negb (bool_decide (a ∈ det))
      then (cc', det ∪ {[a]})
      else (cc', det)
    else (<[a := O]> cc, det)
  else (cc, det).

(** [abs(filtered - baseline)] per axis, after the tick's [update()]. *)
Definition diffs (im : InputManager) : float * float * float :=
  (PrimFloat.abs (x_filtered im - baseline_x im),
   PrimFloat.abs (y_filtered im - baseline_y im),
   PrimFloat.abs (z_filtered im - baseline_z im))%float.

(** The three blocks in program order. *)
Definition confirm_tick (required : gset string) (d : float * float * float)
  (st : gmap string nat * gset string) : gmap string nat * gset string :=
  let '(x_diff, y_diff, z_diff) := d in
  confirm_axis "z" z_diff required
    (confirm_axis "y" y_diff required
       (confirm_axis "x" x_diff required st)).

(** The iteration of [detect_movement] after its [update()]. *)
Definition detect_movement_checks (timeout_s : option Q)
  (required : option (gset string)) (start_time : Q)
  (s : MoveState) (t : Tick) (im' : InputManager) : Outcome MoveState bool :=
  let '(x_diff, y_diff, z_diff) := diffs im' in
  match required with
  | Some req =>
      let '(cc, det) :=
        confirm_tick req (x_diff, y_diff, z_diff) (confirm_count s, detected s) in
      let s' := {| mv_im := im'; confirm_count := cc; detected := det |} in
      if bool_decide (req ⊆ det) then Return s' true
      else if timed_out timeout_s start_time t then Return s' false
      else Continue s'
  | None =>
      let s' := {| mv_im := im'; confirm_count := confirm_count s;
                   detected := detected s |} in
      if gtb x_diff MOTION_THRESHOLD || gtb y_diff MOTION_THRESHOLD
         || gtb z_diff MOTION_THRESHOLD
      then Return s' true
      else if timed_out timeout_s start_time t then Return s' false
      else Continue s'
  end.

Definition detect_movement_body (timeout_s : option Q)
  (required : option (gset string)) (start_time : Q)
  (s : MoveState) (t : Tick) : Outcome MoveState bool :=
  match update (mv_im s) t with
  | Ok im' => detect_movement_checks timeout_s required start_time s t im'
  | Exc e => Raise e
  end.

Definition detect_movement (timeout_s : option Q)
  (require_axes : option (list string)) (start_time : Q)
  (im : InputManager) (ticks : list Tick) : Run MoveState bool :=
  run_loop (detect_movement_body timeout_s (required_of require_axes) start_time)
    {| mv_im := im; confirm_count := confirm_count_init; detected := ∅ |} ticks.

(** ** Readings used in the statements *)






(** Adding the elements of [l] to [s] one after the other never rounds. *)
Fixpoint exact_sums (s : float) (l : list float) : Prop :=
  match l with
  | [] => True
  | x :: rest =>
      PrimFloat.is_finite (s + x)%float = true /\
      to_Q (s + x)%float == to_Q s + to_Q x /\
      exact_sums (s + x)%float rest
  end.

(** Each addition of an element of [l] to the running sum, from [s], is
    finite and within [delta] of the exact sum of its two operands. *)
Fixpoint sums_within (delta : Q) (s : float) (l : list float) : Prop :=
  match l with
  | [] => True
  | x :: rest =>
      PrimFloat.is_finite (s + x)%float = true /\
      Qabs (to_Q (s + x)%float - (to_Q s + to_Q x)) <= delta /\
      sums_within delta (s + x)%float rest
  end.

(** The division of [a] by [float(n)] is finite and within [delta] of the
    exact quotient. *)
Definition div_within (delta : Q) (a : float) (n : Z) : Prop :=
  PrimFloat.is_finite (a / of_Z n)%float = true /\
  Qabs (to_Q (a / of_Z n)%float - to_Q a / inject_Z n) <= delta.

(** The division of [a] by [float(n)] does not round. *)
Definition exact_div (a : float) (n : Z) : Prop :=
  PrimFloat.is_finite (a / of_Z n)%float = true /\
  to_Q (a / of_Z n)%float == to_Q a / inject_Z n.

(** Components of a reading. *)
Definition comp_x (r : float * float * float) : float := fst (fst r).
Definition comp_y (r : float * float * float) : float := snd (fst r).
Definition comp_z (r : float * float * float) : float := snd r.

(** The float sum of a list, accumulated from [0.0] in list order. *)
Definition fsum (l : list float) : float :=
  fold_left PrimFloat.add l 0%float.

(** The first [n] readings of a device, when they all succeed. *)
Fixpoint readings (acc : accelerometer) (k n : nat)
  : option (list (float * float * float)) :=
  match n with
  | O => Some []
  | S n' =>
      match acc k, readings acc (S k) n' with
      | Some r, Some rs => Some (r :: rs)
      | _, _ => None
      end
  end.

(** ** Sample inputs *)


(** All values at 0. *)
Definition im_rest : InputManager :=
  {| x_filtered := 0; y_filtered := 0; z_filtered := 0;
     baseline_x := 0; baseline_y := 0; baseline_z := 0 |}%float.

Definition tick_at (now : Q) (r : reading) : Tick :=
  {| acceleration := r; t_timeout := now |}.

(** A device that always reads the same triple. *)
Definition steady (r : float * float * float) : accelerometer := fun _ => Some r.

(** A device that always reads 0.1 on each axis. *)
Definition steady_tenth : accelerometer :=
  fun _ => Some (0.1, 0.1, 0.1)%float.

End F64.

(** * Proofs *)

(** ** Boolean comparisons *)

Lemma Qgtb_true a b : Qgtb a b = true <-> b < a.
Proof.
  unfold Qgtb. rewrite negb_true_iff, <- not_true_iff_false, Qle_bool_iff.
  split; [apply Qnot_le_lt | apply Qlt_not_le].
Qed.

Lemma Qgtb_false a b : Qgtb a b = false <-> a <= b.
Proof.
  unfold Qgtb. rewrite negb_false_iff. apply Qle_bool_iff.
Qed.

Lemma Qltb_true a b : Qltb a b = true <-> a < b.
Proof. unfold Qltb. apply (Qgtb_true b a). Qed.

Lemma Qltb_false a b : Qltb a b = false <-> b <= a.
Proof. unfold Qltb. apply (Qgtb_false b a). Qed.

(** ** The EMA filter *)

Section Ema.

Variables alpha v : Q.


Hypothesis alpha_pos : 0 < alpha.
Hypothesis alpha_le1 : alpha <= 1.



End Ema.

(** ** The loop skeleton *)

Lemma run_loop_app {S R : Type} (body : S -> Tick -> Outcome S R) pre : forall s post,
  run_loop body s (pre ++ post) =
  match run_loop body s pre with
  | Blocked s' => run_loop body s' post
  | r => r
  end.
Proof.
  induction pre as [|t pre IH]; intros s post; simpl; [reflexivity|].
  destruct (body s t); auto.
Qed.

Lemma run_loop_ext {S R : Type} (b1 b2 : S -> Tick -> Outcome S R) :
  (forall s t, b1 s t = b2 s t) ->
  forall ticks s, run_loop b1 s ticks = run_loop b2 s ticks.
Proof.
  intros Hext ticks. induction ticks as [|t ts IH]; intros s; simpl; [reflexivity|].
  rewrite Hext. destruct (b2 s t); auto.
Qed.

(** A returned value was returned by some iteration. *)
Lemma run_loop_returned {S R : Type} (body : S -> Tick -> Outcome S R) ticks :
  forall s s' r,
  run_loop body s ticks = Returned s' r ->
  exists pre t post s0,
    ticks = pre ++ t :: post /\
    run_loop body s pre = Blocked s0 /\
    body s0 t = Return s' r.
Proof.
  induction ticks as [|t ts IH]; intros s s' r H; simpl in H; [discriminate|].
  destruct (body s t) as [s1|s1 r1|e] eqn:E.
  - destruct (IH _ _ _ H) as (pre & u & post & s0 & -> & Hpre & Hu).
    exists (t :: pre), u, post, s0. simpl. rewrite E. auto.
  - injection H as <- <-. exists [], t, ts, s. auto.
  - discriminate.
Qed.

Lemma update_ok im t x y z :
  acceleration t = Some (x, y, z) ->
  update im t =
  Ok {| x_filtered := ema_filter x (x_filtered im) ACCEL_EMA_ALPHA;
        y_filtered := ema_filter y (y_filtered im) ACCEL_EMA_ALPHA;
        z_filtered := ema_filter z (z_filtered im) ACCEL_EMA_ALPHA;
        baseline_x := baseline_x im;
        baseline_y := baseline_y im;
        baseline_z := baseline_z im;
        last_tap_time := last_tap_time im;
        directions_detected := directions_detected im;
        _accel_reader := _accel_reader im |}.
Proof. intros H. unfold update. rewrite H. reflexivity. Qed.

Lemma update_succeeds im t :
  acceleration t <> None -> exists im', update im t = Ok im'.
Proof.
  intros H. destruct (acceleration t) as [[[x y] z]|] eqn:E; [|congruence].
  eexists. apply (update_ok _ _ _ _ _ E).
Qed.

Lemma update_fails im t : acceleration t = None -> update im t = Exc OSError.
Proof. intros H. unfold update. rewrite H. reflexivity. Qed.

(** ** both_buttons_held *)

Lemma both_buttons_held_true duration_s start_time ticks : forall im s,
  both_buttons_held duration_s start_time im ticks = Returned s true ->
  exists pre t post,
    ticks = pre ++ t :: post /\
    Forall (held_tick duration_s start_time) pre /\
    duration_s <= t_loop t - start_time.
Proof.
  induction ticks as [|t ts IH]; intros im s H; [discriminate|].
  unfold both_buttons_held in H. simpl in H.
  unfold both_buttons_held_body in H.
  destruct (Qltb (t_loop t - start_time) duration_s) eqn:Hc.
  - destruct (acceleration t) as [[[x y] z]|] eqn:Ea.
    + rewrite (update_ok _ _ _ _ _ Ea) in H. unfold after_update in H.
      destruct (left_value t) eqn:El; [discriminate|].
      destruct (right_value t) eqn:Er; [discriminate|].
      cbn in H. apply IH in H. destruct H as (pre & u & post & -> & Hpre & Hu).
      exists (t :: pre), u, post. split; [reflexivity|]. split; [|exact Hu].
      constructor; [|exact Hpre].
      unfold held_tick. rewrite Ea. apply Qltb_true in Hc. repeat split; auto; discriminate.
    + rewrite (update_fails _ _ Ea) in H. discriminate.
  - exists [], t, ts. split; [reflexivity|]. split; [constructor|].
    apply Qltb_false in Hc. exact Hc.
Qed.

Lemma both_buttons_held_false duration_s start_time pre : forall im t post,
  Forall (held_tick duration_s start_time) pre ->
  t_loop t - start_time < duration_s ->
  acceleration t <> None ->
  left_value t || right_value t = true ->
  exists s, both_buttons_held duration_s start_time im (pre ++ t :: post)
            = Returned s false.
Proof.
  induction pre as [|u pre IH]; intros im t post Hpre Hc Ha Hrel.
  - unfold both_buttons_held. simpl. unfold both_buttons_held_body.
    apply Qltb_true in Hc. rewrite Hc.
    destruct (update_succeeds im t Ha) as [im' ->]. unfold after_update.
    rewrite Hrel. eauto.
  - inversion Hpre as [|? ? (Hu & Hua & Hl & Hr) Hrest]; subst.
    unfold both_buttons_held. simpl. unfold both_buttons_held_body at 1.
    apply Qltb_true in Hu. rewrite Hu.
    destruct (update_succeeds im u Hua) as [im' ->]. unfold after_update.
    rewrite Hl, Hr. simpl orb. cbv iota.
    apply (IH im' t post Hrest Hc Ha Hrel).
Qed.

(** C5: [both_buttons_held] returns [True] only if, at every iteration run
    while the duration had not elapsed, both debounced levels read pressed;
    it returns [False] at the first iteration where either level reads
    released, whatever the buttons do afterwards. *)
Theorem both_buttons_held_continuous (duration_s start_time : Q)
  (im : InputManager) (ticks : list Tick) :
  (forall s, both_buttons_held duration_s start_time im ticks = Returned s true ->
     exists pre t post,
       ticks = pre ++ t :: post /\
       Forall (held_tick duration_s start_time) pre /\
       duration_s <= t_loop t - start_time) /\
  (forall pre t post,
     ticks = pre ++ t :: post ->
     Forall (held_tick duration_s start_time) pre ->
     t_loop t - start_time < duration_s ->
     acceleration t <> None ->
     left_value t || right_value t = true ->
     exists s, both_buttons_held duration_s start_time im ticks = Returned s false).
Proof.
  split.
  - intros s H. eapply both_buttons_held_true, H.
  - intros pre t post -> Hpre Hc Ha Hrel.
    apply both_buttons_held_false; assumption.
Qed.

Lemma both_buttons_held_continuous_witness :
  exists s,
    both_buttons_held 1 0 im_rest
      [tick_buttons 0.1 false false false false false;
       tick_buttons 0.2 true false false false false;
       tick_buttons 0.3 false false false false false] = Returned s false.
Proof.
  apply (proj2 (both_buttons_held_continuous 1 0 im_rest _)
           [tick_buttons 0.1 false false false false false]
           (tick_buttons 0.2 true false false false false)
           [tick_buttons 0.3 false false false false false]).
  - reflexivity.
  - constructor; [|constructor].
    unfold held_tick; simpl. repeat split; try reflexivity; discriminate.
  - reflexivity.
  - discriminate.
  - reflexivity.
Defined.

(** ** Required axes and the timeout check *)

Lemma axes_set_of_nonempty a l : axes_set_of (a :: l) ≠ ∅.
Proof. unfold axes_set_of. simpl. set_solver. Qed.

Lemma required_of_nonempty ra req : required_of ra = Some req -> req ≠ ∅.
Proof.
  destruct ra as [[|a l]|]; simpl; try discriminate.
  intros [= <-]. apply axes_set_of_nonempty.
Qed.

Lemma timed_out_truthy timeout_s start_time t :
  truthy timeout_s = true ->
  timeout_value timeout_s < t_timeout t - start_time ->
  timed_out timeout_s start_time t = true.
Proof.
  intros Htr Hlt. unfold timed_out. rewrite Htr. simpl.
  apply Qgtb_true. exact Hlt.
Qed.

(** ** Falsy timeouts *)

Lemma timed_out_falsy timeout_s start_time t :
  truthy timeout_s = false -> timed_out timeout_s start_time t = false.
Proof. intros H. unfold timed_out. rewrite H. reflexivity. Qed.

Lemma timed_out_None start_time t : timed_out None start_time t = false.
Proof. reflexivity. Qed.

(** With a falsy timeout every detector iterates as with [None]. *)
Ltac same_body H :=
  intros; unfold after_update;
  repeat match goal with
         | |- context [update ?im ?t] => destruct (update im t); [|reflexivity]
         end;
  cbv beta zeta delta [detect_movement_checks detect_all_six_directions_checks
                       detect_double_click_button_checks];
  rewrite ?(timed_out_falsy _ _ _ H), ?timed_out_None; reflexivity.

Section Falsy.

Variable timeout_s : option Q.
Hypothesis falsy : truthy timeout_s = false.

Lemma detect_movement_body_falsy required start_time s t :
  detect_movement_body timeout_s required start_time s t =
  detect_movement_body None required start_time s t.
Proof. unfold detect_movement_body. same_body falsy. Qed.

Lemma detect_tilt_forward_body_falsy start_time s t :
  detect_tilt_forward_body timeout_s start_time s t =
  detect_tilt_forward_body None start_time s t.
Proof. unfold detect_tilt_forward_body. same_body falsy. Qed.

Lemma detect_all_six_directions_body_falsy axes_set n start_time s t :
  detect_all_six_directions_body timeout_s axes_set n start_time s t =
  detect_all_six_directions_body None axes_set n start_time s t.
Proof. unfold detect_all_six_directions_body. same_body falsy. Qed.

Lemma detect_double_tap_body_falsy start_time s t :
  detect_double_tap_body timeout_s start_time s t =
  detect_double_tap_body None start_time s t.
Proof. unfold detect_double_tap_body. same_body falsy. Qed.

Lemma detect_double_click_button_body_falsy start_time s t :
  detect_double_click_button_body timeout_s start_time s t =
  detect_double_click_button_body None start_time s t.
Proof. unfold detect_double_click_button_body. same_body falsy. Qed.

End Falsy.

(** A loop whose iterations never return [False] never returns [False]. *)
Lemma run_loop_never {S R : Type} (body : S -> Tick -> Outcome S R) (r : R) :
  (forall s t s', body s t <> Return s' r) ->
  forall ticks s, returned (run_loop body s ticks) <> Some r.
Proof.
  intros Hb ticks s H.
  destruct (run_loop body s ticks) as [s1|s1 r1|e] eqn:E; try discriminate.
  injection H as ->.
  destruct (run_loop_returned _ _ _ _ _ E) as (pre & t & post & s0 & _ & _ & Ht).
  exact (Hb _ _ _ Ht).
Qed.

Ltac no_false :=
  intros; unfold after_update;
  repeat match goal with
         | |- context [update ?im ?t] => destruct (update im t); [|discriminate]
         end;
  cbv beta zeta delta [detect_movement_checks detect_all_six_directions_checks
                       detect_double_click_button_checks];
  rewrite ?timed_out_None;
  repeat match goal with
         | |- (if ?c then _ else _) <> _ => destruct c
         | |- (let '(_, _) := ?p in _) <> _ => destruct p
         | |- match ?x with Some _ => _ | None => _ end <> _ => destruct x
         end;
  discriminate.

Lemma detect_movement_body_no_false required start_time s t s' :
  detect_movement_body None required start_time s t <> Return s' false.
Proof. unfold detect_movement_body. no_false. Qed.

Lemma detect_tilt_forward_body_no_false start_time s t s' :
  detect_tilt_forward_body None start_time s t <> Return s' false.
Proof. unfold detect_tilt_forward_body. no_false. Qed.

Lemma detect_all_six_directions_body_no_false axes_set n start_time s t s' :
  detect_all_six_directions_body None axes_set n start_time s t <> Return s' false.
Proof. unfold detect_all_six_directions_body. no_false. Qed.

Lemma detect_double_tap_body_no_false start_time s t s' :
  detect_double_tap_body None start_time s t <> Return s' false.
Proof. unfold detect_double_tap_body. no_false. Qed.

Lemma detect_double_click_button_body_no_false start_time s t s' :
  detect_double_click_button_body None start_time s t <> Return s' false.
Proof. unfold detect_double_click_button_body. no_false. Qed.

(** C10: a timeout of [0], or any falsy timeout, makes [detect_movement],
    [detect_tilt_forward], [detect_all_six_directions], [detect_double_tap]
    and [detect_double_click_button] run exactly as with [None], so they
    never return [False]; [both_buttons_held(0)] returns [True] at once,
    without an [update()] and whatever the buttons read. *)
Theorem falsy_timeout_is_none (timeout_s : option Q)
  (require_axes : option (list string)) (axes : list string)
  (start_time : Q) (im : InputManager) (ticks : list Tick) :
  truthy timeout_s = false ->
  (detect_movement timeout_s require_axes start_time im ticks
     = detect_movement None require_axes start_time im ticks /\
   detect_tilt_forward timeout_s start_time im ticks
     = detect_tilt_forward None start_time im ticks /\
   detect_all_six_directions timeout_s axes start_time im ticks
     = detect_all_six_directions None axes start_time im ticks /\
   detect_double_tap timeout_s start_time im ticks
     = detect_double_tap None start_time im ticks /\
   detect_double_click_button timeout_s start_time im ticks
     = detect_double_click_button None start_time im ticks) /\
  (returned (detect_movement timeout_s require_axes start_time im ticks) <> Some false /\
   returned (detect_tilt_forward timeout_s start_time im ticks) <> Some false /\
   returned (detect_all_six_directions timeout_s axes start_time im ticks) <> Some false /\
   returned (detect_double_tap timeout_s start_time im ticks) <> Some false /\
   returned (detect_double_click_button timeout_s start_time im ticks) <> Some false) /\
  truthy (Some 0) = false /\
  (forall t ts, start_time <= t_loop t ->
     both_buttons_held 0 start_time im (t :: ts) = Returned im true).
Proof.
  intros Hf.
  assert (E1 : detect_movement timeout_s require_axes start_time im ticks
               = detect_movement None require_axes start_time im ticks).
  { apply run_loop_ext. intros. apply detect_movement_body_falsy, Hf. }
  assert (E2 : detect_tilt_forward timeout_s start_time im ticks
               = detect_tilt_forward None start_time im ticks).
  { apply run_loop_ext. intros. apply detect_tilt_forward_body_falsy, Hf. }
  assert (E3 : detect_all_six_directions timeout_s axes start_time im ticks
               = detect_all_six_directions None axes start_time im ticks).
  { apply run_loop_ext. intros. apply detect_all_six_directions_body_falsy, Hf. }
  assert (E4 : detect_double_tap timeout_s start_time im ticks
               = detect_double_tap None start_time im ticks).
  { apply run_loop_ext. intros. apply detect_double_tap_body_falsy, Hf. }
  assert (E5 : detect_double_click_button timeout_s start_time im ticks
               = detect_double_click_button None start_time im ticks).
  { apply run_loop_ext. intros. apply detect_double_click_button_body_falsy, Hf. }
  split; [auto|]. split.
  - rewrite E1, E2, E3, E4, E5. repeat split; apply run_loop_never; intros.
    + apply detect_movement_body_no_false.
    + apply detect_tilt_forward_body_no_false.
    + apply detect_all_six_directions_body_no_false.
    + apply detect_double_tap_body_no_false.
    + apply detect_double_click_button_body_no_false.
  - split; [reflexivity|]. intros t ts Ht.
    unfold both_buttons_held. simpl. unfold both_buttons_held_body.
    assert (Hc : Qltb (t_loop t - start_time) 0 = false).
    { apply Qltb_false. lra. }
    rewrite Hc. reflexivity.
Qed.

Lemma falsy_timeout_is_none_witness :
  returned (detect_double_click_button (Some 0) 0 im_rest
              [tick_at 5 (Some (0, 0, 0))]) <> Some false /\
  both_buttons_held 0 0 im_rest [tick_at 0 None] = Returned im_rest true.
Proof.
  destruct (falsy_timeout_is_none (Some 0) None axes_default 0 im_rest
              [tick_at 5 (Some (0, 0, 0))] eq_refl)
    as (_ & (_ & _ & _ & _ & H) & _ & Hb).
  split; [exact H|]. apply Hb. simpl. discriminate.
Defined.

(** ** A failing accelerometer read *)

(** A read that fails while a detector is still looping ends the call with
    the exception, whatever happened before and whatever would follow. *)
Lemma run_loop_raise {S R : Type} (body : S -> Tick -> Outcome S R) pre t post s s0 e :
  run_loop body s pre = Blocked s0 ->
  body s0 t = Raise e ->
  run_loop body s (pre ++ t :: post) = Raised e.
Proof.
  intros Hpre Ht. rewrite run_loop_app, Hpre. simpl. rewrite Ht. reflexivity.
Qed.

Lemma detect_movement_read_failure timeout_s require_axes start_time im pre t post s0 :
  detect_movement timeout_s require_axes start_time im pre = Blocked s0 ->
  detect_movement timeout_s require_axes start_time im (pre ++ failed_read t :: post)
  = Raised OSError.
Proof.
  intros H. unfold detect_movement in *. eapply run_loop_raise; [exact H|].
  reflexivity.
Qed.

(** C7 (what the code does): a failed accelerometer read makes [update()]
    raise, and the exception leaves every blocking detector; only
    [get_direction()] turns a failed read into [None]. *)
Theorem failed_read_propagates (im : InputManager) (t : Tick) (ts : list Tick)
  (timeout_s : option Q) (require_axes : option (list string))
  (axes : list string) (start_time duration_s nav_timeout : Q)
  (c : string) (cs : list string) :
  update im (failed_read t) = Exc OSError /\
  detect_movement timeout_s require_axes start_time im (failed_read t :: ts)
    = Raised OSError /\
  detect_tilt_forward timeout_s start_time im (failed_read t :: ts) = Raised OSError /\
  detect_all_six_directions timeout_s axes start_time im (failed_read t :: ts)
    = Raised OSError /\
  detect_double_tap timeout_s start_time im (failed_read t :: ts) = Raised OSError /\
  detect_double_click_button timeout_s start_time im (failed_read t :: ts)
    = Raised OSError /\
  navigate_choice (c :: cs) nav_timeout start_time im (failed_read t :: ts)
    = Raised OSError /\
  both_buttons_held duration_s start_time im (failed_read t :: ts)
    = (if Qltb (t_loop t - start_time) duration_s then Raised OSError
       else Returned im true) /\
  get_direction im None = (im, None).
Proof.
  repeat split; try reflexivity.
  - unfold both_buttons_held. simpl. unfold both_buttons_held_body. simpl.
    destruct (Qltb (t_loop t - start_time) duration_s); reflexivity.
  - unfold get_direction. destruct (_accel_reader im); reflexivity.
Qed.

(** ** detect_all_six_directions *)

Lemma run_loop_invariant {S R : Type} (body : S -> Tick -> Outcome S R) (P : S -> Prop) :
  (forall s t s', P s -> body s t = Continue s' -> P s') ->
  forall pre s s0, P s -> run_loop body s pre = Blocked s0 -> P s0.
Proof.
  intros Hstep pre. induction pre as [|t pre IH]; intros s s0 Hs H; simpl in H.
  - injection H as <-. exact Hs.
  - destruct (body s t) as [s1|s1 r1|e] eqn:E; try discriminate.
    eapply IH; [|exact H]. eapply Hstep; eauto.
Qed.

Lemma elem_of_add_if c tok (s : gset string) x :
  x ∈ add_if c tok s <-> x ∈ s \/ (c = true /\ x = tok).
Proof.
  unfold add_if. destruct c.
  - rewrite elem_of_union, elem_of_singleton. tauto.
  - split; [auto|]. intros [H|[H _]]; [exact H|discriminate].
Qed.

Lemma elem_of_crossings axes_set im d tok :
  tok ∈ crossings axes_set im d <->
  tok ∈ d \/
  ("x" ∈ axes_set /\
     ((TILT_THRESHOLD < x_filtered im /\ tok = "+X"%string) \/
      (x_filtered im < - TILT_THRESHOLD /\ tok = "-X"%string))) \/
  ("y" ∈ axes_set /\
     ((TILT_THRESHOLD < y_filtered im /\ tok = "+Y"%string) \/
      (y_filtered im < - TILT_THRESHOLD /\ tok = "-Y"%string))) \/
  ("z" ∈ axes_set /\
     ((TILT_THRESHOLD < z_filtered im - baseline_z im /\ tok = "+Z"%string) \/
      (z_filtered im - baseline_z im < - TILT_THRESHOLD /\ tok = "-Z"%string))).
Proof.
  unfold crossings.
  destruct (bool_decide_reflect ("x" ∈ axes_set)) as [Hx|Hx];
  destruct (bool_decide_reflect ("y" ∈ axes_set)) as [Hy|Hy];
  destruct (bool_decide_reflect ("z" ∈ axes_set)) as [Hz|Hz];
  rewrite ?elem_of_add_if, ?Qgtb_true, ?Qltb_true; tauto.
Qed.

Lemma crossings_mono axes_set im d : d ⊆ crossings axes_set im d.
Proof. intros tok H. apply elem_of_crossings. auto. Qed.

Lemma axes_xy : axes_set_of ["x"; "y"]%string = {[ "x"; "y" ]}%string.
Proof. unfold axes_set_of. simpl. rewrite (right_id_L ∅ (∪)). reflexivity. Qed.

Lemma crossings_xy_four im d :
  d ⊆ four_directions -> crossings (axes_set_of ["x"; "y"]%string) im d ⊆ four_directions.
Proof.
  intros Hd tok. rewrite elem_of_crossings, axes_xy.
  intros [H|[H|[H|H]]]; [auto | | |].
  - destruct H as (_ & [[_ ->]|[_ ->]]); unfold four_directions;
      rewrite !elem_of_union, !elem_of_singleton; tauto.
  - destruct H as (_ & [[_ ->]|[_ ->]]); unfold four_directions;
      rewrite !elem_of_union, !elem_of_singleton; tauto.
  - destruct H as (Hz & _). rewrite elem_of_union, !elem_of_singleton in Hz.
    destruct Hz; discriminate.
Qed.

Lemma detect_all_six_directions_checks_cases timeout_s axes_set n start_time t im' :
  let d' := crossings axes_set im' (directions_detected im') in
  detect_all_six_directions_checks timeout_s axes_set n start_time t im' =
  if (n <=? size d')%nat then Return (set_directions im' d') true
  else if timed_out timeout_s start_time t then Return (set_directions im' d') false
  else Continue (set_directions im' d').
Proof. reflexivity. Qed.

Lemma update_directions im t im' :
  update im t = Ok im' -> directions_detected im' = directions_detected im.
Proof.
  unfold update. destruct (acceleration t) as [[[x y] z]|]; [|discriminate].
  intros [= <-]. reflexivity.
Qed.

(** Outcome of an iteration in terms of the token count. *)
Lemma detect_all_six_directions_body_size timeout_s axes_set n start_time s t s' r :
  detect_all_six_directions_body timeout_s axes_set n start_time s t = Return s' r ->
  directions_detected s ⊆ directions_detected s' /\
  (r = true <-> (n <= size (directions_detected s'))%nat) /\
  (r = false -> timed_out timeout_s start_time t = true).
Proof.
  unfold detect_all_six_directions_body, after_update.
  destruct (update s t) as [im'|e] eqn:Eu; [|discriminate].
  rewrite detect_all_six_directions_checks_cases. cbv zeta.
  rewrite (update_directions _ _ _ Eu).
  destruct (Nat.leb_spec n (size (crossings axes_set im' (directions_detected s)))) as [Hle|Hlt].
  - intros [= <- <-]. simpl. split; [apply crossings_mono|]. split; [tauto|discriminate].
  - destruct (timed_out timeout_s start_time t); [|discriminate].
    intros [= <- <-]. simpl. split; [apply crossings_mono|].
    split; [|reflexivity]. split; [discriminate|lia].
Qed.

Lemma detect_all_six_directions_body_dirs timeout_s axes_set n start_time s t s' :
  (detect_all_six_directions_body timeout_s axes_set n start_time s t = Continue s' \/
   exists r, detect_all_six_directions_body timeout_s axes_set n start_time s t
             = Return s' r) ->
  exists im', update s t = Ok im' /\
    directions_detected s' = crossings axes_set im' (directions_detected s).
Proof.
  unfold detect_all_six_directions_body, after_update.
  destruct (update s t) as [im'|e] eqn:Eu.
  - rewrite detect_all_six_directions_checks_cases. cbv zeta.
    rewrite (update_directions _ _ _ Eu). intros H. exists im'. split; [reflexivity|].
    destruct (n <=? size (crossings axes_set im' (directions_detected s)))%nat;
      [|destruct (timed_out timeout_s start_time t)];
      destruct H as [H|[r H]]; try discriminate; injection H as <-; reflexivity.
  - intros [H|[r H]]; discriminate.
Qed.

Lemma size_four_directions : size four_directions = 4%nat.
Proof. vm_compute. reflexivity. Qed.

Lemma size_axes_xy : size (axes_set_of ["x"; "y"]%string) = 2%nat.
Proof. vm_compute. reflexivity. Qed.

(** C3: on every tick [detect_all_six_directions] tests both polarities of
    each requested axis against [TILT_THRESHOLD] (the filtered value for X
    and Y, [z_filtered - baseline_z] for Z), adds the crossing tokens and
    never removes one, and returns [True] exactly when the number of
    distinct tokens reaches twice the number of requested axes; with
    [axes=['x','y']] that is all of [+X], [-X], [+Y], [-Y], and three tokens
    followed by the timeout give [False]. *)
Theorem detect_all_six_directions_tokens (timeout_s : option Q)
  (axes : list string) (start_time : Q) (im : InputManager) (ticks : list Tick) :
  (forall im' d tok,
     tok ∈ crossings (axes_set_of axes) im' d <->
     tok ∈ d \/
     ("x" ∈ axes_set_of axes /\
        ((TILT_THRESHOLD < x_filtered im' /\ tok = "+X"%string) \/
         (x_filtered im' < - TILT_THRESHOLD /\ tok = "-X"%string))) \/
     ("y" ∈ axes_set_of axes /\
        ((TILT_THRESHOLD < y_filtered im' /\ tok = "+Y"%string) \/
         (y_filtered im' < - TILT_THRESHOLD /\ tok = "-Y"%string))) \/
     ("z" ∈ axes_set_of axes /\
        ((TILT_THRESHOLD < z_filtered im' - baseline_z im' /\ tok = "+Z"%string) \/
         (z_filtered im' - baseline_z im' < - TILT_THRESHOLD /\ tok = "-Z"%string)))) /\
  (forall t im',
     let d' := crossings (axes_set_of axes) im' (directions_detected im') in
     detect_all_six_directions_checks timeout_s (axes_set_of axes)
       (size (axes_set_of axes) * 2) start_time t im' =
     if (size (axes_set_of axes) * 2 <=? size d')%nat
     then Return (set_directions im' d') true
     else if timed_out timeout_s start_time t
          then Return (set_directions im' d') false
          else Continue (set_directions im' d')) /\
  (forall s r,
     detect_all_six_directions timeout_s axes start_time im ticks = Returned s r ->
     (r = true <-> (2 * size (axes_set_of axes) <= size (directions_detected s))%nat)) /\
  (forall s,
     detect_all_six_directions timeout_s ["x"; "y"]%string start_time im ticks
       = Returned s true ->
     directions_detected s = four_directions) /\
  (exists s,
     detect_all_six_directions (Some 3) ["x"; "y"]%string 0 im_rest three_tilts
       = Returned s false /\
     directions_detected s = {[ "+X"; "-X"; "+Y" ]}%string).
Proof.
  split; [intros; apply elem_of_crossings|].
  split; [intros; apply detect_all_six_directions_checks_cases|].
  split; [|split].
  - intros s r H. unfold detect_all_six_directions in H. cbv zeta in H.
    destruct (run_loop_returned _ _ _ _ _ H) as (pre & t & post & s0 & _ & _ & Ht).
    apply detect_all_six_directions_body_size in Ht.
    destruct Ht as (_ & Hr & _). rewrite Hr. lia.
  - intros s H. unfold detect_all_six_directions in H. cbv zeta in H.
    rewrite size_axes_xy in H.
    destruct (run_loop_returned _ _ _ _ _ H) as (pre & t & post & s0 & _ & Hpre & Ht).
    assert (Hs0 : directions_detected s0 ⊆ four_directions).
    { refine (run_loop_invariant _ (fun s => directions_detected s ⊆ four_directions)
                _ pre _ s0 _ Hpre).
      - intros s1 u s2 Hs1 Hu.
        destruct (detect_all_six_directions_body_dirs _ _ _ _ _ _ _ (or_introl Hu))
          as (im' & _ & ->).
        apply crossings_xy_four, Hs1.
      - simpl. apply empty_subseteq. }
    pose proof (detect_all_six_directions_body_size _ _ _ _ _ _ _ _ Ht) as (_ & Hr & _).
    destruct (detect_all_six_directions_body_dirs _ _ _ _ _ _ _
                (or_intror (ex_intro _ true Ht))) as (im' & _ & Hd).
    apply set_subseteq_size_eq.
    + rewrite Hd. apply crossings_xy_four, Hs0.
    + rewrite size_four_directions. apply Hr. reflexivity.
  - eexists. split; vm_compute; reflexivity.
Qed.

Lemma detect_all_six_directions_tokens_witness :
  exists s,
    detect_all_six_directions None ["x"; "y"]%string 0 im_rest four_tilts
      = Returned s true /\
    directions_detected s = four_directions.
Proof.
  eexists. split.
  - vm_compute. reflexivity.
  - apply (proj1 (proj2 (proj2 (proj2
             (detect_all_six_directions_tokens None ["x"; "y"]%string 0 im_rest
                four_tilts))))).
    vm_compute. reflexivity.
Defined.

(** ** detect_double_click_button *)

(** An invariant that follows the ticks consumed so far. *)
Lemma run_loop_invariant_pre {S R : Type} (body : S -> Tick -> Outcome S R)
  (P : list Tick -> S -> Prop) (s : S) :
  P [] s ->
  (forall pre s1 t s2, P pre s1 -> run_loop body s pre = Blocked s1 ->
                       body s1 t = Continue s2 -> P (pre ++ [t]) s2) ->
  forall ticks s0, run_loop body s ticks = Blocked s0 -> P ticks s0.
Proof.
  intros H0 Hstep ticks. induction ticks as [|t ticks IH] using rev_ind; intros s0 H.
  - simpl in H. injection H as <-. exact H0.
  - rewrite run_loop_app in H.
    destruct (run_loop body s ticks) as [s1|s1 r1|e] eqn:E; try discriminate.
    simpl in H. destruct (body s1 t) as [s2|s2 r2|e] eqn:Et; try discriminate.
    injection H as <-. eapply Hstep; eauto.
Qed.

Lemma within_window_true last now w :
  within_window last now w = true <-> exists l, last = Some l /\ now - l <= w.
Proof.
  unfold within_window. destruct last as [l|].
  - rewrite Qle_bool_iff. split; [eauto|]. intros (l' & [= <-] & H). exact H.
  - split; [discriminate|]. intros (l & H & _). discriminate.
Qed.

Section DoubleClick.

Variables (timeout_s : option Q) (start_time : Q).

Local Abbreviation body := (detect_double_click_button_body timeout_s start_time).

Lemma double_click_body_continue s t s' :
  body s t = Continue s' ->
  last_left_click s' = (if left_fell t then Some (t_now t) else last_left_click s) /\
  last_right_click s' = (if right_fell t then Some (t_now t) else last_right_click s).
Proof.
  unfold detect_double_click_button_body, after_update.
  destruct (update (ck_im s) t) as [im'|e]; [|discriminate].
  unfold detect_double_click_button_checks. cbv zeta.
  destruct (left_fell t && within_window (last_left_click s) (t_now t) DOUBLE_CLICK_WINDOW);
    [discriminate|].
  destruct (right_fell t && within_window _ (t_now t) DOUBLE_CLICK_WINDOW);
    [discriminate|].
  destruct (timed_out timeout_s start_time t); [discriminate|].
  intros [= <-]. simpl. auto.
Qed.

Lemma double_click_body_true s t s' :
  body s t = Return s' true ->
  (left_fell t = true /\
   within_window (last_left_click s) (t_now t) DOUBLE_CLICK_WINDOW = true) \/
  (right_fell t = true /\
   within_window (last_right_click s) (t_now t) DOUBLE_CLICK_WINDOW = true).
Proof.
  unfold detect_double_click_button_body, after_update.
  destruct (update (ck_im s) t) as [im'|e]; [|discriminate].
  unfold detect_double_click_button_checks. cbv zeta.
  destruct (left_fell t && within_window (last_left_click s) (t_now t) DOUBLE_CLICK_WINDOW)
    eqn:El.
  { apply andb_true_iff in El. auto. }
  destruct (right_fell t && within_window _ (t_now t) DOUBLE_CLICK_WINDOW) eqn:Er.
  { apply andb_true_iff in Er. auto. }
  destruct (timed_out timeout_s start_time t); discriminate.
Qed.

Lemma double_click_body_second s t :
  acceleration t <> None ->
  (left_fell t = true /\
   within_window (last_left_click s) (t_now t) DOUBLE_CLICK_WINDOW = true) \/
  (right_fell t = true /\
   within_window (last_right_click s) (t_now t) DOUBLE_CLICK_WINDOW = true) ->
  exists s', body s t = Return s' true.
Proof.
  intros Ha H.
  unfold detect_double_click_button_body.
  destruct (update_succeeds (ck_im s) t Ha) as [im' ->]. unfold after_update.
  unfold detect_double_click_button_checks. cbv zeta.
  destruct (left_fell t && within_window (last_left_click s) (t_now t) DOUBLE_CLICK_WINDOW)
    eqn:El; [eauto|].
  destruct H as [[Hl Hw]|[Hr Hw]].
  - rewrite Hl, Hw in El. discriminate.
  - rewrite Hr, Hw. simpl. eauto.
Qed.

Lemma pending_sound_step pre s t s' :
  pending_sound pre s -> body s t = Continue s' -> pending_sound (pre ++ [t]) s'.
Proof.
  intros [HL HR] Hb. apply double_click_body_continue in Hb. destruct Hb as [El Er].
  split; intros l Hl.
  - rewrite El in Hl. destruct (left_fell t) eqn:Ef.
    + injection Hl as <-. exists (length pre), t.
      rewrite list_lookup_middle by reflexivity. auto.
    + destruct (HL l Hl) as (i & ti & Hi & Hfi & Hti).
      exists i, ti. rewrite lookup_app_l by (eapply lookup_lt_Some, Hi). auto.
  - rewrite Er in Hl. destruct (right_fell t) eqn:Ef.
    + injection Hl as <-. exists (length pre), t.
      rewrite list_lookup_middle by reflexivity. auto.
    + destruct (HR l Hl) as (i & ti & Hi & Hfi & Hti).
      exists i, ti. rewrite lookup_app_l by (eapply lookup_lt_Some, Hi). auto.
Qed.

End DoubleClick.

(** A monotonic clock gives non-decreasing [t_now] values. *)
Lemma clock_monotone_lower ticks : forall start j tj,
  clock_monotone start ticks -> ticks !! j = Some tj -> start <= t_now tj.
Proof.
  induction ticks as [|t ts IH]; intros start j tj H Hj; [discriminate|].
  destruct H as (H1 & H2 & H3 & H4 & H5 & H6 & Hrest).
  destruct j as [|j]; simpl in Hj.
  - injection Hj as <-. lra.
  - pose proof (IH _ _ _ Hrest Hj). lra.
Qed.

Lemma clock_monotone_now_sorted ticks : forall start,
  clock_monotone start ticks -> now_sorted ticks.
Proof.
  induction ticks as [|t ts IH]; intros start H i j ti tj Hij Hi Hj; [discriminate|].
  destruct H as (H1 & H2 & H3 & H4 & H5 & H6 & Hrest).
  destruct i as [|i], j as [|j]; simpl in Hi, Hj; try lia.
  - injection Hi as <-. injection Hj as <-. lra.
  - injection Hi as <-. pose proof (clock_monotone_lower _ _ _ _ Hrest Hj). lra.
  - apply (IH _ Hrest i j ti tj); [lia|assumption..].
Qed.

Section DoubleClickRuns.

Variables (timeout_s : option Q) (start_time : Q).

Lemma now_sorted_prefix pre post : now_sorted (pre ++ post) -> now_sorted pre.
Proof.
  intros H i j ti tj Hij Hi Hj.
  apply (H i j ti tj Hij); apply lookup_app_l_Some; assumption.
Qed.

Lemma now_sorted_last pre t i ti :
  now_sorted (pre ++ [t]) -> (pre ++ [t]) !! i = Some ti -> t_now ti <= t_now t.
Proof.
  intros H Hi.
  assert (Hlt : (i < length (pre ++ [t]))%nat) by (eapply lookup_lt_Some, Hi).
  rewrite length_app in Hlt. simpl in Hlt.
  apply (H i (length pre) ti t); [lia | exact Hi |].
  apply list_lookup_middle. reflexivity.
Qed.

Lemma pending_recent_step pre s t s' :
  now_sorted (pre ++ [t]) ->
  pending_recent pre s ->
  detect_double_click_button_body timeout_s start_time s t = Continue s' ->
  pending_recent (pre ++ [t]) s'.
Proof.
  intros Hsorted [HL HR] Hb.
  apply double_click_body_continue in Hb. destruct Hb as [El Er].
  split; intros i ti Hi Hf.
  - rewrite El. destruct (left_fell t) eqn:Ef.
    + exists (t_now t). split; [reflexivity|]. eapply now_sorted_last; eauto.
    + apply lookup_app_Some in Hi. destruct Hi as [Hi|[_ Hi]].
      * eapply HL; eauto.
      * destruct (i - length pre)%nat; [|discriminate].
        injection Hi as <-. congruence.
  - rewrite Er. destruct (right_fell t) eqn:Ef.
    + exists (t_now t). split; [reflexivity|]. eapply now_sorted_last; eauto.
    + apply lookup_app_Some in Hi. destruct Hi as [Hi|[_ Hi]].
      * eapply HR; eauto.
      * destruct (i - length pre)%nat; [|discriminate].
        injection Hi as <-. congruence.
Qed.

Lemma pending_sound_run im pre s0 :
  detect_double_click_button timeout_s start_time im pre = Blocked s0 ->
  pending_sound pre s0.
Proof.
  unfold detect_double_click_button.
  apply (run_loop_invariant_pre _ pending_sound).
  - split; intros l H; discriminate.
  - intros pre' s1 t s2 HP _ Hb. eapply pending_sound_step; eauto.
Qed.

Lemma pending_recent_run im pre s0 :
  now_sorted pre ->
  detect_double_click_button timeout_s start_time im pre = Blocked s0 ->
  pending_recent pre s0.
Proof.
  unfold detect_double_click_button. intros Hsorted H. revert Hsorted.
  revert pre s0 H.
  apply (run_loop_invariant_pre _ (fun pre s => now_sorted pre -> pending_recent pre s)).
  - intros _. split; intros i ti Hi; discriminate.
  - intros pre' s1 t s2 HP _ Hb Hsorted.
    eapply pending_recent_step; eauto.
    apply HP. eapply now_sorted_prefix, Hsorted.
Qed.

Lemma double_click_sound im ticks s :
  detect_double_click_button timeout_s start_time im ticks = Returned s true ->
  exists i j, double_click_at ticks i j.
Proof.
  intros H. unfold detect_double_click_button in H.
  destruct (run_loop_returned _ _ _ _ _ H) as (pre & t & post & s0 & -> & Hpre & Ht).
  destruct (pending_sound_run im pre s0 Hpre) as [HL HR].
  assert (Hj : (pre ++ t :: post) !! length pre = Some t)
    by (apply list_lookup_middle; reflexivity).
  apply double_click_body_true in Ht.
  destruct Ht as [[Hf Hw]|[Hf Hw]];
    apply within_window_true in Hw; destruct Hw as (l & Hl & Hgap).
  - destruct (HL l Hl) as (i & ti & Hi & Hfi & <-).
    exists i, (length pre), ti, t.
    split; [eapply lookup_lt_Some, Hi|].
    split; [apply lookup_app_l_Some, Hi|]. auto.
  - destruct (HR l Hl) as (i & ti & Hi & Hfi & <-).
    exists i, (length pre), ti, t.
    split; [eapply lookup_lt_Some, Hi|].
    split; [apply lookup_app_l_Some, Hi|]. auto.
Qed.

Lemma double_click_complete im pre t post s0 :
  now_sorted (pre ++ [t]) ->
  detect_double_click_button timeout_s start_time im pre = Blocked s0 ->
  acceleration t <> None ->
  (exists i, double_click_at (pre ++ [t]) i (length pre)) ->
  exists s, detect_double_click_button timeout_s start_time im (pre ++ t :: post)
            = Returned s true.
Proof.
  intros Hsorted Hpre Ha (i & ti & tj & Hij & Hi & Hj & Hboth & Hgap).
  rewrite list_lookup_middle in Hj by reflexivity. injection Hj as <-.
  rewrite lookup_app_l in Hi by exact Hij.
  destruct (pending_recent_run im pre s0 (now_sorted_prefix _ _ Hsorted) Hpre)
    as [HL HR].
  assert (Hsecond : exists s', detect_double_click_button_body timeout_s start_time s0 t
                               = Return s' true).
  { apply double_click_body_second; [exact Ha|].
    destruct Hboth as [[Hfi Hft]|[Hfi Hft]].
    - left. split; [exact Hft|]. apply within_window_true.
      destruct (HL i ti Hi Hfi) as (l & Hl & Hle). exists l. split; [exact Hl|]. lra.
    - right. split; [exact Hft|]. apply within_window_true.
      destruct (HR i ti Hi Hfi) as (l & Hl & Hle). exists l. split; [exact Hl|]. lra. }
  destruct Hsecond as [s' Hs'].
  exists s'. unfold detect_double_click_button in *.
  rewrite run_loop_app, Hpre. simpl. rewrite Hs'. reflexivity.
Qed.

End DoubleClickRuns.

Lemma double_click_pending timeout_s start_time s t im' :
  (left_fell t = true ->
   within_window (last_left_click s) (t_now t) DOUBLE_CLICK_WINDOW = false ->
   right_fell t = false ->
   exists s',
     last_left_click s' = Some (t_now t) /\
     last_right_click s' = last_right_click s /\
     detect_double_click_button_checks timeout_s start_time s t im' =
       if timed_out timeout_s start_time t then Return s' false else Continue s') /\
  (right_fell t = true ->
   within_window (last_right_click s) (t_now t) DOUBLE_CLICK_WINDOW = false ->
   left_fell t = false ->
   exists s',
     last_right_click s' = Some (t_now t) /\
     last_left_click s' = last_left_click s /\
     detect_double_click_button_checks timeout_s start_time s t im' =
       if timed_out timeout_s start_time t then Return s' false else Continue s').
Proof.
  split; intros Hf Hw Hother; unfold detect_double_click_button_checks; cbv zeta;
    rewrite Hf, Hw, Hother; simpl andb; cbv iota;
    eexists; (split; [|split]); cycle -1.
  1,4: destruct (timed_out timeout_s start_time t); reflexivity.
  all: reflexivity.
Qed.

Lemma within_window_late l now w :
  w < now - l -> within_window (Some l) now w = false.
Proof.
  intros H. unfold within_window. apply not_true_iff_false.
  rewrite Qle_bool_iff. lra.
Qed.

(** C4: [detect_double_click_button] returns [True] only on a click that
    follows a click of the same button by at most 0.5 s, and does return
    [True] on such a click; clicks on different buttons never combine; a
    click that comes after the window does not succeed and becomes the
    pending click of its button. *)
Theorem detect_double_click_button_same_button (timeout_s : option Q)
  (start_time : Q) (im : InputManager) (ticks : list Tick) :
  (forall s,
     detect_double_click_button timeout_s start_time im ticks = Returned s true ->
     exists i j, double_click_at ticks i j) /\
  (forall pre t post s0,
     ticks = pre ++ t :: post ->
     now_sorted (pre ++ [t]) ->
     detect_double_click_button timeout_s start_time im pre = Blocked s0 ->
     acceleration t <> None ->
     (exists i, double_click_at (pre ++ [t]) i (length pre)) ->
     exists s,
       detect_double_click_button timeout_s start_time im ticks = Returned s true) /\
  ((forall i j, ~ double_click_at ticks i j) ->
   returned (detect_double_click_button timeout_s start_time im ticks) <> Some true) /\
  (forall s t im' l,
     left_fell t = true -> right_fell t = false ->
     last_left_click s = Some l -> DOUBLE_CLICK_WINDOW < t_now t - l ->
     exists s',
       last_left_click s' = Some (t_now t) /\
       last_right_click s' = last_right_click s /\
       detect_double_click_button_checks timeout_s start_time s t im' =
         if timed_out timeout_s start_time t then Return s' false else Continue s') /\
  (forall s t im' l,
     right_fell t = true -> left_fell t = false ->
     last_right_click s = Some l -> DOUBLE_CLICK_WINDOW < t_now t - l ->
     exists s',
       last_right_click s' = Some (t_now t) /\
       last_left_click s' = last_left_click s /\
       detect_double_click_button_checks timeout_s start_time s t im' =
         if timed_out timeout_s start_time t then Return s' false else Continue s') /\
  (exists s,
     detect_double_click_button None 0 im_rest left_then_right = Blocked s /\
     last_left_click s = Some 0.1 /\ last_right_click s = Some 0.2).
Proof.
  split; [intros s H; eapply double_click_sound, H|].
  split; [intros pre t post s0 -> Hs Hpre Ha Hd;
          eapply double_click_complete; eauto|].
  split.
  { intros Hno H.
    destruct (detect_double_click_button timeout_s start_time im ticks)
      as [s1|s1 r1|e] eqn:E; try discriminate.
    injection H as ->. destruct (double_click_sound _ _ _ _ _ E) as (i & j & Hd).
    exact (Hno i j Hd). }
  split.
  { intros s t im' l Hf Ho Hl Hlate.
    apply (proj1 (double_click_pending timeout_s start_time s t im')); auto.
    rewrite Hl. apply within_window_late, Hlate. }
  split.
  { intros s t im' l Hf Ho Hl Hlate.
    apply (proj2 (double_click_pending timeout_s start_time s t im')); auto.
    rewrite Hl. apply within_window_late, Hlate. }
  eexists. split; [vm_compute; reflexivity|]. split; reflexivity.
Qed.

Lemma now_sorted_left_twice : now_sorted left_twice.
Proof.
  intros [|[|[|i]]] [|[|[|j]]] ti tj Hij Hi Hj; simpl in Hi, Hj;
    try discriminate; try lia;
    injection Hi as <-; injection Hj as <-; vm_compute; discriminate.
Qed.

Lemma detect_double_click_button_same_button_witness :
  exists s, detect_double_click_button None 0 im_rest left_twice = Returned s true.
Proof.
  assert (Hpre : exists s0,
             detect_double_click_button None 0 im_rest
               [tick_buttons 0.1 false true true false false;
                tick_buttons 0.2 true false true false false] = Blocked s0).
  { eexists. vm_compute. reflexivity. }
  destruct Hpre as [s0 Hpre].
  apply (proj1 (proj2 (detect_double_click_button_same_button None 0 im_rest left_twice))
           [tick_buttons 0.1 false true true false false;
            tick_buttons 0.2 true false true false false]
           (tick_buttons 0.4 false true true false false) [] s0).
  - reflexivity.
  - exact now_sorted_left_twice.
  - exact Hpre.
  - discriminate.
  - exists 0%nat, (tick_buttons 0.1 false true true false false),
      (tick_buttons 0.4 false true true false false).
    split; [simpl; lia|]. split; [reflexivity|]. split; [reflexivity|].
    split; [left; split; reflexivity|]. vm_compute. discriminate.
Defined.

(** ** navigate_choice *)

Section Navigate.

Variables (choices : list string) (timeout_s start_time : Q).

Local Abbreviation n := (Z.of_nat (length choices)).

Hypothesis nonempty : choices <> [].

Lemma n_pos : (0 < n)%Z.
Proof. destruct choices; [congruence|]. simpl. lia. Qed.

Lemma choice_at_in_range i :
  (0 <= i < n)%Z -> choice_at choices i = Ok (choice_text choices i).
Proof.
  intros [H0 H1]. unfold choice_at.
  destruct (Z.ltb_spec i 0) as [?|_]; [lia|].
  destruct (Z.leb_spec 0 i) as [_|?]; [|lia].
  destruct (Z.ltb_spec i n) as [_|?]; [|lia]. simpl.
  unfold choice_text.
  destruct (nth_error choices (Z.to_nat i)) as [c|] eqn:E.
  - f_equal. symmetry. apply nth_error_nth. exact E.
  - apply nth_error_None in E. lia.
Qed.

Lemma press_in_range now delta idx sh :
  press choices timeout_s start_time now delta idx sh =
  Ok (((idx + delta) mod n)%Z,
      sh ++ [(choice_text choices ((idx + delta) mod n)%Z,
              inject_Z (remaining_at timeout_s start_time now))]).
Proof.
  pose proof n_pos as Hn.
  unfold press, py_mod.
  destruct (Z.eqb_spec n 0) as [?|_]; [lia|].
  cbn [mbind result_bind].
  rewrite choice_at_in_range by (apply Z.mod_pos_bound; exact Hn).
  reflexivity.
Qed.

Lemma index_after_range idx t : (0 <= index_after n idx t < n)%Z \/
  (left_fell t = false /\ right_fell t = false /\ index_after n idx t = idx).
Proof.
  pose proof n_pos as Hn. unfold index_after.
  destruct (right_fell t); [left; apply Z.mod_pos_bound; exact Hn|].
  destruct (left_fell t); [left; apply Z.mod_pos_bound; exact Hn|].
  right. auto.
Qed.

Lemma index_after_in_range idx t :
  (0 <= idx < n)%Z -> (0 <= index_after n idx t < n)%Z.
Proof.
  intros H. destruct (index_after_range idx t) as [?|(_ & _ & ->)]; assumption.
Qed.

Lemma navigate_choice_checks_eq s t im' :
  (0 <= current_index s < n)%Z ->
  navigate_choice_checks choices timeout_s start_time s t im' =
  let s' := nav_next choices timeout_s start_time s t im' in
  if encoder_fell t then Return s' (current_index s')
  else if Qgtb (t_timeout t - start_time) timeout_s then Return s' (-1)%Z
  else Continue s'.
Proof.
  intros Hidx. pose proof n_pos as Hn.
  pose proof (index_after_in_range (current_index s) t Hidx) as Hi2.
  unfold navigate_choice_checks, nav_next, redraws, countdown_fell.
  unfold index_after in *.
  destruct (left_fell t), (right_fell t);
    rewrite ?press_in_range; cbn [mbind result_bind mret result_ret];
    rewrite ?press_in_range; cbn [mbind result_bind mret result_ret];
    (destruct (encoder_fell t);
     [ cbn [negb andb escape]; cbv zeta; cbn [current_index];
       rewrite <- ?app_assoc; cbn [app]; rewrite ?app_nil_r; reflexivity
     | cbn [negb andb];
       destruct (Qltb (inject_Z (remaining_at timeout_s start_time (t_count t)))
                   (last_countdown s));
       rewrite ?choice_at_in_range by assumption;
       cbn [mbind result_bind mret result_ret escape]; cbv zeta;
       destruct (Qgtb (t_timeout t - start_time) timeout_s);
       cbn [escape]; rewrite <- ?app_assoc; cbn [app]; rewrite ?app_nil_r;
       reflexivity ]).
Qed.

End Navigate.

Lemma navigate_choice_index_range choices timeout_s start_time im ticks s :
  choices <> [] ->
  navigate_choice choices timeout_s start_time im ticks = Blocked s ->
  (0 <= current_index s < Z.of_nat (length choices))%Z.
Proof.
  intros Hne. unfold navigate_choice.
  pose proof (n_pos choices Hne) as Hn.
  rewrite (choice_at_in_range choices 0) by lia.
  apply (run_loop_invariant _
           (fun s => (0 <= current_index s < Z.of_nat (length choices))%Z)).
  - intros s1 t s2 Hs1. unfold navigate_choice_body, after_update.
    destruct (update (nv_im s1) t) as [im'|e]; [|discriminate].
    rewrite (navigate_choice_checks_eq choices timeout_s start_time Hne) by exact Hs1.
    cbv zeta. destruct (encoder_fell t); [discriminate|].
    destruct (Qgtb (t_timeout t - start_time) timeout_s); [discriminate|].
    intros [= <-]. simpl. apply index_after_in_range; assumption.
  - simpl. lia.
Qed.

Lemma step_changes_index n idx :
  (2 <= n)%Z -> (0 <= idx < n)%Z ->
  ((idx - 1) mod n)%Z <> idx /\ ((idx + 1) mod n)%Z <> idx.
Proof.
  intros Hn Hidx. split; intros Heq.
  - pose proof (Z.div_mod (idx - 1) n ltac:(lia)) as Hd. rewrite Heq in Hd.
    destruct (Z_le_gt_dec 0 ((idx - 1) / n)); nia.
  - pose proof (Z.div_mod (idx + 1) n ltac:(lia)) as Hd. rewrite Heq in Hd.
    destruct (Z_le_gt_dec ((idx + 1) / n) 0); nia.
Qed.

(** C6 (amended): for a non-empty list of choices, [navigate_choice] starts
    at index 0 and shows it; in each iteration a left press steps the index
    down and a right press steps it up modulo [len(choices)], an encoder
    press returns the index, the display callback is called once per press
    (which changes the index when there are at least two choices) and once
    when the integer countdown falls below the last countdown, and the call
    returns [-1] when the clock of the timeout check exceeds [timeout_s]
    without a commit. *)
Theorem navigate_choice_steps (choices : list string) (timeout_s start_time : Q)
  (im : InputManager) :
  choices <> [] ->
  navigate_choice choices timeout_s start_time im [] =
    Blocked {| nv_im := im; current_index := 0; last_countdown := timeout_s;
               shown := [(choice_text choices 0, timeout_s)] |} /\
  (forall ticks s,
     navigate_choice choices timeout_s start_time im ticks = Blocked s ->
     (0 <= current_index s < Z.of_nat (length choices))%Z) /\
  (forall s t im',
     (0 <= current_index s < Z.of_nat (length choices))%Z ->
     update (nv_im s) t = Ok im' ->
     let s' := nav_next choices timeout_s start_time s t im' in
     navigate_choice_body choices timeout_s start_time s t =
       if encoder_fell t then Return s' (current_index s')
       else if Qgtb (t_timeout t - start_time) timeout_s then Return s' (-1)%Z
       else Continue s') /\
  (forall s t im',
     let n := Z.of_nat (length choices) in
     let s' := nav_next choices timeout_s start_time s t im' in
     (left_fell t = false -> right_fell t = false ->
      current_index s' = current_index s) /\
     (left_fell t = true -> right_fell t = false ->
      current_index s' = ((current_index s - 1) mod n)%Z) /\
     (left_fell t = false -> right_fell t = true ->
      current_index s' = ((current_index s + 1) mod n)%Z) /\
     (left_fell t = false -> right_fell t = false ->
      countdown_fell timeout_s start_time s t = false ->
      shown s' = shown s) /\
     (countdown_fell timeout_s start_time s t = true ->
      last_countdown s' < last_countdown s)) /\
  (forall idx,
     (2 <= Z.of_nat (length choices))%Z ->
     (0 <= idx < Z.of_nat (length choices))%Z ->
     ((idx - 1) mod Z.of_nat (length choices))%Z <> idx /\
     ((idx + 1) mod Z.of_nat (length choices))%Z <> idx).
Proof.
  intros Hne. pose proof (n_pos choices Hne) as Hn.
  split.
  { unfold navigate_choice. rewrite (choice_at_in_range choices 0) by lia.
    reflexivity. }
  split; [intros ticks s H; eapply navigate_choice_index_range; eauto|].
  split.
  { intros s t im' Hidx Hu. unfold navigate_choice_body. rewrite Hu.
    unfold after_update. apply navigate_choice_checks_eq; assumption. }
  split.
  { intros s t im'. cbv zeta. unfold nav_next, redraws, index_after, countdown_fell.
    cbn [current_index shown last_countdown].
    repeat split.
    - intros -> ->. reflexivity.
    - intros -> ->. reflexivity.
    - intros -> ->. reflexivity.
    - intros -> -> ->. cbn [app]. apply app_nil_r.
    - intros H. rewrite H. apply andb_true_iff in H. destruct H as [_ H].
      apply Qltb_true in H. exact H. }
  intros idx H2 Hidx. apply step_changes_index; assumption.
Qed.

Lemma navigate_choice_steps_witness :
  navigate_choice abc 5 0 im_rest [] =
    Blocked {| nv_im := im_rest; current_index := 0; last_countdown := 5;
               shown := [("A"%string, 5)] |} /\
  (forall idx, (0 <= idx < 3)%Z ->
     ((idx - 1) mod 3)%Z <> idx /\ ((idx + 1) mod 3)%Z <> idx).
Proof.
  assert (Hne : abc <> []) by discriminate.
  destruct (navigate_choice_steps abc 5 0 im_rest Hne) as (H0 & _ & _ & _ & Hch).
  split; [exact H0|].
  intros idx Hidx. apply Hch; simpl; lia.
Defined.

(** The example of the specification: from "A", a right press shows "B", a
    left press shows "A" again, the encoder press returns 0; without input
    the call returns -1 once more than 5 s have passed. *)
Example navigate_choice_abc :
  (exists s, navigate_choice abc 5 0 im_rest (firstn 1 right_left_commit) = Blocked s /\
             current_index s = 1%Z /\ last (shown s) = Some ("B"%string, 4)) /\
  (exists s, navigate_choice abc 5 0 im_rest (firstn 2 right_left_commit) = Blocked s /\
             current_index s = 0%Z /\ last (shown s) = Some ("A"%string, 4)) /\
  returned (navigate_choice abc 5 0 im_rest right_left_commit) = Some 0%Z /\
  returned (navigate_choice abc 5 0 im_rest idle_until_timeout) = Some (-1)%Z /\
  returned (navigate_choice abc 5 0 im_rest (firstn 3 idle_until_timeout)) = None.
Proof.
  split; [eexists; split; [vm_compute; reflexivity|split; reflexivity]|].
  split; [eexists; split; [vm_compute; reflexivity|split; reflexivity]|].
  repeat split; vm_compute; reflexivity.
Qed.

(** C6 as stated fails for a single choice: a press calls the display
    callback although it leaves the index where it was and the countdown
    has not fallen. *)
Lemma navigate_choice_redraw_without_change :
  ~ (forall (choices : list string) (timeout_s start_time : Q)
            (im : InputManager) (pre : list Tick) (t : Tick) (s1 s2 : NavState),
        navigate_choice choices timeout_s start_time im pre = Blocked s1 ->
        navigate_choice choices timeout_s start_time im (pre ++ [t]) = Blocked s2 ->
        left_fell t && right_fell t = false ->
        shown s2 <> shown s1 ->
        current_index s2 <> current_index s1 \/
        last_countdown s2 < last_countdown s1).
Proof.
  intros H.
  set (pre := [tick_buttons 0.1 true false true false false]).
  set (t := tick_buttons 0.2 false true true false false).
  destruct (navigate_choice ["A"%string] 5 0 im_rest pre) as [s1|s1 r1|e1] eqn:E1;
    [|vm_compute in E1; discriminate..].
  destruct (navigate_choice ["A"%string] 5 0 im_rest (pre ++ [t])) as [s2|s2 r2|e2] eqn:E2;
    [|vm_compute in E2; discriminate..].
  specialize (H ["A"%string] 5 0 im_rest pre t s1 s2 E1 E2 eq_refl).
  vm_compute in E1, E2. injection E1 as <-. injection E2 as <-.
  destruct H as [H|H].
  - simpl. discriminate.
  - apply H. reflexivity.
  - vm_compute in H. discriminate.
Qed.

(** ** Confirmation counters of [detect_movement] *)

Section Confirm.

Variable req : gset string.

Lemma confirm_axis_count_same a diff st :
  a ∈ req ->
  fst (confirm_axis a diff req st) !!! a =
  if Qgtb diff MOTION_THRESHOLD then S (fst st !!! a) else O.
Proof.
  intros Ha. destruct st as [cc det]. unfold confirm_axis. rewrite bool_decide_eq_true_2 by exact Ha.
  destruct (Qgtb diff MOTION_THRESHOLD).
  - match goal with |- context [if ?c then _ else _] => destruct c end;
      simpl; apply lookup_total_insert_eq.
  - simpl. apply lookup_total_insert_eq.
Qed.

Lemma confirm_axis_count_other a b diff st :
  a <> b -> fst (confirm_axis b diff req st) !!! a = fst st !!! a.
Proof.
  intros Hab. destruct st as [cc det]. unfold confirm_axis.
  destruct (bool_decide (b ∈ req)); [|reflexivity].
  destruct (Qgtb diff MOTION_THRESHOLD).
  - match goal with |- context [if ?c then _ else _] => destruct c end;
      simpl; apply lookup_total_insert_ne; congruence.
  - simpl. apply lookup_total_insert_ne. congruence.
Qed.

Lemma confirm_axis_detected a diff st x :
  x ∈ snd (confirm_axis a diff req st) <->
  x ∈ snd st \/
  (x = a /\ a ∈ req /\
   (CONFIRM_THRESHOLD <= fst (confirm_axis a diff req st) !!! a)%nat /\
   MOTION_THRESHOLD * 1.2 < diff).
Proof.
  destruct st as [cc det]. unfold confirm_axis.
  destruct (bool_decide_reflect (a ∈ req)) as [Ha|Ha]; [|simpl; tauto].
  destruct (Qgtb diff MOTION_THRESHOLD) eqn:Hd.
  - destruct (Nat.leb_spec CONFIRM_THRESHOLD (<[a:=S (cc !!! a)]> cc !!! a)) as [Hc|Hc];
      destruct (Qgtb diff (MOTION_THRESHOLD * 1.2)) eqn:Hs;
      destruct (bool_decide_reflect (a ∈ det)) as [Hin|Hin];
      cbn [andb negb fst snd];
      rewrite ?elem_of_union, ?elem_of_singleton;
      try apply Qgtb_true in Hs; try apply Qgtb_false in Hs;
      split; try tauto.
    all: try (intros [H|(-> & _ & H1 & H2)]; [tauto| try tauto; try lia; try lra]).
  - cbn [fst snd]. rewrite lookup_total_insert_eq. split; [tauto|].
    intros [H|(_ & _ & H & _)]; [exact H|]. unfold CONFIRM_THRESHOLD in H. lia.
Qed.

Lemma confirm_tick_count a d st :
  is_axis a -> a ∈ req ->
  fst (confirm_tick req d st) !!! a =
  if Qgtb (axis_diff a d) MOTION_THRESHOLD then S (fst st !!! a) else O.
Proof.
  intros Hax Ha. destruct d as [[dx dy] dz]. unfold confirm_tick.
  destruct Hax as [-> | [-> | ->]]; unfold axis_diff; simpl String.eqb; cbv iota.
  - rewrite !confirm_axis_count_other by discriminate.
    apply confirm_axis_count_same, Ha.
  - rewrite confirm_axis_count_other by discriminate.
    rewrite confirm_axis_count_same by exact Ha.
    rewrite confirm_axis_count_other by discriminate. reflexivity.
  - rewrite confirm_axis_count_same by exact Ha.
    rewrite !confirm_axis_count_other by discriminate. reflexivity.
Qed.

Lemma confirm_tick_detected d st x :
  x ∈ snd (confirm_tick req d st) <->
  x ∈ snd st \/
  (is_axis x /\ x ∈ req /\
   (CONFIRM_THRESHOLD <= fst (confirm_tick req d st) !!! x)%nat /\
   MOTION_THRESHOLD * 1.2 < axis_diff x d).
Proof.
  destruct d as [[dx dy] dz]. unfold confirm_tick.
  rewrite !confirm_axis_detected. unfold is_axis.
  split.
  - intros [[[H|H]|H]|H]; [tauto|right..].
    + destruct H as (-> & Hr & Hc & Hs). repeat split; auto.
      rewrite !confirm_axis_count_other by discriminate. exact Hc.
    + destruct H as (-> & Hr & Hc & Hs). repeat split; auto.
      rewrite confirm_axis_count_other by discriminate. exact Hc.
    + destruct H as (-> & Hr & Hc & Hs). repeat split; auto.
  - intros [H|([-> | [-> | ->]] & Hr & Hc & Hs)]; [tauto|..].
    + left. left. right. repeat split; auto.
      rewrite !confirm_axis_count_other in Hc by discriminate. exact Hc.
    + left. right. repeat split; auto.
      rewrite confirm_axis_count_other in Hc by discriminate. exact Hc.
    + right. repeat split; auto.
Qed.

Lemma confirm_tick_mono d st : snd st ⊆ snd (confirm_tick req d st).
Proof. intros x Hx. apply confirm_tick_detected. auto. Qed.

End Confirm.

Section ConfirmRun.

Variables (req : gset string) (a : string).
Hypothesis a_axis : is_axis a.
Hypothesis a_required : a ∈ req.

Lemma confirm_run_snoc ds d :
  confirm_run req (ds ++ [d]) = confirm_tick req d (confirm_run req ds).
Proof. unfold confirm_run. rewrite fold_left_app. reflexivity. Qed.

Lemma streak_zero ds : streak a ds 0.
Proof. exists ds, []. rewrite app_nil_r. repeat split. constructor. Qed.

Lemma streak_snoc ds d m :
  streak a (ds ++ [d]) (S m) <-> streak a ds m /\ exceeds a d.
Proof.
  split.
  - intros (pre & w & Heq & Hlen & Hall).
    induction w as [|x w _] using rev_ind; [discriminate|].
    rewrite app_assoc in Heq. apply app_inj_tail in Heq. destruct Heq as [-> <-].
    rewrite length_app in Hlen. simpl in Hlen.
    apply Forall_app in Hall. destruct Hall as [Hw Hd].
    split; [|inversion Hd; assumption].
    exists pre, w. repeat split; [lia|exact Hw].
  - intros [(pre & w & -> & Hlen & Hall) Hd].
    exists pre, (w ++ [d]). rewrite app_assoc. split; [reflexivity|].
    split; [rewrite length_app; simpl; lia|].
    apply Forall_app. split; [exact Hall|]. constructor; [exact Hd|constructor].
Qed.

Lemma streak_nil m : streak a [] m <-> m = 0%nat.
Proof.
  split.
  - intros (pre & w & Heq & Hlen & _). symmetry in Heq.
    apply app_eq_nil in Heq. destruct Heq as [_ ->]. simpl in Hlen. lia.
  - intros ->. apply streak_zero.
Qed.

(** The counter of a required axis is the length of the current streak. *)
Lemma confirm_run_count ds m :
  (m <= fst (confirm_run req ds) !!! a)%nat <-> streak a ds m.
Proof.
  revert m. induction ds as [|d ds IH] using rev_ind; intros m.
  - rewrite streak_nil.
    assert (H0 : fst (confirm_run req []) !!! a = 0%nat).
    { destruct a_axis as [-> | [-> | ->]]; reflexivity. }
    rewrite H0. lia.
  - rewrite confirm_run_snoc, confirm_tick_count by assumption.
    destruct m as [|m].
    + split; [intros _; apply streak_zero | lia].
    + rewrite streak_snoc, <- IH. unfold exceeds.
      destruct (Qgtb (axis_diff a d) MOTION_THRESHOLD) eqn:Hd.
      * apply Qgtb_true in Hd. split; [intros H; split; [lia|exact Hd] | lia].
      * apply Qgtb_false in Hd. split; [lia|]. intros [_ H]. lra.
Qed.

Lemma confirming_window_nil : ~ confirming_window a [].
Proof.
  intros (pre & d1 & d2 & d3 & d4 & d5 & post & Heq & _).
  apply (f_equal (@length _)) in Heq. rewrite length_app in Heq. simpl in Heq. lia.
Qed.

Lemma confirming_window_snoc ds d :
  confirming_window a (ds ++ [d]) <->
  confirming_window a ds \/
  (streak a (ds ++ [d]) 5 /\ MOTION_THRESHOLD * 1.2 < axis_diff a d).
Proof.
  split.
  - intros (pre & d1 & d2 & d3 & d4 & d5 & post & Heq & H1 & H2 & H3 & H4 & H5 & Hs).
    induction post as [|x post _] using rev_ind.
    + right. rewrite app_nil_r in Heq.
      change [d1; d2; d3; d4; d5] with ([d1; d2; d3; d4] ++ [d5]) in Heq.
      rewrite app_assoc in Heq. apply app_inj_tail in Heq. destruct Heq as [Hds <-].
      split; [|exact Hs].
      exists pre, [d1; d2; d3; d4; d]. rewrite Hds, <- app_assoc.
      repeat split. repeat constructor; assumption.
    + left. rewrite !app_assoc in Heq. apply app_inj_tail in Heq.
      destruct Heq as [Hds _]. rewrite <- app_assoc in Hds.
      exists pre, d1, d2, d3, d4, d5, post. repeat split; assumption.
  - intros [(pre & d1 & d2 & d3 & d4 & d5 & post & -> & H)|[(pre & w & Heq & Hlen & Hall) Hs]].
    + exists pre, d1, d2, d3, d4, d5, (post ++ [d]).
      rewrite <- !app_assoc. split; [reflexivity|exact H].
    + destruct w as [|d1 [|d2 [|d3 [|d4 [|d5 [|]]]]]]; simpl in Hlen; try discriminate.
      assert (Hd5 : d5 = d).
      { change [d1; d2; d3; d4; d5] with ([d1; d2; d3; d4] ++ [d5]) in Heq.
        rewrite app_assoc in Heq. apply app_inj_tail in Heq. symmetry. apply Heq. }
      subst d5. exists pre, d1, d2, d3, d4, d, [].
      rewrite app_nil_r.
      repeat match goal with H : Forall _ (_ :: _) |- _ => inversion H; subst; clear H end.
      repeat split; assumption.
Qed.

(** An axis is confirmed exactly when the diffs contain a confirming
    window. *)
Lemma confirm_run_detected ds :
  a ∈ snd (confirm_run req ds) <-> confirming_window a ds.
Proof.
  induction ds as [|d ds IH] using rev_ind.
  - split; [intros H; exact (match not_elem_of_empty a H with end)|].
    intros H. destruct (confirming_window_nil H).
  - rewrite confirming_window_snoc, <- IH, <- confirm_run_count.
    rewrite confirm_run_snoc at 1. rewrite confirm_tick_detected.
    rewrite <- confirm_run_snoc. unfold CONFIRM_THRESHOLD. tauto.
Qed.

End ConfirmRun.

Lemma diff_trace_snoc pre : forall im t im1 im2,
  filter_after im pre = Ok im1 ->
  update im1 t = Ok im2 ->
  diff_trace im (pre ++ [t]) = diff_trace im pre ++ [diffs im2] /\
  filter_after im (pre ++ [t]) = Ok im2.
Proof.
  induction pre as [|u pre IH]; intros im t im1 im2 Hpre Hu; simpl in *.
  - injection Hpre as <-. rewrite Hu. auto.
  - destruct (update im u) as [im'|e]; [|discriminate].
    destruct (IH im' t im1 im2 Hpre Hu) as [-> ->]. auto.
Qed.

Lemma detect_movement_body_required timeout_s req start_time s t im' :
  update (mv_im s) t = Ok im' ->
  detect_movement_body timeout_s (Some req) start_time s t =
  let st := confirm_tick req (diffs im') (confirm_count s, detected s) in
  let s' := {| mv_im := im'; confirm_count := fst st; detected := snd st |} in
  if bool_decide (req ⊆ snd st) then Return s' true
  else if timed_out timeout_s start_time t then Return s' false
  else Continue s'.
Proof.
  intros Hu. unfold detect_movement_body. rewrite Hu.
  unfold after_update, detect_movement_checks.
  destruct (diffs im') as [[dx dy] dz]. cbv zeta.
  destruct (confirm_tick req (dx, dy, dz) (confirm_count s, detected s)) as [cc det].
  reflexivity.
Qed.

(** While the call loops, its counters and confirmed set are those of the
    diffs seen so far. *)
Lemma detect_movement_blocked timeout_s req start_time im ticks s :
  run_loop (detect_movement_body timeout_s (Some req) start_time)
    {| mv_im := im; confirm_count := confirm_count_init; detected := ∅ |} ticks
  = Blocked s ->
  filter_after im ticks = Ok (mv_im s) /\
  (confirm_count s, detected s) = confirm_run req (diff_trace im ticks).
Proof.
  revert ticks s.
  apply (run_loop_invariant_pre _
           (fun pre s => filter_after im pre = Ok (mv_im s) /\
                         (confirm_count s, detected s)
                         = confirm_run req (diff_trace im pre))).
  - split; reflexivity.
  - intros pre s1 t s2 [Hf Hc] _ Hb.
    destruct (update (mv_im s1) t) as [im'|e] eqn:Hu;
      [|unfold detect_movement_body in Hb; rewrite Hu in Hb; discriminate].
    rewrite (detect_movement_body_required _ _ _ _ _ _ Hu) in Hb.
    cbv zeta in Hb.
    destruct (bool_decide _); [discriminate|].
    destruct (timed_out timeout_s start_time t); [discriminate|].
    injection Hb as <-.
    destruct (diff_trace_snoc pre im t (mv_im s1) im' Hf Hu) as [Ed Ef].
    split; [exact Ef|].
    rewrite Ed, confirm_run_snoc, <- Hc. symmetry. apply surjective_pairing.
Qed.

Lemma filter_after_snoc pre : forall im t,
  filter_after im (pre ++ [t]) =
  match filter_after im pre with
  | Ok im1 => update im1 t
  | Exc e => Exc e
  end.
Proof.
  induction pre as [|u pre IH]; intros im t; simpl.
  - destruct (update im t); reflexivity.
  - destruct (update im u) as [im'|e]; [apply IH|reflexivity].
Qed.

Lemma undecided_prefix timeout_s req start_time im l post :
  undecided timeout_s req start_time im (l ++ post) ->
  undecided timeout_s req start_time im l.
Proof.
  intros H pre t post' ->. apply (H pre t (post' ++ post)).
  rewrite <- app_assoc. reflexivity.
Qed.

(** The outcome of the iteration that follows a looping prefix, in terms
    of the diffs of the run. *)
Lemma detect_movement_next timeout_s req start_time im pre t s0 im' :
  run_loop (detect_movement_body timeout_s (Some req) start_time)
    {| mv_im := im; confirm_count := confirm_count_init; detected := ∅ |} pre
  = Blocked s0 ->
  update (mv_im s0) t = Ok im' ->
  let st := confirm_run req (diff_trace im (pre ++ [t])) in
  let s' := {| mv_im := im'; confirm_count := fst st; detected := snd st |} in
  filter_after im (pre ++ [t]) = Ok im' /\
  detect_movement_body timeout_s (Some req) start_time s0 t =
  if bool_decide (req ⊆ snd st) then Return s' true
  else if timed_out timeout_s start_time t then Return s' false
  else Continue s'.
Proof.
  intros Hpre Hu.
  destruct (detect_movement_blocked _ _ _ _ _ _ Hpre) as [Hf Hc].
  destruct (diff_trace_snoc pre im t (mv_im s0) im' Hf Hu) as [Ed Ef].
  cbv zeta. split; [exact Ef|].
  rewrite (detect_movement_body_required _ _ _ _ _ _ Hu). cbv zeta.
  rewrite Ed, confirm_run_snoc, <- Hc. reflexivity.
Qed.

(** The call is still in its loop exactly when every read succeeded and
    nothing has ended it. *)
Lemma detect_movement_looping timeout_s req start_time im ticks :
  (exists s,
     run_loop (detect_movement_body timeout_s (Some req) start_time)
       {| mv_im := im; confirm_count := confirm_count_init; detected := ∅ |} ticks
     = Blocked s) <->
  (exists im', filter_after im ticks = Ok im') /\
  undecided timeout_s req start_time im ticks.
Proof.
  split.
  - intros [s H]. split.
    { exists (mv_im s). eapply detect_movement_blocked, H. }
    intros pre t post ->. rewrite run_loop_app in H.
    destruct (run_loop _ _ pre) as [s0|s0 r0|e] eqn:Hpre; try discriminate.
    simpl in H.
    destruct (detect_movement_body timeout_s (Some req) start_time s0 t)
      as [s1|s1 r1|e] eqn:Hb; try discriminate.
    destruct (update (mv_im s0) t) as [im'|e] eqn:Hu;
      [|unfold detect_movement_body in Hb; rewrite Hu in Hb; discriminate].
    destruct (detect_movement_next _ _ _ _ _ _ _ _ Hpre Hu) as [_ Hn].
    cbv zeta in Hn. rewrite Hn in Hb.
    destruct (bool_decide_reflect
                (req ⊆ snd (confirm_run req (diff_trace im (pre ++ [t])))))
      as [Hsub|Hsub]; [discriminate|].
    destruct (timed_out timeout_s start_time t); [discriminate|]. auto.
  - induction ticks as [|t l IH] using rev_ind; intros [[im' Hf] Hun].
    + eexists. reflexivity.
    + rewrite filter_after_snoc in Hf.
      destruct (filter_after im l) as [im1|e] eqn:Hl; [|discriminate].
      destruct IH as [s0 Hpre].
      { split; [eauto|]. eapply undecided_prefix, Hun. }
      destruct (detect_movement_blocked _ _ _ _ _ _ Hpre) as [Hf0 _].
      rewrite Hl in Hf0. injection Hf0 as ->.
      destruct (detect_movement_next _ _ _ _ _ _ _ _ Hpre Hf) as [_ Hn].
      cbv zeta in Hn.
      destruct (Hun l t [] eq_refl) as [Hsub Hto].
      rewrite bool_decide_eq_false_2, Hto in Hn by exact Hsub.
      rewrite run_loop_app, Hpre. simpl. rewrite Hn. eexists. reflexivity.
Qed.

(** C2: with [require_axes], the counter of each required axis goes up by
    one on a tick whose diff exceeds [MOTION_THRESHOLD] and back to 0 on any
    other tick; the axis joins the confirmed set exactly when its counter
    has reached 5 and the diff of that tick exceeds [MOTION_THRESHOLD * 1.2],
    that is when five consecutive ticks exceed the threshold with the
    stricter bound on the fifth; a confirmed axis is never removed; and the
    call returns [True] exactly when the confirmed set contains the required
    set: it stays in its loop, with these counters and this set, as long as
    every read succeeds, the confirmed set does not contain the required
    set and no timeout check fires, and it returns [True] at the first tick
    where the confirmed set contains the required set. *)
Theorem detect_movement_confirmation (timeout_s : option Q)
  (require_axes : option (list string)) (req : gset string)
  (start_time : Q) (im : InputManager) :
  required_of require_axes = Some req ->
  (forall a d st, is_axis a -> a ∈ req ->
     fst (confirm_tick req d st) !!! a =
     if Qgtb (axis_diff a d) MOTION_THRESHOLD then S (fst st !!! a) else O) /\
  (forall a d st,
     a ∈ snd (confirm_tick req d st) <->
     a ∈ snd st \/
     (is_axis a /\ a ∈ req /\
      (5 <= fst (confirm_tick req d st) !!! a)%nat /\
      MOTION_THRESHOLD * 1.2 < axis_diff a d)) /\
  (forall a ds, is_axis a -> a ∈ req ->
     (forall m, (m <= fst (confirm_run req ds) !!! a)%nat <-> streak a ds m) /\
     (a ∈ snd (confirm_run req ds) <-> confirming_window a ds)) /\
  (forall ticks s,
     detect_movement timeout_s require_axes start_time im ticks = Blocked s ->
     (confirm_count s, detected s) = confirm_run req (diff_trace im ticks)) /\
  (forall pre t s0 im',
     detect_movement timeout_s require_axes start_time im pre = Blocked s0 ->
     update (mv_im s0) t = Ok im' ->
     ((exists s, detect_movement timeout_s require_axes start_time im (pre ++ [t])
                 = Returned s true) <->
      req ⊆ snd (confirm_run req (diff_trace im (pre ++ [t]))))) /\
  (forall ticks,
     (exists s,
        detect_movement timeout_s require_axes start_time im ticks = Blocked s /\
        filter_after im ticks = Ok (mv_im s) /\
        (confirm_count s, detected s) = confirm_run req (diff_trace im ticks)) <->
     (exists im', filter_after im ticks = Ok im') /\
     undecided timeout_s req start_time im ticks) /\
  (forall pre t post im',
     filter_after im (pre ++ [t]) = Ok im' ->
     undecided timeout_s req start_time im pre ->
     req ⊆ snd (confirm_run req (diff_trace im (pre ++ [t]))) ->
     exists s,
       detect_movement timeout_s require_axes start_time im (pre ++ t :: post)
         = Returned s true /\
       mv_im s = im' /\
       (confirm_count s, detected s)
         = confirm_run req (diff_trace im (pre ++ [t]))) /\
  (forall ticks s,
     detect_movement timeout_s require_axes start_time im ticks = Returned s true ->
     exists pre t post,
       ticks = pre ++ t :: post /\
       filter_after im (pre ++ [t]) = Ok (mv_im s) /\
       undecided timeout_s req start_time im pre /\
       req ⊆ snd (confirm_run req (diff_trace im (pre ++ [t])))).
Proof.
  intros Hreq.
  split; [intros a d st Hax Ha; apply confirm_tick_count; assumption|].
  split; [intros a d st; apply confirm_tick_detected|].
  split.
  { intros a ds Hax Ha. split.
    - intros m. apply confirm_run_count; assumption.
    - apply confirm_run_detected; assumption. }
  unfold detect_movement. rewrite Hreq.
  split.
  { intros ticks s H. eapply detect_movement_blocked, H. }
  split.
  { intros pre t s0 im' Hpre Hu.
    destruct (detect_movement_next timeout_s _ _ _ _ _ _ _ Hpre Hu) as [_ Hn].
    cbv zeta in Hn.
    rewrite run_loop_app, Hpre. simpl run_loop. rewrite Hn.
    destruct (bool_decide_reflect
                (req ⊆ snd (confirm_run req (diff_trace im (pre ++ [t])))))
      as [Hsub|Hsub].
    - split; [intros _; exact Hsub|]. intros _. eexists. reflexivity.
    - split; [|intros H; destruct (Hsub H)].
      intros [s H]. destruct (timed_out timeout_s start_time t); discriminate. }
  split.
  { intros ticks. rewrite <- detect_movement_looping. split.
    - intros (s & H & _). eauto.
    - intros [s H]. exists s. split; [exact H|].
      eapply detect_movement_blocked, H. }
  split.
  { intros pre t post im' Hf Hun Hsub.
    pose proof Hf as Hf'. rewrite filter_after_snoc in Hf'.
    destruct (filter_after im pre) as [im1|e] eqn:Hl; [|discriminate].
    destruct (proj2 (detect_movement_looping timeout_s req start_time im pre))
      as [s0 Hpre]; [split; [eauto|exact Hun]|].
    destruct (detect_movement_blocked _ _ _ _ _ _ Hpre) as [Hf0 _].
    rewrite Hl in Hf0. injection Hf0 as ->.
    destruct (detect_movement_next _ _ _ _ _ _ _ _ Hpre Hf') as [_ Hn].
    cbv zeta in Hn. rewrite bool_decide_eq_true_2 in Hn by exact Hsub.
    rewrite run_loop_app, Hpre. simpl run_loop. rewrite Hn.
    eexists. split; [reflexivity|]. split; [reflexivity|].
    simpl. symmetry. apply surjective_pairing. }
  intros ticks s H.
  destruct (run_loop_returned _ _ _ _ _ H) as (pre & t & post & s0 & -> & Hpre & Ht).
  exists pre, t, post. split; [reflexivity|].
  destruct (update (mv_im s0) t) as [im'|e] eqn:Hu;
    [|unfold detect_movement_body in Ht; rewrite Hu in Ht; discriminate].
  destruct (detect_movement_next _ _ _ _ _ _ _ _ Hpre Hu) as [Hf Hn].
  cbv zeta in Hn. rewrite Hn in Ht.
  destruct (bool_decide_reflect
              (req ⊆ snd (confirm_run req (diff_trace im (pre ++ [t])))))
    as [Hsub|Hsub].
  - injection Ht as <-. split; [exact Hf|]. split; [|exact Hsub].
    apply (detect_movement_looping timeout_s req start_time im pre). eauto.
  - destruct (timed_out timeout_s start_time t); discriminate.
Qed.

Lemma detect_movement_confirmation_witness :
  (exists s4,
     detect_movement None (Some ["x"%string]) 0 im_rest (firstn 4 shake_x)
       = Blocked s4 /\
     confirm_count s4 !!! "x"%string = 4%nat /\ detected s4 = ∅) /\
  (exists s,
     detect_movement None (Some ["x"%string]) 0 im_rest shake_x = Returned s true /\
     detected s = {[ "x"%string ]}).
Proof.
  pose proof (detect_movement_confirmation None (Some ["x"%string])
                (axes_set_of ["x"%string]) 0 im_rest eq_refl)
    as (_ & _ & _ & H4 & H5 & H6 & H7 & _).
  eassert (Hpre : detect_movement None (Some ["x"%string]) 0 im_rest (firstn 4 shake_x)
                  = Blocked _) by (vm_compute; reflexivity).
  split.
  - eexists. split; [exact Hpre|]. split; vm_compute; reflexivity.
  - assert (Hun : undecided None (axes_set_of ["x"%string]) 0 im_rest
                    (firstn 4 shake_x)).
    { apply (proj1 (H6 (firstn 4 shake_x))). eexists. split; [exact Hpre|].
      split; [vm_compute; reflexivity|]. apply (H4 _ _ Hpre). }
    eassert (Hf : filter_after im_rest
                    (firstn 4 shake_x ++ [tick_at 0.10 (Some (2, 0, 0))]) = Ok _)
      by (vm_compute; reflexivity).
    assert (Hsub : axes_set_of ["x"%string]
                   ⊆ snd (confirm_run (axes_set_of ["x"%string])
                            (diff_trace im_rest
                               (firstn 4 shake_x ++ [tick_at 0.10 (Some (2, 0, 0))])))).
    { eassert (Hu : update _ (tick_at 0.10 (Some (2, 0, 0))) = Ok _)
        by (apply update_ok; reflexivity).
      apply (proj1 (H5 (firstn 4 shake_x) (tick_at 0.10 (Some (2, 0, 0))) _ _
                      Hpre Hu)).
      eexists. vm_compute. reflexivity. }
    destruct (H7 (firstn 4 shake_x) (tick_at 0.10 (Some (2, 0, 0))) [] _ Hf Hun Hsub)
      as (s & Hs & _ & Hc).
    exists s. split; [exact Hs|].
    apply (f_equal snd) in Hc. cbn [snd] in Hc. rewrite Hc.
    vm_compute. reflexivity.
Defined.

(** * Further properties of the input layer *)

(** ** Ends of a run *)

Lemma run_loop_ends {S R : Type} (body : S -> Tick -> Outcome S R)
  (P : S -> Prop) (Q : S -> R -> Prop) :
  (forall s t s', P s -> body s t = Continue s' -> P s') ->
  (forall s t s' r, P s -> body s t = Return s' r -> Q s' r) ->
  forall ticks s,
    P s ->
    match run_loop body s ticks with
    | Blocked s' => P s'
    | Returned s' r => Q s' r
    | Raised _ => True
    end.
Proof.
  intros Hc Hr ticks. induction ticks as [|t ts IH]; intros s Hs; simpl; [exact Hs|].
  destruct (body s t) as [s1|s1 r1|e] eqn:E.
  - apply IH. eapply Hc; eauto.
  - eapply Hr; eauto.
  - exact I.
Qed.

(** ** The smoothing never overshoots *)

Lemma ema_filter_lower lo raw f alpha :
  0 <= alpha <= 1 -> lo <= raw -> lo <= f -> lo <= ema_filter raw f alpha.
Proof. intros [Ha0 Ha1] Hr Hf. unfold ema_filter. nra. Qed.

Lemma ema_filter_upper hi raw f alpha :
  0 <= alpha <= 1 -> raw <= hi -> f <= hi -> ema_filter raw f alpha <= hi.
Proof. intros [Ha0 Ha1] Hr Hf. unfold ema_filter. nra. Qed.

Lemma alpha_unit : 0 <= ACCEL_EMA_ALPHA <= 1.
Proof. split; discriminate. Qed.

(** ** Tilt detectors and [stay_still] *)

(** [detect_tilt_left] on a device that never leans left of the threshold
    never returns [True] and returns [False] at the first loop test after
    the timeout; a [True] return leaves [x_filtered] below the threshold. *)
Theorem detect_tilt_left_level (timeout_s start_time : Q) (im : InputManager)
  (ticks : list Tick) :
  (forall s, detect_tilt_left timeout_s start_time im ticks = Returned s true ->
     x_filtered s < - TILT_THRESHOLD) /\
  (- TILT_THRESHOLD <= x_filtered im ->
   Forall (tick_reads (fun s => - TILT_THRESHOLD <= comp_x s)) ticks ->
   returned (detect_tilt_left timeout_s start_time im ticks) <> Some true /\
   (Exists (fun t => timeout_s <= t_loop t - start_time) ticks ->
    returned (detect_tilt_left timeout_s start_time im ticks) = Some false)).
Proof.
  split.
  - intros s H. unfold detect_tilt_left in H.
    destruct (run_loop_returned _ _ _ _ _ H) as (pre & t & post & s0 & _ & _ & Ht).
    unfold detect_tilt_left_body in Ht.
    destruct (Qltb (t_loop t - start_time) timeout_s); [|discriminate].
    unfold after_update in Ht. destruct (update s0 t) as [im'|e]; [|discriminate].
    destruct (Qltb (x_filtered im') (- TILT_THRESHOLD)) eqn:E; [|discriminate].
    injection Ht as <-. apply Qltb_true. exact E.
  - revert im. unfold detect_tilt_left.
    induction ticks as [|t ts IH]; intros im Hx Hts.
    + simpl. split; [discriminate|]. intros H. inversion H.
    + inversion Hts as [|? ? ([[x y] z] & Ha & Hs) Hrest]; subst. simpl in Hs.
      simpl. unfold detect_tilt_left_body at 1 3.
      destruct (Qltb (t_loop t - start_time) timeout_s) eqn:Hc.
      * rewrite (update_ok _ _ _ _ _ Ha). unfold after_update.
        cbn [x_filtered].
        assert (Hx' : - TILT_THRESHOLD <= ema_filter x (x_filtered im) ACCEL_EMA_ALPHA).
        { apply ema_filter_lower; [exact alpha_unit|exact Hs|exact Hx]. }
        pose proof Hx' as Hb. apply Qltb_false in Hb. rewrite Hb.
        match goal with |- context [run_loop _ ?im1 ts] =>
          destruct (IH im1 Hx' Hrest) as [IH1 IH2] end.
        split; [exact IH1|]. intros Hex. apply IH2.
        inversion Hex as [? ? H0|? ? H0]; subst; [|exact H0].
        apply Qltb_true in Hc. lra.
      * simpl. split; [discriminate|reflexivity].
Qed.

Lemma detect_tilt_left_level_witness :
  returned (detect_tilt_left 1 0 im_rest
              [tick_at 0.5 (Some (-1, 0, 0)); tick_at 1.5 (Some (0, 0, 0))])
  = Some false.
Proof.
  apply (proj2 (detect_tilt_left_level 1 0 im_rest
                  [tick_at 0.5 (Some (-1, 0, 0)); tick_at 1.5 (Some (0, 0, 0))])).
  - discriminate.
  - repeat constructor; eexists; (split; [reflexivity|]); discriminate.
  - apply Exists_cons_tl, Exists_cons_hd. discriminate.
Defined.

(** The detectors whose clock test is the [while] condition
    ([detect_tilt_left], [detect_tilt_forward_z], [stay_still]) end at the
    first iteration whose clock has reached the limit, without an
    [update()]: with a limit of 0 or less they end at once, returning
    [False], [False] and [True]. *)
Theorem while_condition_expired (limit start_time : Q) (im : InputManager)
  (t : Tick) (ts : list Tick) :
  limit <= t_loop t - start_time ->
  detect_tilt_left limit start_time im (t :: ts) = Returned im false /\
  detect_tilt_forward_z limit start_time im (t :: ts) = Returned im false /\
  stay_still limit start_time im (t :: ts) = Returned im true.
Proof.
  intros H. apply Qltb_false in H.
  unfold detect_tilt_left, detect_tilt_forward_z, stay_still. simpl.
  unfold detect_tilt_left_body, detect_tilt_forward_z_body, stay_still_body.
  rewrite H. auto.
Qed.

Lemma while_condition_expired_witness :
  detect_tilt_left 0 0 im_rest [tick_at 0 None] = Returned im_rest false /\
  detect_tilt_forward_z 0 0 im_rest [tick_at 0 None] = Returned im_rest false /\
  stay_still 0 0 im_rest [tick_at 0 None] = Returned im_rest true.
Proof.
  apply (while_condition_expired 0 0 im_rest (tick_at 0 None) []). discriminate.
Defined.

(** [detect_tilt_forward] on a device whose y axis never exceeds the
    threshold never returns [True] and, with a non-zero timeout, returns
    [False] at the first timeout check past it; a [True] return leaves
    [y_filtered] above the threshold. *)
Theorem detect_tilt_forward_level (timeout_s : option Q) (start_time : Q)
  (im : InputManager) (ticks : list Tick) :
  (forall s, detect_tilt_forward timeout_s start_time im ticks = Returned s true ->
     TILT_THRESHOLD < y_filtered s) /\
  (y_filtered im <= TILT_THRESHOLD ->
   Forall (tick_reads (fun s => comp_y s <= TILT_THRESHOLD)) ticks ->
   returned (detect_tilt_forward timeout_s start_time im ticks) <> Some true /\
   (truthy timeout_s = true ->
    Exists (fun t => timeout_value timeout_s < t_timeout t - start_time) ticks ->
    returned (detect_tilt_forward timeout_s start_time im ticks) = Some false)).
Proof.
  split.
  - intros s H. unfold detect_tilt_forward in H.
    destruct (run_loop_returned _ _ _ _ _ H) as (pre & t & post & s0 & _ & _ & Ht).
    unfold detect_tilt_forward_body, after_update in Ht.
    destruct (update s0 t) as [im'|e]; [|discriminate].
    destruct (Qgtb (y_filtered im') TILT_THRESHOLD) eqn:E.
    + injection Ht as <-. apply Qgtb_true. exact E.
    + destruct (timed_out timeout_s start_time t); discriminate.
  - revert im. unfold detect_tilt_forward.
    induction ticks as [|t ts IH]; intros im Hy Hts.
    + simpl. split; [discriminate|]. intros _ H. inversion H.
    + inversion Hts as [|? ? ([[x y] z] & Ha & Hs) Hrest]; subst. simpl in Hs.
      simpl. unfold detect_tilt_forward_body at 1 3.
      rewrite (update_ok _ _ _ _ _ Ha). unfold after_update. cbn [y_filtered].
      assert (Hy' : ema_filter y (y_filtered im) ACCEL_EMA_ALPHA <= TILT_THRESHOLD).
      { apply ema_filter_upper; [exact alpha_unit|exact Hs|exact Hy]. }
      pose proof Hy' as Hb. apply Qgtb_false in Hb. rewrite Hb.
      destruct (timed_out timeout_s start_time t) eqn:Hto.
      * simpl. split; [discriminate|reflexivity].
      * match goal with |- context [run_loop _ ?im1 ts] =>
          destruct (IH im1 Hy' Hrest) as [IH1 IH2] end.
        split; [exact IH1|]. intros Htr Hex. apply IH2; [exact Htr|].
        inversion Hex as [? ? H0|? ? H0]; subst; [|exact H0].
        rewrite (timed_out_truthy _ _ _ Htr H0) in Hto. discriminate.
Qed.

Lemma detect_tilt_forward_level_witness :
  returned (detect_tilt_forward (Some 1) 0 im_rest
              [tick_at 0.5 (Some (0, 1, 0)); tick_at 1.5 (Some (0, 0, 0))])
  = Some false.
Proof.
  apply (proj2 (detect_tilt_forward_level (Some 1) 0 im_rest
                  [tick_at 0.5 (Some (0, 1, 0)); tick_at 1.5 (Some (0, 0, 0))])).
  - discriminate.
  - repeat constructor; eexists; (split; [reflexivity|]); discriminate.
  - reflexivity.
  - apply Exists_cons_tl, Exists_cons_hd. reflexivity.
Defined.

(** [detect_tilt_forward_z] returns [True] at the first iteration, entered
    before the timeout, whose [update()] leaves [z_filtered] further than
    [TILT_THRESHOLD] from [baseline_z], and only on such a state; it
    returns [False] only at a loop test that finds the timeout elapsed. *)
Theorem detect_tilt_forward_z_crossing (timeout_s start_time : Q)
  (im : InputManager) (ticks : list Tick) :
  (forall s, detect_tilt_forward_z timeout_s start_time im ticks = Returned s true ->
     TILT_THRESHOLD < Qabs (z_filtered s - baseline_z s)) /\
  (forall pre t post s0 im',
     ticks = pre ++ t :: post ->
     detect_tilt_forward_z timeout_s start_time im pre = Blocked s0 ->
     t_loop t - start_time < timeout_s ->
     update s0 t = Ok im' ->
     TILT_THRESHOLD < Qabs (z_filtered im' - baseline_z im') ->
     detect_tilt_forward_z timeout_s start_time im ticks = Returned im' true) /\
  (forall s, detect_tilt_forward_z timeout_s start_time im ticks = Returned s false ->
     Exists (fun t => timeout_s <= t_loop t - start_time) ticks).
Proof.
  split; [|split].
  - intros s H. unfold detect_tilt_forward_z in H.
    destruct (run_loop_returned _ _ _ _ _ H) as (pre & t & post & s0 & _ & _ & Ht).
    unfold detect_tilt_forward_z_body in Ht.
    destruct (Qltb (t_loop t - start_time) timeout_s); [|discriminate].
    unfold after_update in Ht. destruct (update s0 t) as [im'|e]; [|discriminate].
    cbv zeta in Ht.
    destruct (Qgtb (Qabs (z_filtered im' - baseline_z im')) TILT_THRESHOLD) eqn:E;
      [|discriminate].
    injection Ht as <-. apply Qgtb_true. exact E.
  - intros pre t post s0 im' -> Hpre Hc Hu Hz.
    unfold detect_tilt_forward_z in *. rewrite run_loop_app, Hpre.
    cbn [run_loop]. unfold detect_tilt_forward_z_body.
    apply Qltb_true in Hc. rewrite Hc, Hu. unfold after_update. cbv zeta.
    apply Qgtb_true in Hz. rewrite Hz. reflexivity.
  - intros s H. unfold detect_tilt_forward_z in H.
    destruct (run_loop_returned _ _ _ _ _ H) as (pre & t & post & s0 & -> & _ & Ht).
    apply Exists_app. right. apply Exists_cons_hd.
    unfold detect_tilt_forward_z_body in Ht.
    destruct (Qltb (t_loop t - start_time) timeout_s) eqn:Hc.
    + unfold after_update in Ht. destruct (update s0 t) as [im'|e]; [|discriminate].
      cbv zeta in Ht.
      destruct (Qgtb (Qabs (z_filtered im' - baseline_z im')) TILT_THRESHOLD);
        discriminate.
    + apply Qltb_false in Hc. exact Hc.
Qed.

Lemma detect_tilt_forward_z_crossing_witness :
  exists s,
    detect_tilt_forward_z 10 0 im_rest
      [tick_at 0.5 (Some (0, 0, 1)); tick_at 1 (Some (0, 0, 9))]
    = Returned s true.
Proof.
  eassert (Hpre : detect_tilt_forward_z 10 0 im_rest [tick_at 0.5 (Some (0, 0, 1))]
                  = Blocked _) by (vm_compute; reflexivity).
  eassert (Hu : update _ (tick_at 1 (Some (0, 0, 9))) = Ok _)
    by (apply update_ok; reflexivity).
  eexists.
  apply (proj1 (proj2 (detect_tilt_forward_z_crossing 10 0 im_rest
                         [tick_at 0.5 (Some (0, 0, 1)); tick_at 1 (Some (0, 0, 9))]))
           [tick_at 0.5 (Some (0, 0, 1))] (tick_at 1 (Some (0, 0, 9))) []
           _ _ eq_refl Hpre).
  - vm_compute. reflexivity.
  - exact Hu.
  - vm_compute. reflexivity.
Defined.

Lemma stay_still_body_cases duration_s start_time im t im' :
  update im t = Ok im' ->
  stay_still_body duration_s start_time im t =
  if Qltb (t_loop t - start_time) duration_s then
    if Qgtb (Qabs (x_filtered im' - baseline_x im')) MOTION_THRESHOLD
       || Qgtb (Qabs (y_filtered im' - baseline_y im')) MOTION_THRESHOLD
       || Qgtb (Qabs (z_filtered im' - baseline_z im')) MOTION_THRESHOLD
    then Return im' false else Continue im'
  else Return im true.
Proof. intros Hu. unfold stay_still_body. rewrite Hu. reflexivity. Qed.

Lemma moved_iff im :
  Qgtb (Qabs (x_filtered im - baseline_x im)) MOTION_THRESHOLD
  || Qgtb (Qabs (y_filtered im - baseline_y im)) MOTION_THRESHOLD
  || Qgtb (Qabs (z_filtered im - baseline_z im)) MOTION_THRESHOLD = true
  <-> moved im.
Proof. unfold moved. rewrite !orb_true_iff, !Qgtb_true. tauto. Qed.

(** [stay_still] returns [False] at the first iteration, entered before
    the duration has elapsed, whose [update()] leaves some axis further
    than [MOTION_THRESHOLD] from its baseline, and only on such a state; it
    returns [True] only at a loop test that finds the duration elapsed. *)
Theorem stay_still_moved (duration_s start_time : Q) (im : InputManager)
  (ticks : list Tick) :
  (forall s, stay_still duration_s start_time im ticks = Returned s false -> moved s) /\
  (forall pre t post s0 im',
     ticks = pre ++ t :: post ->
     stay_still duration_s start_time im pre = Blocked s0 ->
     t_loop t - start_time < duration_s ->
     update s0 t = Ok im' ->
     moved im' ->
     stay_still duration_s start_time im ticks = Returned im' false) /\
  (forall s, stay_still duration_s start_time im ticks = Returned s true ->
     Exists (fun t => duration_s <= t_loop t - start_time) ticks).
Proof.
  split; [|split].
  - intros s H. unfold stay_still in H.
    destruct (run_loop_returned _ _ _ _ _ H) as (pre & t & post & s0 & _ & _ & Ht).
    destruct (update s0 t) as [im'|e] eqn:Hu.
    + rewrite (stay_still_body_cases _ _ _ _ _ Hu) in Ht.
      destruct (Qltb (t_loop t - start_time) duration_s); [|discriminate].
      match type of Ht with (if ?c then _ else _) = _ => destruct c eqn:E end;
        [|discriminate].
      injection Ht as <-. apply moved_iff. exact E.
    + unfold stay_still_body in Ht. rewrite Hu in Ht.
      destruct (Qltb (t_loop t - start_time) duration_s); discriminate.
  - intros pre t post s0 im' -> Hpre Hc Hu Hm.
    unfold stay_still in *. rewrite run_loop_app, Hpre. cbn [run_loop].
    rewrite (stay_still_body_cases _ _ _ _ _ Hu).
    apply Qltb_true in Hc. rewrite Hc.
    apply moved_iff in Hm. rewrite Hm. reflexivity.
  - intros s H. unfold stay_still in H.
    destruct (run_loop_returned _ _ _ _ _ H) as (pre & t & post & s0 & -> & _ & Ht).
    apply Exists_app. right. apply Exists_cons_hd.
    unfold stay_still_body in Ht.
    destruct (Qltb (t_loop t - start_time) duration_s) eqn:Hc.
    + unfold after_update in Ht. destruct (update s0 t) as [im'|e]; [|discriminate].
      destruct (diffs im') as [[dx dy] dz].
      match type of Ht with (if ?c then _ else _) = _ => destruct c end;
        discriminate.
    + apply Qltb_false in Hc. exact Hc.
Qed.

Lemma stay_still_moved_witness :
  exists s,
    stay_still 10 0 im_rest
      [tick_at 0.5 (Some (0.1, -0.2, 0.3)); tick_at 1 (Some (5, 0, 0))]
    = Returned s false.
Proof.
  eassert (Hpre : stay_still 10 0 im_rest [tick_at 0.5 (Some (0.1, -0.2, 0.3))]
                  = Blocked _) by (vm_compute; reflexivity).
  eassert (Hu : update _ (tick_at 1 (Some (5, 0, 0))) = Ok _)
    by (apply update_ok; reflexivity).
  eexists.
  apply (proj1 (proj2 (stay_still_moved 10 0 im_rest
                         [tick_at 0.5 (Some (0.1, -0.2, 0.3));
                          tick_at 1 (Some (5, 0, 0))]))
           [tick_at 0.5 (Some (0.1, -0.2, 0.3))] (tick_at 1 (Some (5, 0, 0))) []
           _ _ eq_refl Hpre).
  - vm_compute. reflexivity.
  - exact Hu.
  - left. vm_compute. reflexivity.
Defined.

(** ** Movement detection without required axes *)

Lemma detect_movement_body_legacy timeout_s start_time s t im' :
  update (mv_im s) t = Ok im' ->
  detect_movement_body timeout_s None start_time s t =
  let s' := {| mv_im := im'; confirm_count := confirm_count s;
               detected := detected s |} in
  if Qgtb (Qabs (x_filtered im' - baseline_x im')) MOTION_THRESHOLD
     || Qgtb (Qabs (y_filtered im' - baseline_y im')) MOTION_THRESHOLD
     || Qgtb (Qabs (z_filtered im' - baseline_z im')) MOTION_THRESHOLD
  then Return s' true
  else if timed_out timeout_s start_time t then Return s' false
  else Continue s'.
Proof.
  intros Hu. unfold detect_movement_body. rewrite Hu. reflexivity.
Qed.

Lemma stay_still_mirror_run duration_s start_time start_time' ticks : forall s,
  Forall (fun t => t_loop t - start_time < duration_s) ticks ->
  returned (run_loop (stay_still_body duration_s start_time) (mv_im s) ticks) =
  option_map negb
    (returned (run_loop (detect_movement_body None None start_time') s ticks)).
Proof.
  induction ticks as [|t ts IH]; intros s Hts; [reflexivity|].
  inversion Hts as [|? ? Ht Hrest]; subst. simpl.
  destruct (update (mv_im s) t) as [im'|e] eqn:Hu.
  - rewrite (stay_still_body_cases _ _ _ _ _ Hu).
    rewrite (detect_movement_body_legacy _ _ _ _ _ Hu). cbv zeta.
    apply Qltb_true in Ht. rewrite Ht.
    match goal with |- context [if ?c then Return im' false else _] =>
      destruct c end; [reflexivity|].
    rewrite timed_out_None.
    apply (IH {| mv_im := im'; confirm_count := confirm_count s;
                 detected := detected s |} Hrest).
  - unfold stay_still_body, detect_movement_body. rewrite Hu.
    apply Qltb_true in Ht. rewrite Ht. reflexivity.
Qed.

(** While its duration has not elapsed, [stay_still] is the negation of
    [detect_movement] without timeout and without required axes: on the
    same ticks one returns [False] exactly where the other returns
    [True]. *)
Theorem stay_still_mirrors_detect_movement (duration_s start_time start_time' : Q)
  (im : InputManager) (ticks : list Tick) :
  Forall (fun t => t_loop t - start_time < duration_s) ticks ->
  returned (stay_still duration_s start_time im ticks) =
  option_map negb (returned (detect_movement None None start_time' im ticks)).
Proof.
  intros H. unfold stay_still, detect_movement. simpl required_of.
  apply (stay_still_mirror_run duration_s start_time start_time' ticks
           {| mv_im := im; confirm_count := confirm_count_init; detected := ∅ |} H).
Qed.

Lemma stay_still_mirrors_detect_movement_witness :
  returned (stay_still 10 0 im_rest
              [tick_at 0.5 (Some (0, 0, 0)); tick_at 1 (Some (5, 0, 0))]) =
  option_map negb
    (returned (detect_movement None None 0 im_rest
                 [tick_at 0.5 (Some (0, 0, 0)); tick_at 1 (Some (5, 0, 0))])).
Proof.
  apply (stay_still_mirrors_detect_movement 10 0 0 im_rest).
  repeat constructor.
Defined.

(** Without required axes a single tick is enough: [detect_movement]
    returns [True] at the first tick whose filtered state is further than
    [MOTION_THRESHOLD] from the baseline on some axis, and only there. *)
Theorem detect_movement_first_spike (timeout_s : option Q) (start_time : Q)
  (im : InputManager) (ticks : list Tick) :
  (forall s, detect_movement timeout_s None start_time im ticks = Returned s true ->
     moved (mv_im s)) /\
  (forall pre t post s0 im',
     ticks = pre ++ t :: post ->
     detect_movement timeout_s None start_time im pre = Blocked s0 ->
     update (mv_im s0) t = Ok im' ->
     moved im' ->
     exists s, detect_movement timeout_s None start_time im ticks = Returned s true /\
               mv_im s = im').
Proof.
  split.
  - intros s H. unfold detect_movement in H. simpl required_of in H.
    destruct (run_loop_returned _ _ _ _ _ H) as (pre & t & post & s0 & _ & _ & Ht).
    destruct (update (mv_im s0) t) as [im'|e] eqn:Hu.
    + rewrite (detect_movement_body_legacy _ _ _ _ _ Hu) in Ht. cbv zeta in Ht.
      match type of Ht with (if ?c then _ else _) = _ => destruct c eqn:E end.
      * injection Ht as <-. apply moved_iff. exact E.
      * destruct (timed_out timeout_s start_time t); discriminate.
    + unfold detect_movement_body in Ht. rewrite Hu in Ht. discriminate.
  - intros pre t post s0 im' -> Hpre Hu Hm.
    unfold detect_movement in *. simpl required_of in *.
    rewrite run_loop_app, Hpre. simpl.
    rewrite (detect_movement_body_legacy _ _ _ _ _ Hu). cbv zeta.
    apply moved_iff in Hm. rewrite Hm. eexists. split; reflexivity.
Qed.

Lemma detect_movement_first_spike_witness :
  exists s, detect_movement None None 0 im_rest
              [tick_at 0.5 (Some (0, 0, 0)); tick_at 1 (Some (5, 0, 0))]
            = Returned s true.
Proof.
  eassert (Hpre : detect_movement None None 0 im_rest [tick_at 0.5 (Some (0, 0, 0))]
                  = Blocked _) by (vm_compute; reflexivity).
  eassert (Hu : update _ (tick_at 1 (Some (5, 0, 0))) = Ok _)
    by (apply update_ok; reflexivity).
  destruct (proj2 (detect_movement_first_spike None 0 im_rest
                     [tick_at 0.5 (Some (0, 0, 0)); tick_at 1 (Some (5, 0, 0))])
              [tick_at 0.5 (Some (0, 0, 0))] (tick_at 1 (Some (5, 0, 0))) []
              _ _ eq_refl Hpre Hu) as (s & Hs & _).
  - left. vm_compute. reflexivity.
  - exists s. exact Hs.
Defined.

(** ** Movement detection with required axes: latency and axis names *)

Lemma confirm_run_detected_axis req ds a :
  a ∈ snd (confirm_run req ds) -> is_axis a /\ a ∈ req.
Proof.
  induction ds as [|d ds IH] using rev_ind.
  - intros H. exact (match not_elem_of_empty a H with end).
  - rewrite confirm_run_snoc, confirm_tick_detected.
    intros [H|(Hax & Hr & _)]; auto.
Qed.

Lemma diff_trace_length im ticks : (length (diff_trace im ticks) <= length ticks)%nat.
Proof.
  revert im. induction ticks as [|t ts IH]; intros im; simpl; [lia|].
  destruct (update im t) as [im'|e]; simpl; [|lia]. specialize (IH im'). lia.
Qed.

Lemma confirming_window_length a ds : confirming_window a ds -> (5 <= length ds)%nat.
Proof.
  intros (pre & d1 & d2 & d3 & d4 & d5 & post & -> & _).
  rewrite !length_app. simpl. lia.
Qed.

Lemma detect_movement_true_detected timeout_s require_axes req start_time im ticks s :
  required_of require_axes = Some req ->
  detect_movement timeout_s require_axes start_time im ticks = Returned s true ->
  exists pre t post,
    ticks = pre ++ t :: post /\
    req ⊆ snd (confirm_run req (diff_trace im (pre ++ [t]))).
Proof.
  intros Hreq H. unfold detect_movement in H. rewrite Hreq in H.
  destruct (run_loop_returned _ _ _ _ _ H) as (pre & t & post & s0 & -> & Hpre & Ht).
  exists pre, t, post. split; [reflexivity|].
  destruct (detect_movement_blocked _ _ _ _ _ _ Hpre) as [Hf Hc].
  destruct (update (mv_im s0) t) as [im'|e] eqn:Hu;
    [|unfold detect_movement_body in Ht; rewrite Hu in Ht; discriminate].
  destruct (diff_trace_snoc pre im t (mv_im s0) im' Hf Hu) as [Ed _].
  rewrite (detect_movement_body_required _ _ _ _ _ _ Hu) in Ht. cbv zeta in Ht.
  rewrite Ed, confirm_run_snoc, <- Hc.
  destruct (bool_decide_reflect
              (req ⊆ snd (confirm_tick req (diffs im') (confirm_count s0, detected s0))))
    as [Hsub|Hsub]; [exact Hsub|].
  destruct (timed_out timeout_s start_time t); discriminate.
Qed.

(** With required axes, [detect_movement] cannot return [True] within its
    first four iterations, however strong the movement. *)
Theorem detect_movement_needs_five_ticks (timeout_s : option Q)
  (require_axes : option (list string)) (req : gset string)
  (start_time : Q) (im : InputManager) (ticks : list Tick) :
  required_of require_axes = Some req ->
  (length ticks < 5)%nat ->
  returned (detect_movement timeout_s require_axes start_time im ticks) <> Some true.
Proof.
  intros Hreq Hlen H.
  destruct (detect_movement timeout_s require_axes start_time im ticks)
    as [s1|s1 r1|e] eqn:E; try discriminate.
  injection H as ->.
  destruct (detect_movement_true_detected _ _ _ _ _ _ _ Hreq E)
    as (pre & t & post & -> & Hsub).
  destruct (set_choose_L req (required_of_nonempty _ _ Hreq)) as [a Ha].
  pose proof (Hsub a Ha) as Hdet.
  destruct (confirm_run_detected_axis _ _ _ Hdet) as [Hax _].
  apply (confirm_run_detected req a Hax Ha) in Hdet.
  apply confirming_window_length in Hdet.
  pose proof (diff_trace_length im (pre ++ [t])) as Hl.
  rewrite !length_app in *. simpl in *. lia.
Qed.

Lemma detect_movement_needs_five_ticks_witness :
  returned (detect_movement None (Some ["x"%string]) 0 im_rest (firstn 4 shake_x))
  <> Some true.
Proof.
  apply (detect_movement_needs_five_ticks None (Some ["x"%string])
           (axes_set_of ["x"%string]) 0 im_rest (firstn 4 shake_x) eq_refl).
  simpl. lia.
Defined.

(** A required axis name other than x, y or z (after lower-casing) can
    never be confirmed: the call never returns [True]. *)
Theorem detect_movement_unknown_axis (timeout_s : option Q)
  (require_axes : option (list string)) (req : gset string) (a : string)
  (start_time : Q) (im : InputManager) (ticks : list Tick) :
  required_of require_axes = Some req ->
  a ∈ req -> ~ is_axis a ->
  returned (detect_movement timeout_s require_axes start_time im ticks) <> Some true.
Proof.
  intros Hreq Ha Hna H.
  destruct (detect_movement timeout_s require_axes start_time im ticks)
    as [s1|s1 r1|e] eqn:E; try discriminate.
  injection H as ->.
  destruct (detect_movement_true_detected _ _ _ _ _ _ _ Hreq E)
    as (pre & t & post & -> & Hsub).
  destruct (confirm_run_detected_axis _ _ _ (Hsub a Ha)) as [Hax _].
  exact (Hna Hax).
Qed.

Lemma detect_movement_unknown_axis_witness :
  returned (detect_movement None (Some ["x"; "w"]%string) 0 im_rest
              (shake_x ++ shake_x)) <> Some true.
Proof.
  apply (detect_movement_unknown_axis None (Some ["x"; "w"]%string)
           (axes_set_of ["x"; "w"]%string) "w"%string 0 im_rest
           (shake_x ++ shake_x) eq_refl).
  - vm_compute. reflexivity.
  - intros [H|[H|H]]; discriminate.
Defined.

(** ** Calibration: errors *)

Lemma calibrate_loop_fail acc j : forall k n sums rs,
  readings acc k j = Some rs -> acc (k + j)%nat = None -> (j < n)%nat ->
  calibrate_loop acc k n sums = Exc OSError.
Proof.
  induction j as [|j IH]; intros k n sums rs Hrs Hfail Hlt.
  - destruct n as [|n]; [lia|]. simpl. rewrite Nat.add_0_r in Hfail.
    rewrite Hfail. reflexivity.
  - destruct n as [|n]; [lia|]. simpl in *.
    destruct (acc k) as [[[x y] z]|]; [|discriminate].
    destruct (readings acc (S k) j) as [rs'|] eqn:E; [|discriminate].
    destruct sums as [[sx sy] sz].
    apply (IH (S k) n _ rs' E); [|lia].
    replace (S k + j)%nat with (k + S j)%nat by lia. exact Hfail.
Qed.

(** Error and edge behaviour of [calibrate]: [samples = 0] divides by zero
    (after no read at all), a negative [samples] reads nothing and returns
    zeros, and a read that fails before [samples] readings were taken
    aborts the calibration with that error. *)
Theorem calibrate_errors (acc : accelerometer) :
  calibrate acc 0 = Exc ZeroDivisionError /\
  (forall samples, (samples < 0)%Z ->
     exists bx by_ bz, calibrate acc samples = Ok (bx, by_, bz) /\
                       bx == 0 /\ by_ == 0 /\ bz == 0) /\
  (forall samples j rs,
     (j < Z.to_nat samples)%nat ->
     readings acc 0 j = Some rs -> acc j = None ->
     calibrate acc samples = Exc OSError).
Proof.
  split; [reflexivity|]. split.
  - intros samples Hneg. unfold calibrate.
    replace (Z.to_nat samples) with 0%nat by lia. simpl calibrate_loop.
    cbn [mbind result_bind].
    destruct (Z.eqb_spec samples 0) as [?|_]; [lia|].
    eexists _, _, _. split; [reflexivity|].
    assert (H0 : 0 / inject_Z samples == 0) by (unfold Qdiv; ring).
    auto.
  - intros samples j rs Hlt Hrs Hfail. unfold calibrate.
    rewrite (calibrate_loop_fail acc j 0%nat _ _ rs Hrs Hfail Hlt). reflexivity.
Qed.

Lemma calibrate_errors_witness :
  calibrate (fun k => if (k <? 2)%nat then Some (1, 1, 1) else None) 100
  = Exc OSError.
Proof.
  apply (proj2 (proj2 (calibrate_errors
                         (fun k => if (k <? 2)%nat then Some (1, 1, 1) else None)))
           100%Z 2%nat [(1, 1, 1); (1, 1, 1)]).
  - vm_compute. lia.
  - reflexivity.
  - reflexivity.
Defined.

(** ** detect_double_tap *)

Lemma update_last_tap im t im' :
  update im t = Ok im' -> last_tap_time im' = last_tap_time im.
Proof.
  unfold update. destruct (acceleration t) as [[[x y] z]|]; [|discriminate].
  intros [= <-]. reflexivity.
Qed.

Section DoubleTap.

Variables (timeout_s : option Q) (start_time : Q).

Local Abbreviation tap_body := (detect_double_tap_body timeout_s start_time).

Lemma double_tap_body_continue s t s' :
  tap_body s t = Continue s' ->
  last_tap_time s' = (if tap t then Some (t_now t) else last_tap_time s).
Proof.
  unfold detect_double_tap_body, after_update.
  destruct (update s t) as [im'|e] eqn:Hu; [|discriminate].
  rewrite (update_last_tap _ _ _ Hu).
  destruct (tap t && within_window (last_tap_time s) (t_now t) DOUBLE_TAP_WINDOW);
    [discriminate|].
  destruct (timed_out timeout_s start_time t); [discriminate|].
  intros [= <-]. destruct (tap t); [reflexivity|].
  apply (update_last_tap _ _ _ Hu).
Qed.

Lemma double_tap_body_true s t s' :
  tap_body s t = Return s' true ->
  tap t = true /\
  within_window (last_tap_time s) (t_now t) DOUBLE_TAP_WINDOW = true /\
  last_tap_time s' = None.
Proof.
  unfold detect_double_tap_body, after_update.
  destruct (update s t) as [im'|e] eqn:Hu; [|discriminate].
  rewrite (update_last_tap _ _ _ Hu).
  destruct (tap t && within_window (last_tap_time s) (t_now t) DOUBLE_TAP_WINDOW)
    eqn:E.
  - intros [= <-]. apply andb_true_iff in E. destruct E. auto.
  - destruct (timed_out timeout_s start_time t); discriminate.
Qed.

Lemma double_tap_body_second s t :
  acceleration t <> None -> tap t = true ->
  within_window (last_tap_time s) (t_now t) DOUBLE_TAP_WINDOW = true ->
  exists s', tap_body s t = Return s' true.
Proof.
  intros Ha Ht Hw. unfold detect_double_tap_body.
  destruct (update_succeeds s t Ha) as [im' Hu]. rewrite Hu. unfold after_update.
  rewrite (update_last_tap _ _ _ Hu), Ht, Hw. simpl. eauto.
Qed.

Lemma tap_pending_step pre s t s' :
  tap_pending pre s -> tap_body s t = Continue s' -> tap_pending (pre ++ [t]) s'.
Proof.
  intros [HS HR] Hb. apply double_tap_body_continue in Hb. split.
  - intros l Hl. rewrite Hb in Hl. destruct (tap t) eqn:Ef.
    + injection Hl as <-. exists (length pre), t.
      rewrite list_lookup_middle by reflexivity. auto.
    + destruct (HS l Hl) as (i & ti & Hi & Hfi & Hti).
      exists i, ti. rewrite lookup_app_l by (eapply lookup_lt_Some, Hi). auto.
  - intros Hsorted i ti Hi Hf. rewrite Hb. destruct (tap t) eqn:Ef.
    + exists (t_now t). split; [reflexivity|]. eapply now_sorted_last; eauto.
    + apply lookup_app_Some in Hi. destruct Hi as [Hi|[_ Hi]].
      * eapply HR; eauto. eapply now_sorted_prefix, Hsorted.
      * destruct (i - length pre)%nat; [|discriminate].
        injection Hi as <-. congruence.
Qed.

Lemma tap_pending_run im pre s0 :
  detect_double_tap timeout_s start_time im pre = Blocked s0 -> tap_pending pre s0.
Proof.
  unfold detect_double_tap. apply (run_loop_invariant_pre _ tap_pending).
  - split; [intros l H; discriminate|]. intros _ i ti Hi. discriminate.
  - intros pre' s1 t s2 HP _ Hb. eapply tap_pending_step; eauto.
Qed.

End DoubleTap.

(** [detect_double_tap] returns [True] only on a tap that follows an
    earlier tap of the same call by at most [DOUBLE_TAP_WINDOW] (0.4 s),
    clearing the pending tap, and it does return [True] on such a tap. *)
Theorem detect_double_tap_window (timeout_s : option Q) (start_time : Q)
  (im : InputManager) (ticks : list Tick) :
  (forall s,
     detect_double_tap timeout_s start_time im ticks = Returned s true ->
     (exists i j, double_tap_at ticks i j) /\ last_tap_time s = None) /\
  (forall pre t post s0,
     ticks = pre ++ t :: post ->
     now_sorted (pre ++ [t]) ->
     detect_double_tap timeout_s start_time im pre = Blocked s0 ->
     acceleration t <> None ->
     (exists i, double_tap_at (pre ++ [t]) i (length pre)) ->
     exists s, detect_double_tap timeout_s start_time im ticks = Returned s true).
Proof.
  split.
  - intros s H. pose proof H as H'. unfold detect_double_tap in H.
    destruct (run_loop_returned _ _ _ _ _ H) as (pre & t & post & s0 & -> & Hpre & Ht).
    destruct (tap_pending_run timeout_s start_time im pre s0 Hpre) as [HS _].
    apply double_tap_body_true in Ht. destruct Ht as (Hf & Hw & Hnone).
    split; [|exact Hnone].
    apply within_window_true in Hw. destruct Hw as (l & Hl & Hgap).
    destruct (HS l Hl) as (i & ti & Hi & Hfi & <-).
    exists i, (length pre), ti, t.
    split; [eapply lookup_lt_Some, Hi|].
    split; [apply lookup_app_l_Some, Hi|].
    split; [apply list_lookup_middle; reflexivity|]. auto.
  - intros pre t post s0 -> Hsorted Hpre Ha (i & ti & tj & Hij & Hi & Hj & Hfi & Hfj & Hgap).
    rewrite list_lookup_middle in Hj by reflexivity. injection Hj as <-.
    rewrite lookup_app_l in Hi by exact Hij.
    destruct (tap_pending_run timeout_s start_time im pre s0 Hpre) as [_ HR].
    destruct (HR (now_sorted_prefix _ _ Hsorted) i ti Hi Hfi) as (l & Hl & Hle).
    destruct (double_tap_body_second timeout_s start_time s0 t Ha Hfj) as [s' Hs'].
    { apply within_window_true. exists l. split; [exact Hl|]. lra. }
    exists s'. unfold detect_double_tap in *.
    rewrite run_loop_app, Hpre. simpl. rewrite Hs'. reflexivity.
Qed.

Lemma now_sorted_tap_twice : now_sorted tap_twice.
Proof.
  intros [|[|[|i]]] [|[|[|j]]] ti tj Hij Hi Hj; simpl in Hi, Hj;
    try discriminate; try lia;
    injection Hi as <-; injection Hj as <-; vm_compute; discriminate.
Qed.

Lemma detect_double_tap_window_witness :
  exists s, detect_double_tap None 0 im_rest tap_twice = Returned s true.
Proof.
  eassert (Hpre : detect_double_tap None 0 im_rest (firstn 2 tap_twice) = Blocked _)
    by (vm_compute; reflexivity).
  apply (proj2 (detect_double_tap_window None 0 im_rest tap_twice)
           (firstn 2 tap_twice) (tick_events 0.4 true false) [] _
           eq_refl now_sorted_tap_twice Hpre).
  - discriminate.
  - exists 0%nat, (tick_events 0.1 true false), (tick_events 0.4 true false).
    split; [simpl; lia|]. split; [reflexivity|]. split; [reflexivity|].
    split; [reflexivity|]. split; [reflexivity|]. vm_compute. discriminate.
Defined.

(** ** wait_for_encoder_press *)

(** [wait_for_encoder_press] returns at the first iteration that sees the
    encoder button fall, having smoothed the accelerometer on every
    iteration up to it; a read that fails before ends it with the
    exception. *)
Theorem wait_for_encoder_press_first (im : InputManager) (pre : list Tick)
  (t : Tick) (post : list Tick) :
  Forall (fun u => encoder_fell u = false) pre ->
  encoder_fell t = true ->
  (forall im', filter_after im (pre ++ [t]) = Ok im' ->
     wait_for_encoder_press im (pre ++ t :: post) = Returned im' tt) /\
  (forall e, filter_after im (pre ++ [t]) = Exc e ->
     wait_for_encoder_press im (pre ++ t :: post) = Raised e) /\
  (forall im', filter_after im pre = Ok im' ->
     wait_for_encoder_press im pre = Blocked im').
Proof.
  intros Hpre Ht. unfold wait_for_encoder_press.
  revert im. induction Hpre as [|u pre Hu _ IH]; intros im; simpl.
  - unfold wait_for_encoder_press_body, after_update.
    destruct (update im t) as [im1|e]; rewrite ?Ht.
    + repeat split; [intros im' [= <-]; reflexivity | discriminate
                    | intros im' [= <-]; reflexivity].
    + repeat split; [discriminate | intros e' [= <-]; reflexivity
                    | intros im' [= <-]; reflexivity].
  - unfold wait_for_encoder_press_body at 1 3 5, after_update.
    destruct (update im u) as [im1|e]; rewrite ?Hu.
    + apply IH.
    + repeat split; [discriminate | intros e' [= <-]; reflexivity | discriminate].
Qed.

Lemma wait_for_encoder_press_first_witness :
  exists im',
    wait_for_encoder_press im_rest
      [tick_events 0.1 false false; tick_events 0.2 false true;
       tick_events 0.3 false false] = Returned im' tt.
Proof.
  eexists.
  apply (proj1 (wait_for_encoder_press_first im_rest
                  [tick_events 0.1 false false] (tick_events 0.2 false true)
                  [tick_events 0.3 false false]
                  ltac:(repeat constructor) eq_refl)).
  vm_compute. reflexivity.
Defined.

(** ** both_buttons_held: holding through the duration *)

(** When both buttons read pressed at every iteration until the clock of a
    loop test has reached the duration, [both_buttons_held] returns [True]
    there, with the accelerometer smoothed over all iterations before. *)
Theorem both_buttons_held_complete (duration_s start_time : Q)
  (im : InputManager) (pre : list Tick) (t : Tick) (post : list Tick) :
  Forall (held_tick duration_s start_time) pre ->
  duration_s <= t_loop t - start_time ->
  exists im',
    filter_after im pre = Ok im' /\
    both_buttons_held duration_s start_time im (pre ++ t :: post) = Returned im' true.
Proof.
  intros Hpre Ht. unfold both_buttons_held. revert im.
  induction Hpre as [|u pre (Hc & Ha & Hl & Hr) _ IH]; intros im; simpl.
  - exists im. split; [reflexivity|]. unfold both_buttons_held_body.
    apply Qltb_false in Ht. rewrite Ht. reflexivity.
  - unfold both_buttons_held_body at 1. apply Qltb_true in Hc. rewrite Hc.
    destruct (update_succeeds im u Ha) as [im1 Hu]. rewrite Hu.
    unfold after_update. rewrite Hl, Hr. simpl orb. cbv iota.
    apply IH.
Qed.

Lemma both_buttons_held_complete_witness :
  exists im',
    both_buttons_held 1 0 im_rest
      [tick_buttons 0.5 false false false false false;
       tick_buttons 1 true false true false false] = Returned im' true.
Proof.
  destruct (both_buttons_held_complete 1 0 im_rest
              [tick_buttons 0.5 false false false false false]
              (tick_buttons 1 true false true false false) [])
    as (im' & _ & H).
  - repeat constructor; try reflexivity. discriminate.
  - discriminate.
  - exists im'. exact H.
Defined.

(** ** navigate_choice: what it returns and where the index stands *)

Lemma navigate_choice_empty timeout_s start_time im ticks :
  navigate_choice [] timeout_s start_time im ticks = Raised IndexError.
Proof. reflexivity. Qed.

Lemma navigate_choice_body_cases choices timeout_s start_time s t :
  choices <> [] ->
  (0 <= current_index s < Z.of_nat (length choices))%Z ->
  match navigate_choice_body choices timeout_s start_time s t with
  | Continue s' =>
      encoder_fell t = false /\
      current_index s' =
        index_after (Z.of_nat (length choices)) (current_index s) t
  | Return s' r =>
      current_index s' =
        index_after (Z.of_nat (length choices)) (current_index s) t /\
      ((encoder_fell t = true /\ r = current_index s') \/
       (encoder_fell t = false /\ r = (-1)%Z /\
        timeout_s < t_timeout t - start_time))
  | Raise e => acceleration t = None
  end.
Proof.
  intros Hne Hidx. unfold navigate_choice_body, after_update.
  destruct (update (nv_im s) t) as [im'|e] eqn:Hu.
  - rewrite (navigate_choice_checks_eq choices timeout_s start_time Hne) by exact Hidx.
    cbv zeta. destruct (encoder_fell t).
    + simpl. auto.
    + destruct (Qgtb (t_timeout t - start_time) timeout_s) eqn:Hto.
      * simpl. split; [reflexivity|]. right. apply Qgtb_true in Hto. auto.
      * simpl. auto.
  - unfold update in Hu. destruct (acceleration t) as [[[x y] z]|]; [discriminate|].
    reflexivity.
Qed.

(** [navigate_choice] raises [IndexError] on an empty list of choices;
    otherwise whatever it returns is either a valid index into [choices],
    returned on an encoder press, or [-1], returned at a timeout check whose
    clock has passed [timeout_s]. *)
Theorem navigate_choice_result (choices : list string) (timeout_s start_time : Q)
  (im : InputManager) (ticks : list Tick) :
  navigate_choice [] timeout_s start_time im ticks = Raised IndexError /\
  (choices <> [] ->
   forall s r,
     navigate_choice choices timeout_s start_time im ticks = Returned s r ->
     ((0 <= r < Z.of_nat (length choices))%Z /\ r = current_index s /\
      Exists (fun t => encoder_fell t = true) ticks) \/
     (r = (-1)%Z /\
      Exists (fun t => encoder_fell t = false /\
                       timeout_s < t_timeout t - start_time) ticks)).
Proof.
  split; [reflexivity|]. intros Hne s r H.
  unfold navigate_choice in H.
  pose proof (n_pos choices Hne) as Hn.
  rewrite (choice_at_in_range choices 0) in H by lia.
  destruct (run_loop_returned _ _ _ _ _ H) as (pre & t & post & s0 & -> & Hpre & Ht).
  assert (Hidx : (0 <= current_index s0 < Z.of_nat (length choices))%Z).
  { refine (run_loop_invariant _
              (fun s => (0 <= current_index s < Z.of_nat (length choices))%Z)
              _ pre _ s0 _ Hpre).
    - intros s1 u s2 Hs1 Hu.
      pose proof (navigate_choice_body_cases choices timeout_s start_time s1 u
                    Hne Hs1) as Hc.
      rewrite Hu in Hc. destruct Hc as [_ ->].
      apply index_after_in_range; assumption.
    - simpl. lia. }
  pose proof (navigate_choice_body_cases choices timeout_s start_time s0 t Hne Hidx)
    as Hc.
  rewrite Ht in Hc. destruct Hc as [Hi [[He ->]|(He & -> & Hto)]].
  - left. split; [|split; [reflexivity|]].
    + rewrite Hi. apply index_after_in_range; assumption.
    + apply Exists_app. right. apply Exists_cons_hd. exact He.
  - right. split; [reflexivity|].
    apply Exists_app. right. apply Exists_cons_hd. auto.
Qed.

Lemma navigate_choice_result_witness :
  exists s r,
    navigate_choice abc 5 0 im_rest right_left_commit = Returned s r /\
    (((0 <= r < 3)%Z /\ r = current_index s /\
      Exists (fun t => encoder_fell t = true) right_left_commit) \/
     (r = (-1)%Z /\
      Exists (fun t => encoder_fell t = false /\ 5 < t_timeout t - 0)
        right_left_commit)).
Proof.
  assert (Hne : abc <> []) by discriminate.
  eassert (Hrun : navigate_choice abc 5 0 im_rest right_left_commit
                  = Returned _ _) by (vm_compute; reflexivity).
  eexists. eexists. split; [exact Hrun|].
  exact (proj2 (navigate_choice_result abc 5 0 im_rest right_left_commit)
           Hne _ _ Hrun).
Defined.

Lemma net_presses_snoc pre t :
  net_presses (pre ++ [t]) =
  (net_presses pre + (if right_fell t then 1 else 0)
                   - (if left_fell t then 1 else 0))%Z.
Proof. unfold net_presses. rewrite fold_left_app. reflexivity. Qed.

Lemma index_after_net n N t :
  (0 < n)%Z ->
  index_after n (N mod n) t =
  ((N + (if right_fell t then 1 else 0) - (if left_fell t then 1 else 0)) mod n)%Z.
Proof.
  intros Hn. unfold index_after.
  destruct (left_fell t), (right_fell t).
  - rewrite Zminus_mod_idemp_l, Zplus_mod_idemp_l. f_equal. lia.
  - rewrite Zminus_mod_idemp_l. f_equal. lia.
  - rewrite Zplus_mod_idemp_l. f_equal. lia.
  - f_equal. lia.
Qed.

(** While [navigate_choice] has not returned, [current_index] is the number
    of right presses minus the number of left presses seen so far, reduced
    modulo [len(choices)]: a press of both buttons in one iteration leaves
    the index where it was, and [len(choices)] presses of one button bring
    it back to where it started. *)
Theorem navigate_choice_net_presses (choices : list string)
  (timeout_s start_time : Q) (im : InputManager) (ticks : list Tick)
  (s : NavState) :
  choices <> [] ->
  navigate_choice choices timeout_s start_time im ticks = Blocked s ->
  current_index s = (net_presses ticks mod Z.of_nat (length choices))%Z.
Proof.
  intros Hne H. unfold navigate_choice in H.
  pose proof (n_pos choices Hne) as Hn.
  rewrite (choice_at_in_range choices 0) in H by lia.
  revert ticks s H.
  apply (run_loop_invariant_pre (navigate_choice_body choices timeout_s start_time)
           (fun pre s =>
              current_index s = (net_presses pre mod Z.of_nat (length choices))%Z)).
  - simpl. rewrite Z.mod_0_l by lia. reflexivity.
  - intros pre s1 t s2 Hs1 _ Ht.
    assert (Hidx : (0 <= current_index s1 < Z.of_nat (length choices))%Z).
    { rewrite Hs1. apply Z.mod_pos_bound. lia. }
    pose proof (navigate_choice_body_cases choices timeout_s start_time s1 t
                  Hne Hidx) as Hc.
    rewrite Ht in Hc. destruct Hc as [_ ->].
    rewrite Hs1, net_presses_snoc. apply index_after_net. lia.
Qed.

Lemma navigate_choice_net_presses_witness :
  exists s,
    navigate_choice abc 5 0 im_rest three_rights = Blocked s /\
    current_index s = 0%Z.
Proof.
  assert (Hne : abc <> []) by discriminate.
  eassert (Hrun : navigate_choice abc 5 0 im_rest three_rights = Blocked _)
    by (vm_compute; reflexivity).
  eexists. split; [exact Hrun|].
  exact (navigate_choice_net_presses abc 5 0 im_rest three_rights _ Hne Hrun).
Defined.

(** ** AccelerometerReader.update *)

Lemma reader_update_spec r s :
  exists r' out,
    reader_update r (Some s) = Ok (r', out) /\
    reader_filtered r' = reader_filter r s /\
    _direction r' = classify (rd_threshold r) (reader_filter r s) /\
    _count r' =
      (if String.eqb (_direction r') (_direction r)
          && negb (String.eqb (_direction r') "NONE")
       then S (_count r) else 1%nat) /\
    out =
      (if negb (String.eqb (_direction r') "NONE")
          && (rd_confirm_samples r <=? _count r')%nat
       then Some (_direction r') else None) /\
    rd_alpha r' = rd_alpha r /\
    rd_confirm_samples r' = rd_confirm_samples r /\
    rd_threshold r' = rd_threshold r.
Proof.
  destruct s as [[x y] z].
  unfold reader_update, classify, reader_filter, dominant_of, reader_filtered.
  set (xf := rd_alpha r * x + (1 - rd_alpha r) * x_filt r).
  set (yf := rd_alpha r * y + (1 - rd_alpha r) * y_filt r).
  set (zf := rd_alpha r * z + (1 - rd_alpha r) * z_filt r).
  destruct (if Qle_bool (Qabs yf) (Qabs xf) && Qle_bool (Qabs zf) (Qabs xf)
            then ("X"%string, xf)
            else if Qle_bool (Qabs xf) (Qabs yf) && Qle_bool (Qabs zf) (Qabs yf)
                 then ("Y"%string, yf) else ("Z"%string, zf)) as [dominant value].
  set (c := if Qgtb value (rd_threshold r) then ("+" ++ dominant)%string
            else if Qltb value (- rd_threshold r) then ("-" ++ dominant)%string
                 else "NONE"%string).
  clearbody c xf yf zf.
  destruct (String.eqb c (_direction r) && negb (String.eqb c "NONE")) eqn:E.
  - apply andb_true_iff in E as [E1 E2].
    apply String.eqb_eq in E1. rewrite <- E1.
    cbv beta iota zeta. rewrite E2. cbn [andb].
    destruct (rd_confirm_samples r <=? S (_count r))%nat eqn:E3.
    + eexists _, _. split; [reflexivity|]. simpl.
      rewrite String.eqb_refl, E2. cbn [andb]. rewrite E3. auto 10.
    + eexists _, _. split; [reflexivity|]. simpl.
      rewrite String.eqb_refl, E2. cbn [andb]. rewrite E3. auto 10.
  - destruct (negb (String.eqb c "NONE") && (rd_confirm_samples r <=? 1)%nat) eqn:E3.
    + eexists _, _. split; [reflexivity|]. simpl.
      rewrite E, E3. auto 10.
    + eexists _, _. split; [reflexivity|]. simpl.
      rewrite E, E3. auto 10.
Qed.

Lemma reader_update_total r s :
  exists r' out, reader_update r (Some s) = Ok (r', out).
Proof.
  destruct (reader_update_spec r s) as (r' & out & H & _). eauto.
Qed.

Lemma classify_cases th f :
  let '(xf, yf, zf) := f in
  let d := classify th f in
  d = "NONE"%string \/
  (d = "+X"%string /\ th < xf /\ Qabs yf <= Qabs xf /\ Qabs zf <= Qabs xf) \/
  (d = "-X"%string /\ xf < - th /\ Qabs yf <= Qabs xf /\ Qabs zf <= Qabs xf) \/
  (d = "+Y"%string /\ th < yf /\ Qabs xf <= Qabs yf /\ Qabs zf <= Qabs yf) \/
  (d = "-Y"%string /\ yf < - th /\ Qabs xf <= Qabs yf /\ Qabs zf <= Qabs yf) \/
  (d = "+Z"%string /\ th < zf /\ Qabs xf <= Qabs zf /\ Qabs yf <= Qabs zf) \/
  (d = "-Z"%string /\ zf < - th /\ Qabs xf <= Qabs zf /\ Qabs yf <= Qabs zf).
Proof.
  destruct f as [[xf yf] zf]. unfold classify, dominant_of.
  destruct (Qle_bool (Qabs yf) (Qabs xf)) eqn:Eyx;
  destruct (Qle_bool (Qabs zf) (Qabs xf)) eqn:Ezx;
  destruct (Qle_bool (Qabs xf) (Qabs yf)) eqn:Exy;
  destruct (Qle_bool (Qabs zf) (Qabs yf)) eqn:Ezy; cbn [andb];
  match goal with
  | |- context [Qgtb ?v th] =>
      destruct (Qgtb v th) eqn:Eg;
      [apply Qgtb_true in Eg
      |destruct (Qltb v (- th)) eqn:El; [apply Qltb_true in El|]]
  end;
  repeat match goal with
         | H : Qle_bool _ _ = true |- _ => apply Qle_bool_iff in H
         | H : Qle_bool ?a ?b = false |- _ =>
             assert (b < a)
               by (apply Qnot_le_lt; intros Hle; apply Qle_bool_iff in Hle; congruence);
             clear H
         end;
  cbn [append];
  first [ left; reflexivity
        | right; left; split; [reflexivity|]; repeat split; first [assumption | apply Qlt_le_weak; assumption | lra]
        | right; right; left; split; [reflexivity|]; repeat split; first [assumption | apply Qlt_le_weak; assumption | lra]
        | right; right; right; left; split; [reflexivity|]; repeat split; first [assumption | apply Qlt_le_weak; assumption | lra]
        | right; right; right; right; left; split; [reflexivity|]; repeat split; first [assumption | apply Qlt_le_weak; assumption | lra]
        | right; right; right; right; right; left; split; [reflexivity|]; repeat split; first [assumption | apply Qlt_le_weak; assumption | lra]
        | right; right; right; right; right; right; split; [reflexivity|]; repeat split; first [assumption | apply Qlt_le_weak; assumption | lra] ].
Qed.

(** When [update()] of the reader returns a direction, that direction is
    the sign and the axis of the filtered component of largest magnitude,
    that component lies beyond the threshold on that side, and the streak
    counter has reached [confirm_samples]. *)
Theorem reader_update_confirmed (r r' : AccelerometerReader) (s : Q * Q * Q)
  (d : string) :
  reader_update r (Some s) = Ok (r', Some d) ->
  (rd_confirm_samples r <= _count r')%nat /\ _direction r' = d /\
  let th := rd_threshold r in
  let xf := x_filt r' in
  let yf := y_filt r' in
  let zf := z_filt r' in
  (d = "+X"%string /\ th < xf /\ Qabs yf <= Qabs xf /\ Qabs zf <= Qabs xf) \/
  (d = "-X"%string /\ xf < - th /\ Qabs yf <= Qabs xf /\ Qabs zf <= Qabs xf) \/
  (d = "+Y"%string /\ th < yf /\ Qabs xf <= Qabs yf /\ Qabs zf <= Qabs yf) \/
  (d = "-Y"%string /\ yf < - th /\ Qabs xf <= Qabs yf /\ Qabs zf <= Qabs yf) \/
  (d = "+Z"%string /\ th < zf /\ Qabs xf <= Qabs zf /\ Qabs yf <= Qabs zf) \/
  (d = "-Z"%string /\ zf < - th /\ Qabs xf <= Qabs zf /\ Qabs yf <= Qabs zf).
Proof.
  intros H.
  destruct (reader_update_spec r s)
    as (r0 & out & Hu & Hf & Hd & Hc & Ho & _).
  rewrite Hu in H. injection H as -> ->.
  destruct (negb (String.eqb (_direction r') "NONE")) eqn:En;
    [|discriminate Ho].
  destruct (rd_confirm_samples r <=? _count r')%nat eqn:Ec; [|discriminate Ho].
  cbn [andb] in Ho. injection Ho as ->.
  apply Nat.leb_le in Ec.
  split; [exact Ec|]. split; [reflexivity|].
  pose proof (classify_cases (rd_threshold r) (reader_filtered r')) as Hcl.
  rewrite <- Hf in Hd. unfold reader_filtered in Hcl, Hd.
  cbv beta iota zeta in Hcl. rewrite <- Hd in Hcl.
  destruct Hcl as [Hn|Hcl]; [|exact Hcl].
  rewrite Hn in En. discriminate En.
Qed.

Lemma reader_update_confirmed_witness :
  exists r',
    reader_update reader_tilted (Some (2, 0, 0)) = Ok (r', Some "+X"%string) /\
    (3 <= _count r')%nat /\ _direction r' = "+X"%string.
Proof.
  eassert (H : reader_update reader_tilted (Some (2, 0, 0))
               = Ok (_, Some "+X"%string)) by (vm_compute; reflexivity).
  eexists. split; [exact H|].
  pose proof (reader_update_confirmed _ _ _ _ H) as (Hc & Hd & _).
  split; [exact Hc | exact Hd].
Defined.

(** ** Runs of the reader *)

Lemma reader_run_cons r s rest r1 out :
  reader_update r (Some s) = Ok (r1, out) ->
  reader_run r (s :: rest) =
    (fst (reader_run r1 rest), out :: snd (reader_run r1 rest)) /\
  reader_trace r (s :: rest) =
    classify (rd_threshold r) (reader_filter r s) :: reader_trace r1 rest.
Proof.
  intros H. cbn [reader_run reader_trace]. rewrite H.
  destruct (reader_run r1 rest). auto.
Qed.

(** ** The confirmation streak of the reader *)

Lemma reader_update_keeps r s r1 out :
  reader_update r (Some s) = Ok (r1, out) ->
  rd_confirm_samples r1 = rd_confirm_samples r /\
  rd_threshold r1 = rd_threshold r.
Proof.
  intros H.
  destruct (reader_update_spec r s) as (r0 & o0 & Hu & _ & _ & _ & _ & _ & Hc & Ht).
  rewrite Hu in H. injection H as -> ->. auto.
Qed.

Lemma reader_run_snoc pre : forall r s,
  exists r2 out,
    reader_update (reader_after r pre) (Some s) = Ok (r2, out) /\
    reader_after r (pre ++ [s]) = r2 /\
    reader_trace r (pre ++ [s]) =
      reader_trace r pre ++
      [classify (rd_threshold r) (reader_filter (reader_after r pre) s)] /\
    rd_confirm_samples (reader_after r pre) = rd_confirm_samples r /\
    rd_threshold (reader_after r pre) = rd_threshold r.
Proof.
  induction pre as [|s0 pre IH]; intros r s.
  - destruct (reader_update_total r s) as (r2 & out & Hu).
    exists r2, out. unfold reader_after at 1. cbn [reader_run fst].
    split; [exact Hu|].
    destruct (reader_run_cons r s [] r2 out Hu) as [Hrun Htr].
    unfold reader_after. cbn [app]. rewrite Hrun, Htr. auto.
  - destruct (reader_update_total r s0) as (r1 & o1 & Hu1).
    destruct (reader_update_keeps _ _ _ _ Hu1) as [Hc1 Ht1].
    destruct (IH r1 s) as (r2 & out & Hu & Haft & Htr & Hc & Ht).
    destruct (reader_run_cons r s0 pre r1 o1 Hu1) as [Hrun0 Htr0].
    destruct (reader_run_cons r s0 (pre ++ [s]) r1 o1 Hu1) as [Hrun1 Htr1].
    assert (Ha0 : reader_after r (s0 :: pre) = reader_after r1 pre).
    { unfold reader_after. rewrite Hrun0. reflexivity. }
    exists r2, out. rewrite Ha0.
    split; [exact Hu|].
    split; [unfold reader_after; cbn [app]; rewrite Hrun1; exact Haft|].
    split; [cbn [app]; rewrite Htr1, Htr0, Htr, Ht1; reflexivity|].
    split; congruence.
Qed.

Lemma ends_with_run_zero d l : ends_with_run d l 0.
Proof. exists l. simpl. rewrite app_nil_r. reflexivity. Qed.

Lemma ends_with_run_snoc d l c m :
  ends_with_run d (l ++ [c]) (S m) <-> c = d /\ ends_with_run d l m.
Proof.
  unfold ends_with_run. split.
  - intros [pre H]. cbn [repeat] in H. rewrite repeat_cons in H.
    rewrite app_assoc in H. apply app_inj_tail in H as [H1 H2]. eauto.
  - intros [-> [pre ->]]. exists pre. cbn [repeat]. rewrite repeat_cons.
    rewrite app_assoc. reflexivity.
Qed.

Lemma ends_with_run_last d l m :
  ends_with_run d l (S m) -> last l = Some d.
Proof.
  intros [pre ->]. cbn [repeat]. rewrite repeat_cons, app_assoc.
  apply last_snoc.
Qed.

Lemma reader_streak r pre :
  _direction r = "NONE"%string ->
  _direction (reader_after r pre) = match last (reader_trace r pre) with Some d => d | None => "NONE"%string end /\
  (_direction (reader_after r pre) <> "NONE"%string ->
   forall m, (m <= _count (reader_after r pre))%nat <->
             ends_with_run (_direction (reader_after r pre)) (reader_trace r pre) m).
Proof.
  intros H0. induction pre as [|s pre IH] using rev_ind.
  - unfold reader_after. cbn. split; [exact H0|]. intros Hn. contradiction.
  - destruct IH as [IHd IHc].
    destruct (reader_run_snoc pre r s) as (r2 & out & Hu & -> & -> & _ & Ht).
    destruct (reader_update_spec (reader_after r pre) s)
      as (r0 & o0 & Hu0 & _ & Hd & Hc & _).
    rewrite Hu in Hu0. injection Hu0 as <- <-.
    rewrite Ht in Hd. rewrite last_snoc.
    split; [exact Hd|].
    intros Hn m. rewrite <- Hd.
    destruct m as [|m].
    { split; intros _; [apply ends_with_run_zero | lia]. }
    rewrite ends_with_run_snoc.
    assert (En : negb (String.eqb (_direction r2) "NONE") = true).
    { apply negb_true_iff. apply String.eqb_neq. exact Hn. }
    rewrite En, andb_true_r in Hc.
    destruct (String.eqb (_direction r2) (_direction (reader_after r pre))) eqn:Ee.
    + apply String.eqb_eq in Ee. rewrite Hc.
      rewrite Ee in Hn |- *. rewrite <- (IHc Hn m). split; [intros; split; [congruence|lia] | intros [_ ?]; lia].
    + apply String.eqb_neq in Ee. rewrite Hc. split.
      * intros Hm. assert (m = 0)%nat as -> by lia.
        split; [congruence | apply ends_with_run_zero].
      * intros [_ He]. destruct m as [|m]; [lia|].
        apply ends_with_run_last in He. rewrite He in IHd. cbn in IHd.
        congruence.
Qed.

(** For a reader whose [_direction] is ["NONE"] (as the constructor leaves
    it), the [update()] that follows any run of successful reads returns a
    direction [d] exactly when the classification of the new sample is [d],
    [d] is not ["NONE"], and the last [confirm_samples] classifications,
    the new one included, are all [d]; the call itself always succeeds. *)
Theorem reader_confirmation (r : AccelerometerReader)
  (pre : list (Q * Q * Q)) (s : Q * Q * Q) :
  _direction r = "NONE"%string ->
  exists r2 out,
    reader_update (reader_after r pre) (Some s) = Ok (r2, out) /\
    forall d,
      out = Some d <->
      (last (reader_trace r (pre ++ [s])) = Some d /\ d <> "NONE"%string /\
       ends_with_run d (reader_trace r (pre ++ [s])) (rd_confirm_samples r)).
Proof.
  intros H0.
  destruct (reader_streak r (pre ++ [s]) H0) as [Hdir Hcnt].
  destruct (reader_run_snoc pre r s) as (r2 & out & Hu & Haft & Htr & Hcf & Ht).
  exists r2, out. split; [exact Hu|]. intros d.
  destruct (reader_update_spec (reader_after r pre) s)
    as (r0 & o0 & Hu0 & _ & Hd & _ & Ho & _).
  rewrite Hu in Hu0. injection Hu0 as <- <-.
  rewrite Haft in Hdir, Hcnt. rewrite Hcf in Ho.
  rewrite Htr in Hdir |- *. rewrite last_snoc in Hdir |- *.
  rewrite <- Htr. rewrite <- Hdir.
  destruct (String.eqb (_direction r2) "NONE") eqn:En.
  - apply String.eqb_eq in En. cbn [negb andb] in Ho. subst out.
    split; [discriminate|]. intros (Hl & Hn & _). congruence.
  - apply String.eqb_neq in En. cbn [negb andb] in Ho.
    specialize (Hcnt En (rd_confirm_samples r)).
    destruct (rd_confirm_samples r <=? _count r2)%nat eqn:Ec.
    + apply Nat.leb_le in Ec. subst out. split.
      * intros Hd'. injection Hd' as <-. split; [reflexivity|].
        split; [exact En|]. apply Hcnt. exact Ec.
      * intros (Hl & _). exact Hl.
    + apply Nat.leb_gt in Ec. subst out. split; [discriminate|].
      intros (Hl & _ & He). injection Hl as <-. apply Hcnt in He. lia.
Qed.

Lemma reader_confirmation_witness :
  exists r2 out,
    reader_update (reader_after reader_rest four_tilts_x) (Some (2, 0, 0))
      = Ok (r2, out) /\
    forall d,
      out = Some d <->
      (last (reader_trace reader_rest (four_tilts_x ++ [(2, 0, 0)])) = Some d /\
       d <> "NONE"%string /\
       ends_with_run d (reader_trace reader_rest (four_tilts_x ++ [(2, 0, 0)]))
         (rd_confirm_samples reader_rest)).
Proof.
  assert (H0 : _direction reader_rest = "NONE"%string) by reflexivity.
  exact (reader_confirmation reader_rest four_tilts_x (2, 0, 0) H0).
Defined.

(** ** get_direction over failed reads *)

Lemma poll_direction_cons im rd rest :
  poll_direction im (rd :: rest) =
  (fst (poll_direction (fst (get_direction im rd)) rest),
   snd (get_direction im rd) :: snd (poll_direction (fst (get_direction im rd)) rest)).
Proof.
  cbn [poll_direction]. destruct (get_direction im rd) as [im' d].
  cbn [fst snd]. destruct (poll_direction im' rest). reflexivity.
Qed.

(** Successive [get_direction()] calls skip failed reads: a failed read
    returns [None] and leaves the reader as it was, so the reader ends in
    the state, and returns at the successful reads the values, it would
    have on the successful reads alone; a confirmation streak is not broken
    by a bus error. Without a reader every call returns [None]. *)
Theorem get_direction_skips_failed_reads (im : InputManager)
  (rds : list reading) :
  (_accel_reader im = None ->
   poll_direction im rds = (im, repeat None (length rds))) /\
  (forall r, _accel_reader im = Some r ->
     _accel_reader (fst (poll_direction im rds))
       = Some (reader_after r (successes rds)) /\
     snd (poll_direction im rds)
       = interleave rds (snd (reader_run r (successes rds)))).
Proof.
  split.
  - intros Hn. induction rds as [|rd rest IH]; [reflexivity|].
    rewrite poll_direction_cons. unfold get_direction. rewrite Hn.
    cbn [fst snd]. rewrite IH. reflexivity.
  - revert im. induction rds as [|rd rest IH]; intros im r Hr.
    + split; [exact Hr|reflexivity].
    + rewrite poll_direction_cons. unfold get_direction. rewrite Hr.
      destruct rd as [s|].
      * destruct (reader_update_total r s) as (r1 & out & Hu). rewrite Hu.
        cbn [fst snd].
        destruct (IH (set_reader im (Some r1)) r1 eq_refl) as [IH1 IH2].
        change (successes (Some s :: rest)) with (s :: successes rest).
        destruct (reader_run_cons r s (successes rest) r1 out Hu) as [Hrun _].
        unfold reader_after in *. rewrite Hrun. cbn [fst snd interleave].
        rewrite IH1, IH2. auto.
      * cbn [reader_update fst snd].
        destruct (IH im r Hr) as [IH1 IH2].
        change (successes (None :: rest)) with (successes rest).
        cbn [interleave]. rewrite IH1, IH2. auto.
Qed.

Lemma get_direction_skips_failed_reads_witness :
  snd (poll_direction im_with_reader tilts_with_failures)
    = [None; None; None; None; None; None; Some "+X"%string].
Proof.
  assert (Hr : _accel_reader im_with_reader = Some reader_rest) by reflexivity.
  rewrite (proj2 (proj2 (get_direction_skips_failed_reads im_with_reader
                           tilts_with_failures) reader_rest Hr)).
  vm_compute. reflexivity.
Defined.

(** ** detect_all_six_directions for any list of axes *)

Lemma crossings_tokens axes_set im d :
  d ⊆ tokens_of axes_set -> crossings axes_set im d ⊆ tokens_of axes_set.
Proof.
  intros Hd tok Htok. apply elem_of_crossings in Htok.
  destruct Htok as [H|H]; [apply Hd, H|].
  unfold tokens_of.
  destruct H as [[Hx H]|[[Hy H]|[Hz H]]].
  - rewrite (bool_decide_eq_true_2 _ Hx). destruct H as [[_ ->]|[_ ->]]; set_solver.
  - rewrite (bool_decide_eq_true_2 _ Hy). destruct H as [[_ ->]|[_ ->]]; set_solver.
  - rewrite (bool_decide_eq_true_2 _ Hz). destruct H as [[_ ->]|[_ ->]]; set_solver.
Qed.

Lemma size_axes_split (axes_set : gset string) :
  size axes_set = (size (axes_set ∩ xyz) + size (axes_set ∖ xyz))%nat.
Proof.
  rewrite <- size_union.
  - f_equal. apply set_eq. intros a.
    rewrite elem_of_union, elem_of_intersection, elem_of_difference.
    destruct (decide (a ∈ xyz)); tauto.
  - intros a H1 H2. apply elem_of_intersection in H1 as [_ H1].
    apply elem_of_difference in H2 as [_ H2]. exact (H2 H1).
Qed.

Ltac axes_case :=
  apply set_eq; intros a; unfold xyz;
  rewrite elem_of_intersection, ?elem_of_union, ?elem_of_singleton, ?elem_of_empty;
  split; [intros [Ha Hor]; intuition (subst; tauto)
         |intros Hor; intuition (subst; auto)].

Lemma size_tokens_of axes_set :
  size (tokens_of axes_set) = (2 * size (axes_set ∩ xyz))%nat.
Proof.
  unfold tokens_of.
  destruct (bool_decide_reflect ("x"%string ∈ axes_set)) as [Hx|Hx];
  destruct (bool_decide_reflect ("y"%string ∈ axes_set)) as [Hy|Hy];
  destruct (bool_decide_reflect ("z"%string ∈ axes_set)) as [Hz|Hz].
  - replace (axes_set ∩ xyz) with ({[ "x"; "y"; "z" ]} : gset string)%string
      by (symmetry; axes_case). vm_compute; reflexivity.
  - replace (axes_set ∩ xyz) with ({[ "x"; "y" ]} : gset string)%string
      by (symmetry; axes_case). vm_compute; reflexivity.
  - replace (axes_set ∩ xyz) with ({[ "x"; "z" ]} : gset string)%string
      by (symmetry; axes_case). vm_compute; reflexivity.
  - replace (axes_set ∩ xyz) with ({[ "x" ]} : gset string)%string
      by (symmetry; axes_case). vm_compute; reflexivity.
  - replace (axes_set ∩ xyz) with ({[ "y"; "z" ]} : gset string)%string
      by (symmetry; axes_case). vm_compute; reflexivity.
  - replace (axes_set ∩ xyz) with ({[ "y" ]} : gset string)%string
      by (symmetry; axes_case). vm_compute; reflexivity.
  - replace (axes_set ∩ xyz) with ({[ "z" ]} : gset string)%string
      by (symmetry; axes_case). vm_compute; reflexivity.
  - replace (axes_set ∩ xyz) with (∅ : gset string)
      by (symmetry; axes_case). vm_compute; reflexivity.
Qed.

Lemma detect_all_six_directions_within timeout_s axes start_time im ticks s r :
  detect_all_six_directions timeout_s axes start_time im ticks = Returned s r ->
  directions_detected s ⊆ tokens_of (axes_set_of axes).
Proof.
  intros H. unfold detect_all_six_directions in H. cbv zeta in H.
  destruct (run_loop_returned _ _ _ _ _ H) as (pre & t & post & s0 & _ & Hpre & Ht).
  assert (Hs0 : directions_detected s0 ⊆ tokens_of (axes_set_of axes)).
  { refine (run_loop_invariant _
              (fun s => directions_detected s ⊆ tokens_of (axes_set_of axes))
              _ pre _ s0 _ Hpre).
    - intros s1 u s2 Hs1 Hu.
      destruct (detect_all_six_directions_body_dirs _ _ _ _ _ _ _ (or_introl Hu))
        as (im' & _ & ->).
      apply crossings_tokens, Hs1.
    - simpl. apply empty_subseteq. }
  destruct (detect_all_six_directions_body_dirs _ _ _ _ _ _ _
              (or_intror (ex_intro _ r Ht))) as (im' & _ & ->).
  apply crossings_tokens, Hs0.
Qed.

(** [detect_all_six_directions] for any [axes]: when every name is (up to
    case) one of x, y, z, a [True] return means that exactly both tokens of
    every requested axis have been seen; a name that is none of them is
    counted in [required_count] but has no polarity test, so the call never
    returns [True]; and with an empty [axes] it returns [True] on the first
    iteration whose read succeeds. *)
Theorem detect_all_six_directions_axes (timeout_s : option Q)
  (axes : list string) (start_time : Q) (im : InputManager) (ticks : list Tick) :
  (axes_set_of axes ⊆ xyz ->
   forall s,
     detect_all_six_directions timeout_s axes start_time im ticks = Returned s true ->
     directions_detected s = tokens_of (axes_set_of axes)) /\
  (forall a, a ∈ axes_set_of axes -> ~ is_axis a ->
     returned (detect_all_six_directions timeout_s axes start_time im ticks)
       <> Some true) /\
  (forall t ts, acceleration t <> None ->
     exists s,
       detect_all_six_directions timeout_s [] start_time im (t :: ts)
         = Returned s true).
Proof.
  split; [|split].
  - intros Hsub s H.
    pose proof (detect_all_six_directions_within _ _ _ _ _ _ _ H) as Hw.
    apply set_subseteq_size_eq; [exact Hw|].
    rewrite size_tokens_of.
    replace (axes_set_of axes ∩ xyz) with (axes_set_of axes).
    2:{ apply set_eq. intros a. rewrite elem_of_intersection.
        split; [intros Ha; split; [exact Ha|apply Hsub, Ha] | tauto]. }
    unfold detect_all_six_directions in H. cbv zeta in H.
    destruct (run_loop_returned _ _ _ _ _ H) as (pre & t & post & s0 & _ & _ & Ht).
    apply detect_all_six_directions_body_size in Ht.
    destruct Ht as (_ & Hr & _). pose proof (proj1 Hr eq_refl). lia.
  - intros a Ha Hna H.
    destruct (detect_all_six_directions timeout_s axes start_time im ticks)
      as [s1|s1 r1|e] eqn:E; try discriminate.
    injection H as ->.
    pose proof (detect_all_six_directions_within _ _ _ _ _ _ _ E) as Hw.
    apply subseteq_size in Hw. rewrite size_tokens_of in Hw.
    pose proof (size_axes_split (axes_set_of axes)) as Hsp.
    assert (Hpos : (0 < size (axes_set_of axes ∖ xyz))%nat).
    { destruct (size (axes_set_of axes ∖ xyz)) eqn:Es; [|lia].
      apply size_empty_inv in Es. exfalso.
      apply (not_elem_of_empty (C := gset string) a). apply Es.
      apply elem_of_difference. split; [exact Ha|].
      unfold xyz. rewrite !elem_of_union, !elem_of_singleton.
      intros Hin. apply Hna. unfold is_axis. tauto. }
    unfold detect_all_six_directions in E. cbv zeta in E.
    destruct (run_loop_returned _ _ _ _ _ E) as (pre & t & post & s0 & _ & _ & Ht).
    apply detect_all_six_directions_body_size in Ht.
    destruct Ht as (_ & Hr & _). pose proof (proj1 Hr eq_refl). lia.
  - intros t ts Ht. unfold detect_all_six_directions. cbv zeta.
    cbn [run_loop]. unfold detect_all_six_directions_body, after_update.
    destruct (acceleration t) as [[[x y] z]|] eqn:Ea; [|contradiction].
    unfold update. rewrite Ea. eexists. reflexivity.
Qed.

Lemma detect_all_six_directions_axes_witness :
  exists s,
    detect_all_six_directions None axes_default 0 im_rest six_tilts
      = Returned s true /\
    directions_detected s = tokens_of (axes_set_of axes_default).
Proof.
  eassert (Hrun : detect_all_six_directions None axes_default 0 im_rest six_tilts
                  = Returned _ true) by (vm_compute; reflexivity).
  assert (Hsub : axes_set_of axes_default ⊆ xyz).
  { apply (bool_decide_unpack _). vm_compute. exact I. }
  eexists. split; [exact Hrun|].
  exact (proj1 (detect_all_six_directions_axes None axes_default 0 im_rest six_tilts)
           Hsub _ Hrun).
Defined.

(** * The filter arithmetic over floats *)

(** ** detect_movement on a quiet filtered state *)








(** ** The EMA filter in floats *)










(** ** Calibration in floats *)

Lemma F64_readings_length acc n : forall k rs,
  F64.readings acc k n = Some rs -> length rs = n.
Proof.
  induction n as [|n IH]; intros k rs H; simpl in H.
  - injection H as <-. reflexivity.
  - destruct (acc k) as [r|]; [|discriminate].
    destruct (F64.readings acc (S k) n) as [rs'|] eqn:E; [|discriminate].
    injection H as <-. simpl. f_equal. eapply IH, E.
Qed.

(** The loop adds the readings to the running sums, in reading order. *)
Lemma F64_calibrate_loop_sums acc n : forall k sx sy sz rs,
  F64.readings acc k n = Some rs ->
  F64.calibrate_loop acc k n (sx, sy, sz) =
  Ok (fold_left PrimFloat.add (map F64.comp_x rs) sx,
      fold_left PrimFloat.add (map F64.comp_y rs) sy,
      fold_left PrimFloat.add (map F64.comp_z rs) sz).
Proof.
  induction n as [|n IH]; intros k sx sy sz rs H; simpl in H.
  - injection H as <-. reflexivity.
  - cbn [F64.calibrate_loop].
    destruct (acc k) as [[[x y] z]|]; [|discriminate].
    destruct (F64.readings acc (S k) n) as [rs'|] eqn:E; [|discriminate].
    injection H as <-. rewrite (IH _ _ _ _ _ E). reflexivity.
Qed.

Lemma F64_exact_sums_total l : forall s,
  F64.exact_sums s l ->
  F64.to_Q (fold_left PrimFloat.add l s) == F64.to_Q s + Qsum (map F64.to_Q l).
Proof.
  induction l as [|x l IH]; intros s H.
  - simpl. unfold Qsum. simpl. ring.
  - destruct H as (_ & Hx & Hrest). cbn [fold_left map].
    rewrite (IH _ Hrest), Hx. unfold Qsum. cbn [fold_right]. ring.
Qed.

Lemma F64_exact_mean xs samples :
  Z.of_nat (length xs) = samples ->
  F64.exact_sums 0 xs -> F64.exact_div (F64.fsum xs) samples ->
  F64.to_Q (F64.fsum xs / F64.of_Z samples)%float == mean (map F64.to_Q xs).
Proof.
  intros Hn Hs [_ Hd]. rewrite Hd. unfold F64.fsum, mean.
  rewrite (F64_exact_sums_total _ _ Hs), length_map, Hn.
  assert (H0 : F64.to_Q 0 == 0) by (vm_compute; reflexivity).
  rewrite H0, Qplus_0_l. reflexivity.
Qed.

Lemma F64_sums_within_total delta l : forall s,
  F64.sums_within delta s l ->
  Qabs (F64.to_Q (fold_left PrimFloat.add l s)
        - (F64.to_Q s + Qsum (map F64.to_Q l)))
  <= inject_Z (Z.of_nat (length l)) * delta.
Proof.
  induction l as [|x l IH]; intros s H.
  - cbn [fold_left map length]. unfold Qsum. cbn [fold_right].
    change (inject_Z (Z.of_nat 0)) with 0.
    apply Qabs_Qle_condition. split; lra.
  - destruct H as (_ & Hx & Hrest). specialize (IH _ Hrest).
    cbn [fold_left map length]. unfold Qsum in *. cbn [fold_right].
    rewrite Nat2Z.inj_succ. unfold Z.succ. rewrite inject_Z_plus.
    change (inject_Z 1) with 1.
    set (m := inject_Z (Z.of_nat (length l))) in *.
    set (t := fold_right Qplus 0 (map F64.to_Q l)) in *.
    set (r := F64.to_Q (fold_left PrimFloat.add l (s + x)%float)) in *.
    apply Qabs_Qle_condition in Hx. apply Qabs_Qle_condition in IH.
    apply Qabs_Qle_condition. destruct Hx, IH. split; lra.
Qed.

(** The result is within the rounding of the additions and of the division
    of the arithmetic mean. *)
Lemma F64_mean_within xs samples delta delta' :
  (0 < samples)%Z -> Z.of_nat (length xs) = samples ->
  F64.sums_within delta 0 xs -> F64.div_within delta' (F64.fsum xs) samples ->
  Qabs (F64.to_Q (F64.fsum xs / F64.of_Z samples)%float - mean (map F64.to_Q xs))
  <= delta + delta'.
Proof.
  intros Hpos Hn Hs [_ Hd].
  pose proof (F64_sums_within_total _ _ _ Hs) as Ht.
  unfold mean. rewrite length_map, Hn in *.
  assert (H0 : F64.to_Q 0 == 0) by (vm_compute; reflexivity).
  rewrite H0, Qplus_0_l in Ht. fold (F64.fsum xs) in Ht.
  assert (HN : 0 < inject_Z samples).
  { change 0 with (inject_Z 0). rewrite <- Zlt_Qlt. exact Hpos. }
  set (N := inject_Z samples) in *.
  set (S := F64.to_Q (F64.fsum xs)) in *.
  set (M := Qsum (map F64.to_Q xs)) in *.
  set (R := F64.to_Q (F64.fsum xs / F64.of_Z samples)%float) in *.
  assert (ES : S == (S / N) * N) by (field; lra).
  assert (EM : M == (M / N) * N) by (field; lra).
  set (s' := S / N) in *. set (m' := M / N) in *. clearbody s' m'.
  apply Qabs_Qle_condition in Hd. apply Qabs_Qle_condition in Ht.
  apply Qabs_Qle_condition. destruct Hd as [Hd1 Hd2], Ht as [Ht1 Ht2].
  assert (Hm1 : s' - m' <= delta) by nra.
  assert (Hm2 : - delta <= s' - m') by nra.
  split; lra.
Qed.

(** C9 (amended): [calibrate] returns, per axis, the float sum of the
    [samples] consecutive readings, accumulated in reading order from 0.0,
    divided by [samples]; that is the arithmetic mean of the readings up to
    the rounding of the additions and of the division (within
    [delta + delta'] when each addition is within [delta] and the division
    within [delta'] of the exact result), and exactly the mean when none of
    them rounds; [samples] defaults to 100. *)
Theorem calibrate_float_mean (acc : F64.accelerometer) (samples : Z)
  (rs : list (float * float * float)) :
  (0 < samples)%Z ->
  F64.readings acc 0 (Z.to_nat samples) = Some rs ->
  calibrate_samples_default = 100%Z /\
  Z.of_nat (length rs) = samples /\
  F64.calibrate acc samples =
    Ok (F64.fsum (map F64.comp_x rs) / F64.of_Z samples,
        F64.fsum (map F64.comp_y rs) / F64.of_Z samples,
        F64.fsum (map F64.comp_z rs) / F64.of_Z samples)%float /\
  (forall (comp : float * float * float -> float) (delta delta' : Q),
     F64.sums_within delta 0 (map comp rs) ->
     F64.div_within delta' (F64.fsum (map comp rs)) samples ->
     Qabs (F64.to_Q (F64.fsum (map comp rs) / F64.of_Z samples)%float
           - mean (map F64.to_Q (map comp rs))) <= delta + delta') /\
  (forall comp : float * float * float -> float,
     F64.exact_sums 0 (map comp rs) ->
     F64.exact_div (F64.fsum (map comp rs)) samples ->
     F64.to_Q (F64.fsum (map comp rs) / F64.of_Z samples)%float
     == mean (map F64.to_Q (map comp rs))).
Proof.
  intros Hpos Hrs. split; [reflexivity|].
  pose proof (F64_readings_length _ _ _ _ Hrs) as Hlen.
  assert (Hn : Z.of_nat (length rs) = samples) by lia.
  split; [exact Hn|]. split; [|split].
  - unfold F64.calibrate.
    rewrite (F64_calibrate_loop_sums _ _ _ _ _ _ _ Hrs).
    cbn [mbind result_bind].
    destruct (Z.eqb_spec samples 0) as [H0|_]; [lia|]. reflexivity.
  - intros comp delta delta' Hs Hd. apply F64_mean_within; try assumption.
    rewrite length_map. exact Hn.
  - intros comp Hs Hd. apply F64_exact_mean; [|assumption..].
    rewrite length_map. exact Hn.
Qed.

Lemma calibrate_float_mean_witness :
  (F64.calibrate (F64.steady (1, 2, 3)%float) 4 = Ok (1, 2, 3)%float /\
   F64.to_Q 1 == mean (map F64.to_Q [1; 1; 1; 1]%float)) /\
  Qabs (F64.to_Q 0.09999999999999981 - mean (map F64.to_Q (repeat 0.1%float 100)))
  <= (1 # 1000000000000000) + (1 # 1000000000000000).
Proof.
  split.
  - destruct (calibrate_float_mean (F64.steady (1, 2, 3)%float) 4
                [(1, 2, 3); (1, 2, 3); (1, 2, 3); (1, 2, 3)]%float eq_refl eq_refl)
      as (_ & _ & Hc & _ & Hm).
    split.
    + rewrite Hc. vm_compute. reflexivity.
    + apply (Hm F64.comp_x).
      * vm_compute. auto 20.
      * split; vm_compute; reflexivity.
  - destruct (calibrate_float_mean F64.steady_tenth 100
                (repeat (0.1, 0.1, 0.1)%float 100) eq_refl eq_refl)
      as (_ & _ & _ & Hb & _).
    apply (Hb F64.comp_x (1 # 1000000000000000) (1 # 1000000000000000)).
    + vm_compute. repeat (split; [reflexivity|split; [discriminate|]]). exact I.
    + split; vm_compute; [reflexivity|discriminate].
Defined.

(** C9 as stated fails on the code: for 100 readings of 0.1 the additions
    round, [calibrate] returns 0.09999999999999981 on each axis, and that
    is not the arithmetic mean of the readings (0.1). *)
Lemma calibrate_mean_rounds :
  F64.readings F64.steady_tenth 0 100 = Some (repeat (0.1, 0.1, 0.1)%float 100) /\
  F64.calibrate F64.steady_tenth 100 =
    Ok (0.09999999999999981, 0.09999999999999981, 0.09999999999999981)%float /\
  mean (map F64.to_Q (repeat 0.1%float 100)) == F64.to_Q 0.1 /\
  ~ (F64.to_Q 0.09999999999999981
     == mean (map F64.to_Q (repeat 0.1%float 100))).
Proof.
  split; [vm_compute; reflexivity|].
  split; [vm_compute; reflexivity|].
  split; [vm_compute; reflexivity|].
  vm_compute. discriminate.
Qed.
